(** * qms-actions: document index, link extraction, traceability and risk matrix

    A shallow embedding of the core of the PactoSigna QMS actions
    (src/parser.ts, src/validators/traceability.ts,
    src/reports/risk-matrix.ts, src/types.ts, src/config.ts) and the
    properties of it that the specification states.

    Conventions of the embedding.
    - A JavaScript string is a [string]: the bytes of its UTF-8 text.  The
      regular expressions of the source name ASCII characters, white space
      ([\s]) and any character but a line terminator ([.]); a character
      class is read on the bytes as a function that tells how many bytes at
      the head of a text make up one character of the class, so that the
      white space and the line terminators outside ASCII (U+00A0, U+2028,
      U+FEFF, ...) are taken as the characters they are.
    - A JavaScript number is an IEEE-754 binary64 number ([PrimFloat]):
      the severities and probabilities, which come out of [Number(...)]
      and may be fractions or NaN, and the coverage percentage.  The
      counters and the cells of the grids, which start at 0 and grow by 1,
      and the grid size are [Z].
    - Built-ins of the host that are not code of the repository and whose
      full definition is out of reach (Unicode upper-casing, the conversion
      of a string to a number) are fields of the class [JsHost].
    - [Map] objects become [gmap]s; arrays become lists, and reading a
      property of [undefined] is an error of the [result] monad.  An object
      literal used as a table is a [gmap] read through [tableGet], which
      also answers for the members that every object inherits from
      [Object.prototype]. *)

From Stdlib Require Import ZArith Lia Ascii String List.
From Stdlib Require Import Floats.PrimFloat Floats.FloatOps Floats.SpecFloat.
From Stdlib Require Import Floats.FloatAxioms.
From Stdlib Require Import Numbers.Cyclic.Int63.Uint63.
From stdpp Require Import gmap strings list pretty.

Set Default Proof Using "Type".

(** ** The host: strings, regular expressions, numbers *)

Module Js.

(** Built-ins taken as given. *)
Class JsHost := {
  (** [String.prototype.toUpperCase] *)
  toUpperCase : string → string;
  (** [Number(s)] for a string [s] *)
  StringToNumber : string → float
}.

Definition code (c : ascii) : N := N_of_ascii c.

(** *** Character classes

    A class tells how many bytes at the head of a text make up one
    character of the class; 0 when the text does not start with one. *)
Definition charClass : Type := list ascii → nat.

Fixpoint startsWith (c s : list ascii) : bool :=
  match c, s with
  | [], _ => true
  | a :: c', b :: s' => Ascii.eqb a b && startsWith c' s'
  | _ :: _, [] => false
  end.

(** The class of the characters of a list, each given by its bytes. *)
Definition oneOf (chars : list (list ascii)) : charClass := λ s,
  match List.find (λ c, startsWith c s) chars with
  | Some c => length c
  | None => 0%nat
  end.

(** A class of ASCII characters. *)
Definition byteClass (p : ascii → bool) : charClass := λ s,
  match s with
  | a :: _ => if p a then 1%nat else 0%nat
  | [] => 0%nat
  end.

Definition utf8 (bytes : list N) : list ascii := map ascii_of_N bytes.

(** LineTerminator: LF, CR, U+2028, U+2029. *)
Definition lineTerminators : list (list ascii) :=
  [ utf8 [10]; utf8 [13]; utf8 [226; 128; 168]; utf8 [226; 128; 169] ]%N.

(** WhiteSpace and LineTerminator, which [\s] matches and [trim] removes:
    TAB, LF, VT, FF, CR, SP, U+00A0, U+1680, U+2000 to U+200A, U+2028,
    U+2029, U+202F, U+205F, U+3000 and U+FEFF. *)
Definition whiteSpaceChars : list (list ascii) :=
  [ utf8 [9]; utf8 [10]; utf8 [11]; utf8 [12]; utf8 [13]; utf8 [32];
    utf8 [194; 160];
    utf8 [225; 154; 128];
    utf8 [226; 128; 128]; utf8 [226; 128; 129]; utf8 [226; 128; 130];
    utf8 [226; 128; 131]; utf8 [226; 128; 132]; utf8 [226; 128; 133];
    utf8 [226; 128; 134]; utf8 [226; 128; 135]; utf8 [226; 128; 136];
    utf8 [226; 128; 137]; utf8 [226; 128; 138];
    utf8 [226; 128; 168]; utf8 [226; 128; 169];
    utf8 [226; 128; 175];
    utf8 [226; 129; 159];
    utf8 [227; 128; 128];
    utf8 [239; 187; 191] ]%N.

(** [\s] *)
Definition whiteSpaceAt : charClass := oneOf whiteSpaceChars.

(** [.]: a byte of any character but a line terminator. *)
Definition dotAt : charClass := λ s,
  match s with
  | [] => 0%nat
  | _ :: _ => match oneOf lineTerminators s with O => 1%nat | S _ => 0%nat end
  end.

(** [\d] *)
Definition isDigit (c : ascii) : bool :=
  (48 <=? code c)%N && (code c <=? 57)%N.

Definition isCloseBracket (c : ascii) : bool := (code c =? 93)%N.
Definition notCloseBracket (c : ascii) : bool := negb (isCloseBracket c).

(** [[[\]]]: an opening or a closing square bracket. *)
Definition isBracket (c : ascii) : bool :=
  (code c =? 91)%N || (code c =? 93)%N.

(** Canonicalize of the [i] flag: a letter of ASCII goes to its capital,
    and a character outside ASCII never becomes one of ASCII. *)
Definition upperAscii (c : ascii) : ascii :=
  if (97 <=? code c)%N && (code c <=? 122)%N
  then ascii_of_N (code c - 32) else c.

Definition litEq (ignoreCase : bool) (c a : ascii) : bool :=
  if ignoreCase then Ascii.eqb (upperAscii c) (upperAscii a)
  else Ascii.eqb c a.

(** *** Regular expressions

    The patterns of the source are sequences of literals, character
    classes, greedy [*] and [+] over a class, and one capture group. *)
Inductive atom :=
| Lit (c : ascii)
| Class (t : charClass)
| Star (t : charClass)
| Plus (t : charClass)
| GroupOpen
| GroupClose.

Record RegExp := {
  atoms : list atom;
  ignoreCase : bool
}.

(** Greedy repetition with backtracking: take a character of the class
    and go on; when what follows fails, give the character back.  Every
    character has a byte at least, so [length s] rounds are enough for a
    text [s]. *)
Fixpoint greedy {R} (t : charClass) (k : nat → list ascii → option R)
    (rounds n : nat) (s : list ascii) : option R :=
  match rounds with
  | O => k n s
  | S rounds' =>
      match t s with
      | O => k n s
      | S _ as len =>
          match greedy t k rounds' (len + n) (drop len s) with
          | Some r => Some r
          | None => k n s
          end
      end
  end.

(** [run ic r n cs ce s]: match the atoms [r] against [s], [n]
    bytes into the match, the group having started at [cs] and ended
    at [ce]; the answer is the group's span and the length of the match. *)
Fixpoint run (ic : bool) (r : list atom) (n cs ce : nat) (s : list ascii)
    : option (nat * nat * nat) :=
  match r with
  | [] => Some (cs, ce, n)
  | Lit c :: r' =>
      match s with
      | a :: s' => if litEq ic c a then run ic r' (S n) cs ce s' else None
      | [] => None
      end
  | Class t :: r' =>
      match t s with
      | O => None
      | S _ as len => run ic r' (len + n) cs ce (drop len s)
      end
  | Star t :: r' => greedy t (λ n' s', run ic r' n' cs ce s') (length s) n s
  | Plus t :: r' =>
      match t s with
      | O => None
      | S _ as len =>
          greedy t (λ n' s', run ic r' n' cs ce s') (length s) (len + n)
            (drop len s)
      end
  | GroupOpen :: r' => run ic r' n n ce s
  | GroupClose :: r' => run ic r' n cs n s
  end.

(** The match object: [index], [match[0]], [match[1]]. *)
Record Match := {
  index : nat;
  matched : list ascii;
  group1 : list ascii
}.

Definition matchHere (re : RegExp) (s : list ascii) (i : nat) : option Match :=
  match run (ignoreCase re) (atoms re) 0 0 0 s with
  | Some (cs, ce, n) =>
      Some {| index := i; matched := take n s;
              group1 := take (ce - cs) (drop cs s) |}
  | None => None
  end.

(** The leftmost match in [s], which starts at position [i] of the text. *)
Fixpoint search (re : RegExp) (s : list ascii) (i : nat) : option Match :=
  match matchHere re s i with
  | Some m => Some m
  | None =>
      match s with
      | [] => None
      | _ :: s' => search re s' (S i)
      end
  end.

(** [re.exec(str)] of a global pattern: it starts at [lastIndex] and
    leaves the new [lastIndex] (the end of the match, or 0). *)
Definition exec (re : RegExp) (str : list ascii) (lastIndex : nat)
    : option Match * nat :=
  if (length str <? lastIndex)%nat then (None, 0%nat)
  else
    match search re (drop lastIndex str) lastIndex with
    | Some m => (Some m, (index m + length (matched m))%nat)
    | None => (None, 0%nat)
    end.

(** [str.match(re)] of a pattern without the [g] flag. *)
Definition matchFirst (re : RegExp) (str : list ascii) : option Match :=
  search re str 0.

(** The matches of a global pattern from left to right; [skip] counts
    the bytes still covered by the last match. *)
Fixpoint scanAll (re : RegExp) (s : list ascii) (skip : nat)
    : list (list ascii) :=
  match s with
  | [] =>
      match skip, matchHere re [] 0 with
      | O, Some m => [matched m]
      | _, _ => []
      end
  | _ :: s' =>
      match skip with
      | S k => scanAll re s' k
      | O =>
          match matchHere re s 0 with
          | Some m => matched m :: scanAll re s' (length (matched m) - 1)
          | None => scanAll re s' 0
          end
      end
  end.

(** [str.match(re)] of a pattern with the [g] flag: every [match[0]],
    or [null]. *)
Definition matchAll (re : RegExp) (str : list ascii)
    : option (list (list ascii)) :=
  match scanAll re str 0 with
  | [] => None
  | ms => Some ms
  end.

(** [str.replace(re, '')] of a global pattern: the text without its
    matches. *)
Fixpoint removeAll (re : RegExp) (s : list ascii) (skip : nat) : list ascii :=
  match s with
  | [] => []
  | a :: s' =>
      match skip with
      | S k => removeAll re s' k
      | O =>
          match matchHere re s 0 with
          | Some m =>
              match length (matched m) with
              | O => a :: removeAll re s' 0
              | S k => removeAll re s' k
              end
          | None => a :: removeAll re s' 0
          end
      end
  end.

(** The text without the characters of a class at its head. *)
Fixpoint dropClass (t : charClass) (rounds : nat) (s : list ascii) : list ascii :=
  match rounds with
  | O => s
  | S rounds' =>
      match t s with
      | O => s
      | S _ as len => dropClass t rounds' (drop len s)
      end
  end.

(** [str.trimStart()], [str.trimEnd()]: the second reads the text from its
    end, where a character shows its bytes in reverse. *)
Definition trimStart (s : list ascii) : list ascii :=
  dropClass whiteSpaceAt (length s) s.

Definition trimEnd (s : list ascii) : list ascii :=
  rev (dropClass (oneOf (map (@rev ascii) whiteSpaceChars)) (length s) (rev s)).

(** [str.trim()] *)
Definition trim (s : list ascii) : list ascii := trimEnd (trimStart s).

(** [str.split(sep)] for a separator of one character. *)
Fixpoint splitOn (sep : ascii) (s : string) : list string :=
  match s with
  | EmptyString => [EmptyString]
  | String a s' =>
      if Ascii.eqb a sep then EmptyString :: splitOn sep s'
      else
        match splitOn sep s' with
        | w :: ws => String a w :: ws
        | [] => [String a EmptyString]
        end
  end.

(** [parts.join(sep)] *)
Fixpoint join (sep : string) (parts : list string) : string :=
  match parts with
  | [] => EmptyString
  | [w] => w
  | w :: ws => w +:+ sep +:+ join sep ws
  end.

(** The double quote, for the messages that quote a word. *)
Definition dquote : string := String (ascii_of_nat 34) EmptyString.

(** *** Numbers *)

(** Equality of two numbers as values of Rocq: the same bits. *)
#[export] Instance float_eq_dec : EqDecision float.
Proof.
  intros x y. destruct (PrimFloat.Leibniz.eqb x y) eqn:E; [left|right].
  - by apply FloatAxioms.Leibniz.eqb_spec.
  - intros Heq. apply FloatAxioms.Leibniz.eqb_spec in Heq. congruence.
Defined.

(** A count as the double it is in JavaScript (exact below 2^53). *)
Definition toFloat (n : Z) : float := PrimFloat.of_uint63 (Uint63.of_Z n).

(** An integer as a double, with its sign. *)
Definition ofZ (n : Z) : float :=
  if (n <? 0)%Z then PrimFloat.opp (toFloat (- n)) else toFloat n.

(** The array index that a number names when it is used as a property key
    ([a[x]]): the number itself when it is an integer from 0 to 2^32 - 2
    (the key of -0 is 0).  A fraction, a negative number, NaN and the
    infinities name properties that are no elements. *)
Definition arrayIndex (x : float) : option Z :=
  match Prim2SF x with
  | S754_zero _ => Some 0%Z
  | S754_finite false m e =>
      if (0 <=? e)%Z
      then if (Z.pos m * 2 ^ e <? 4294967295)%Z
           then Some (Z.pos m * 2 ^ e)%Z else None
      else if (Z.pos m mod 2 ^ (- e) =? 0)%Z
                && (Z.pos m / 2 ^ (- e) <? 4294967295)%Z
           then Some (Z.pos m / 2 ^ (- e))%Z else None
  | _ => None
  end.

(** [l[i]] for an array index [i]. *)
Definition at_index {A} (l : list A) (i : Z) : option A :=
  if (i <? Z.of_nat (length l))%Z then l !! Z.to_nat i else None.

(** [l[x]] for a number [x]: [None] is JavaScript's [undefined]. *)
Definition elementAt {A} (l : list A) (x : float) : option A :=
  i ← arrayIndex x; at_index l i.

(** [Math.round]: the integer nearest to [x], the upper one at a tie, that
    is floor (x + 1/2) computed exactly on the mantissa and exponent of
    [x].  JavaScript returns a NaN or an infinity unchanged; they are no
    integers and the model answers 0 for them. *)
Definition Math_round (x : float) : Z :=
  match Prim2SF x with
  | S754_finite sign m e =>
      let mant := if sign then Z.neg m else Z.pos m in
      if (0 <=? e)%Z then (mant * 2 ^ e)%Z
      else ((2 * mant + 2 ^ (- e)) / 2 ^ (1 - e))%Z
  | _ => 0%Z
  end.

(** [parseInt(s, 10)] on a text that starts with a digit: the value of
    its leading digits.  (Without a leading digit JavaScript answers NaN;
    the code only parses what [(\d)] captured.) *)
Definition parseInt10 (s : list ascii) : Z :=
  let fix go (acc : Z) (s : list ascii) : Z :=
    match s with
    | a :: s' =>
        if isDigit a then go (10 * acc + Z.of_N (code a - 48))%Z s' else acc
    | [] => acc
    end in
  go 0%Z s.

(** A run of literal characters. *)
Definition lits (s : string) : list atom := map Lit (list_ascii_of_string s).

(** *** Object literals used as tables

    [table[key]] reads the table's own entry or, when it has none, what
    the object inherits: every object literal has [Object.prototype] behind
    it, whose members are functions, and [Object.prototype] itself under
    [__proto__]. *)
Definition objectPrototype : list string :=
  [ "constructor"; "__defineGetter__"; "__defineSetter__"; "hasOwnProperty";
    "__lookupGetter__"; "__lookupSetter__"; "isPrototypeOf";
    "propertyIsEnumerable"; "toString"; "valueOf"; "__proto__";
    "toLocaleString" ]%string.

(** What the code holds where types.ts says [string] and the value was
    read from a table: a string, or the member of [Object.prototype] of a
    given name.  Two members are the same object exactly when their names
    are the same. *)
Inductive tableValue :=
| Text (s : string)
| Inherited (name : string).

#[export] Instance tableValue_eq_dec : EqDecision tableValue.
Proof. solve_decision. Defined.

#[export] Instance tableValue_countable : Countable tableValue.
Proof.
  refine (inj_countable'
            (λ v, match v with Text s => inl s | Inherited k => inr k end)
            (λ x, match x with inl s => Text s | inr k => Inherited k end) _).
  by intros [].
Defined.

(** [table[key]]; [None] is [undefined]. *)
Definition tableGet (table : gmap string string) (key : string)
    : option tableValue :=
  match table !! key with
  | Some v => Some (Text v)
  | None =>
      if bool_decide (key ∈ objectPrototype) then Some (Inherited key)
      else None
  end.

(** ToBoolean of what a table gives: an empty string and [undefined] are
    false, a function or an object is true. *)
Definition tableTruthy (v : option tableValue) : bool :=
  match v with
  | Some (Text s) => negb (String.eqb s EmptyString)
  | Some (Inherited _) => true
  | None => false
  end.

(** *** Errors

    What JavaScript does when an index misses: reading a property of
    [undefined] throws. *)
Inductive jsError :=
| TypeError
| UndefinedValue.

Inductive result (A : Type) :=
| Ok (a : A)
| Err (e : jsError).
Arguments Ok {A} a.
Arguments Err {A} e.

(** The monad of computations that may throw; [x ← m; k] is stdpp's
    notation for its bind. *)
#[export] Instance result_ret : MRet result := λ A a, Ok a.
#[export] Instance result_bind : MBind result := λ A B f m,
  match m with
  | Ok a => f a
  | Err e => Err e
  end.

End Js.

Coercion Js.Text : string >-> Js.tableValue.

(** ** types.ts *)

Module Types.
Import Js.

Inductive RepoType := qms | device.

Inductive WarningSeverity := warning | error.

Inductive Acceptability := acceptable | review_required | unacceptable.

#[export] Instance Acceptability_eq_dec : EqDecision Acceptability.
Proof. solve_decision. Defined.

(** A value of the front matter ([unknown] in the source): the scalars of
    YAML.  An [id], [title] or [status] that is present is a string, as
    [Document] types them. *)
Inductive fmValue :=
| FmNum (x : float)
| FmStr (s : string)
| FmBool (b : bool)
| FmNull.

#[export] Instance fmValue_eq_dec : EqDecision fmValue.
Proof. solve_decision. Defined.

Module TraceabilityChain.
Record t := mk {
  source : string;
  target : string;
  link : string
}.
End TraceabilityChain.
Abbreviation TraceabilityChain := TraceabilityChain.t.

(** [Config], its nested objects flattened. *)
Module Config.
Record t := mk {
  type : RepoType;
  docsPath : string;
  required : list string;
  recommended : list string;
  chains : list TraceabilityChain;
  severityLevels : Z;
  probabilityLevels : Z;
  logo : option string;
  renderMermaid : bool
}.
End Config.
Abbreviation Config := Config.t.

Module Document.
Record t := mk {
  filePath : string;
  id : string;
  title : string;
  status : string;
  docType : tableValue;
  frontmatter : gmap string fmValue;
  body : string
}.

#[global] Instance eq_dec : EqDecision t.
Proof. solve_decision. Defined.
End Document.
Abbreviation Document := Document.t.

Module DocumentIndex.
Record t := mk {
  byId : gmap string Document;
  byPath : gmap string Document;
  byType : gmap tableValue (list Document)
}.
End DocumentIndex.
Abbreviation DocumentIndex := DocumentIndex.t.

(** The [{ type, targetId }] objects of [extractLinks]. *)
Module Link.
Record t := mk {
  type : string;
  targetId : string
}.
End Link.
Abbreviation Link := Link.t.

Module ValidationWarning.
Record t := mk {
  file : string;
  rule : tableValue;
  message : string;
  severity : WarningSeverity
}.
End ValidationWarning.
Abbreviation ValidationWarning := ValidationWarning.t.

Module TraceabilityCoverage.
Record t := mk {
  chainName : string;
  sourceType : string;
  targetType : string;
  totalSources : Z;
  coveredSources : Z;
  coveragePercent : Z
}.
End TraceabilityCoverage.
Abbreviation TraceabilityCoverage := TraceabilityCoverage.t.

Module GapEntry.
Record t := mk {
  documentId : string;
  gapType : string;
  message : string;
  severity : WarningSeverity
}.
End GapEntry.
Abbreviation GapEntry := GapEntry.t.

Module RiskEntry.
Record t := mk {
  id : string;
  title : string;
  severity : float;
  probability : float;
  residualSeverity : option float;
  residualProbability : option float;
  mitigates : list string;
  acceptability : option Acceptability
}.
End RiskEntry.
Abbreviation RiskEntry := RiskEntry.t.

Module Summary.
Record t := mk {
  total : Z;
  acceptable : Z;
  reviewRequired : Z;
  unacceptable : Z
}.
End Summary.
Abbreviation Summary := Summary.t.

Module RiskMatrix.
Record t := mk {
  inherent : list (list Z);
  residual : list (list Z);
  acceptability : list (list Acceptability);
  risks : list RiskEntry;
  summary : Summary
}.
End RiskMatrix.
Abbreviation RiskMatrix := RiskMatrix.t.

End Types.

(** ** config.ts: the default chains *)

Module ConfigDefaults.
Import Types.
Local Open Scope string_scope.

Definition DEFAULT_QMS_CHAINS : list TraceabilityChain := [].

Definition DEFAULT_DEVICE_CHAINS : list TraceabilityChain :=
  [ TraceabilityChain.mk "product_requirement" "user_need" "derives_from";
    TraceabilityChain.mk "software_requirement" "product_requirement" "derives_from";
    TraceabilityChain.mk "test_case" "software_requirement" "verified_by";
    TraceabilityChain.mk "detailed_design" "software_requirement" "implements";
    TraceabilityChain.mk "risk" "software_requirement" "mitigates" ].

Definition defaultConfig (type : RepoType) : Config :=
  {| Config.type := type;
     Config.docsPath := "docs/";
     Config.required := ["id"; "title"; "status"];
     Config.recommended := ["author"; "reviewers"; "approvers"];
     Config.chains :=
       match type with
       | device => DEFAULT_DEVICE_CHAINS
       | qms => DEFAULT_QMS_CHAINS
       end;
     Config.severityLevels := 5;
     Config.probabilityLevels := 5;
     Config.logo := None;
     Config.renderMermaid := true |}.

End ConfigDefaults.

(** ** parser.ts *)

Module Parser.
Import Js Types.
Local Open Scope string_scope.

(** Map directory names to document types. *)
Definition DIR_TYPE_MAP : gmap string string :=
  list_to_map
    [ ("user-needs", "user_need");
      ("product-requirements", "product_requirement");
      ("software-requirements", "software_requirement");
      ("architecture", "architecture");
      ("design", "detailed_design");
      ("test", "test_case");
      ("risk", "risk");
      ("sops", "sop");
      ("policies", "policy");
      ("work-instructions", "work_instruction");
      ("external-reports", "external_report");
      ("harms", "harm");
      ("situations", "hazardous_situation");
      ("software", "risk");
      ("usability", "risk");
      ("security", "risk") ].

(** The [for] loop of [inferDocType], over the directories from the
    deepest one up: [if (DIR_TYPE_MAP[dir]) return DIR_TYPE_MAP[dir]].
    What the table gives for a directory is returned as it is, a member of
    [Object.prototype] too. *)
Fixpoint firstDirType (dirs : list string) : tableValue :=
  match dirs with
  | [] => Text "unknown"
  | dir :: up =>
      match tableGet DIR_TYPE_MAP dir with
      | Some t => if tableTruthy (Some t) then t else firstDirType up
      | None => firstDirType up
      end
  end.

(** [parts[i]] for [i] from [parts.length - 2] down to 0: all parts but
    the last, the deepest first. *)
Definition inferDocType (filePath : string) : tableValue :=
  let parts := splitOn "/" filePath in
  firstDirType (rev (removelast parts)).

Definition prefixMap : gmap string string :=
  list_to_map
    [ ("UN", "user_need");
      ("PRS", "product_requirement");
      ("SRS", "software_requirement");
      ("SDD", "detailed_design");
      ("HLD", "architecture");
      ("TC", "test_case");
      ("RISK", "risk");
      ("HAZ", "hazard");
      ("HS", "hazardous_situation");
      ("HARM", "harm");
      ("SOP", "sop");
      ("POL", "policy");
      ("WI", "work_instruction");
      ("AUD", "external_report");
      ("PT", "external_report") ].

(** [id.split('-')[0]]: the text before the first dash. *)
Definition idPrefix (id : string) : string :=
  match splitOn "-" id with
  | w :: _ => w
  | [] => EmptyString
  end.

(** [prefixMap[prefix] ?? 'unknown'] *)
Definition inferTypeFromId {host : JsHost} (id : string) : tableValue :=
  let prefix := toUpperCase (idPrefix id) in
  default (Text "unknown") (tableGet prefixMap prefix).

(** [(data.k as string) ?? dflt].  The cast checks nothing; [Document]
    types these fields as strings, and the model reads a field that is
    there but is no string as absent. *)
Definition stringField (data : gmap string fmValue) (k dflt : string) : string :=
  match data !! k with
  | Some (FmStr s) => s
  | _ => dflt
  end.

(** [parseDocument] after the file is read and gray-matter has split it
    into [data] and [content]. *)
Definition parseDocument {host : JsHost} (filePath : string)
    (data : gmap string fmValue) (content : string) : option Document :=
  let id := stringField data "id" EmptyString in
  if String.eqb id EmptyString then None
  else
    let docType := inferDocType filePath in
    let docType :=
      if bool_decide (docType = Text "unknown") then inferTypeFromId id
      else docType in
    Some {| Document.filePath := filePath;
            Document.id := id;
            Document.title := stringField data "title" "Untitled";
            Document.status := stringField data "status" "unknown";
            Document.docType := docType;
            Document.frontmatter := data;
            Document.body := content |}.

(** A markdown file as [collectMarkdownFiles] and gray-matter hand it over:
    its path, front matter and body. *)
Definition MarkdownFile : Type := string * gmap string fmValue * string.

Definition emptyIndex : DocumentIndex :=
  {| DocumentIndex.byId := ∅; DocumentIndex.byPath := ∅;
     DocumentIndex.byType := ∅ |}.

(** The body of the [for] loop of [buildDocumentIndex]. *)
Definition indexFile {host : JsHost} (index : DocumentIndex) (f : MarkdownFile)
    : DocumentIndex :=
  let '(filePath, data, content) := f in
  match parseDocument filePath data content with
  | None => index
  | Some doc =>
      let typeList : list Document :=
        default [] (DocumentIndex.byType index !! Document.docType doc) in
      {| DocumentIndex.byId :=
           <[Document.id doc := doc]> (DocumentIndex.byId index);
         DocumentIndex.byPath :=
           <[Document.filePath doc := doc]> (DocumentIndex.byPath index);
         DocumentIndex.byType :=
           <[Document.docType doc := (typeList ++ [doc])%list]>
             (DocumentIndex.byType index) |}
  end.

Definition buildDocumentIndex {host : JsHost} (markdownFiles : list MarkdownFile)
    : DocumentIndex :=
  foldl indexFile emptyIndex markdownFiles.

(** The two shapes of the patterns of [linkPatterns]:
    [/\*\*Label:\*\*\s*\[([^\]]+)\]/gi] and [/\*\*Label:\*\*\s*(.+)/gi]. *)
Definition bracketed (label : string) (ty : string) : RegExp * string :=
  ({| atoms := lits ("**" +:+ label +:+ ":**")
               ++ [Star whiteSpaceAt; Lit "["%char; GroupOpen;
                   Plus (byteClass notCloseBracket); GroupClose;
                   Lit "]"%char];
      ignoreCase := true |}, ty).

Definition restOfLine (label : string) (ty : string) : RegExp * string :=
  ({| atoms := lits ("**" +:+ label +:+ ":**")
               ++ [Star whiteSpaceAt; GroupOpen; Plus dotAt; GroupClose];
      ignoreCase := true |}, ty).

Definition linkPatterns : list (RegExp * string) :=
  [ bracketed "Derives from" "derives_from";
    restOfLine "Verifies" "verified_by";
    restOfLine "Validates" "validated_by";
    bracketed "Implements" "implements";
    bracketed "Mitigates" "mitigates";
    bracketed "Analyzes" "analyzes";
    bracketed "Leads to" "leads_to";
    bracketed "Results in" "results_in" ].

(** [/\[([^\]]+)\]/g] *)
Definition idPattern : RegExp :=
  {| atoms := [Lit "["%char; GroupOpen; Plus (byteClass notCloseBracket);
               GroupClose; Lit "]"%char];
     ignoreCase := false |}.

(** [/[[\]]/g] *)
Definition bracketPattern : RegExp :=
  {| atoms := [Class (byteClass isBracket)]; ignoreCase := false |}.

Definition mkLink (ty : string) (target : list ascii) : Link :=
  {| Link.type := ty; Link.targetId := string_of_list_ascii target |}.

(** The body of the [while] loop: the links of one match, [text] being
    [match[1]]. *)
Definition linksOfMatch (ty : string) (text : list ascii) : list Link :=
  match matchAll idPattern text with
  | Some idMatches =>
      map (λ idMatch, mkLink ty (removeAll bracketPattern idMatch 0)) idMatches
  | None =>
      match trim text with
      | [] => []
      | i => [mkLink ty i]
      end
  end.

(** [while ((match = pattern.exec(doc.body)) !== null) ...]: the state is
    the pattern's [lastIndex] and the links pushed so far.  [None] when the
    fuel runs out before [exec] answers [null]. *)
Fixpoint whileExec (fuel : nat) (pattern : RegExp) (ty : string)
    (text : list ascii) (lastIndex : nat) (links : list Link)
    : option (list Link * nat) :=
  match fuel with
  | O => None
  | S fuel' =>
      match exec pattern text lastIndex with
      | (Some m, lastIndex') =>
          whileExec fuel' pattern ty text lastIndex'
            (links ++ linksOfMatch ty (group1 m))
      | (None, lastIndex') => Some (links, lastIndex')
      end
  end.

(** [for (const { pattern, type } of linkPatterns) ...]; a pattern is a
    fresh object, its [lastIndex] is 0. *)
Fixpoint forPatterns (fuel : nat) (patterns : list (RegExp * string))
    (text : list ascii) (links : list Link) : option (list Link) :=
  match patterns with
  | [] => Some links
  | (pattern, ty) :: rest =>
      match whileExec fuel pattern ty text 0 links with
      | Some (links', _) => forPatterns fuel rest text links'
      | None => None
      end
  end.

Definition extractLinksFuel (fuel : nat) (doc : Document) : option (list Link) :=
  forPatterns fuel linkPatterns (list_ascii_of_string (Document.body doc)) [].

(** Every match takes at least one character, so each loop ends within
    [length body + 1] calls of [exec]: [extractLinks_terminates] below. *)
Definition extractLinks (doc : Document) : list Link :=
  default []
    (extractLinksFuel (S (String.length (Document.body doc))) doc).

End Parser.

(** ** validators/traceability.ts *)

Module Traceability.
Import Js Types Parser.
Local Open Scope string_scope.

(** What [validateTraceability] returns. *)
Record Report := {
  warnings : list ValidationWarning;
  coverage : list TraceabilityCoverage;
  gaps : list GapEntry
}.

(** [docLinks]: the links of every document by its id; a later document
    with the same id replaces the entry. *)
Definition buildDocLinks (documents : list Document) : gmap string (list Link) :=
  foldl (λ docLinks doc, <[Document.id doc := extractLinks doc]> docLinks)
    ∅ documents.

(** [docLinks.get(id) ?? []] *)
Definition linksFor (docLinks : gmap string (list Link)) (id : string)
    : list Link :=
  default [] (docLinks !! id).

Definition hasType (ty : string) (l : Link) : bool :=
  String.eqb (Link.type l) ty.

(** [l.type === 'verified_by' || l.type === 'validated_by'] *)
Definition isVerification (l : Link) : bool :=
  hasType "verified_by" l || hasType "validated_by" l.

Definition hasRequiredLink (chain : TraceabilityChain) (links : list Link)
    : bool :=
  existsb
    (λ l, if String.eqb (TraceabilityChain.link chain) "verified_by"
          then isVerification l
          else hasType (TraceabilityChain.link chain) l)
    links.

Definition hasCoveringTarget (index : DocumentIndex)
    (docLinks : gmap string (list Link)) (chain : TraceabilityChain)
    (sourceDoc : Document) : bool :=
  let targetDocs : list Document :=
    default []
      (DocumentIndex.byType index !! Text (TraceabilityChain.target chain)) in
  existsb
    (λ targetDoc,
       let targetLinks := linksFor docLinks (Document.id targetDoc) in
       existsb
         (λ l, isVerification l
               && String.eqb (Link.targetId l) (Document.id sourceDoc))
         targetLinks)
    targetDocs.

(** [ruleMap[chain.link] ?? 'traceability/missing-link'] is read through
    [tableGet]: for a link named like a member of [Object.prototype] the
    rule of the warning is that member. *)
Definition ruleMap : gmap string string :=
  list_to_map
    [ ("derives_from", "traceability/requirement-derivation");
      ("verified_by", "traceability/test-coverage");
      ("mitigates", "traceability/risk-mitigation");
      ("implements", "traceability/design-coverage") ].

Definition missingLinkWarning (chain : TraceabilityChain) (sourceDoc : Document)
    : ValidationWarning :=
  {| ValidationWarning.file := Document.filePath sourceDoc;
     ValidationWarning.rule :=
       default (Text "traceability/missing-link")
         (tableGet ruleMap (TraceabilityChain.link chain));
     ValidationWarning.message :=
       Document.id sourceDoc +:+ " (" +:+ TraceabilityChain.source chain
       +:+ ") has no " +:+ dquote +:+ TraceabilityChain.link chain +:+ dquote
       +:+ " link to a " +:+ TraceabilityChain.target chain;
     ValidationWarning.severity := warning |}.

Definition missingLinkGap (chain : TraceabilityChain) (sourceDoc : Document)
    : GapEntry :=
  {| GapEntry.documentId := Document.id sourceDoc;
     GapEntry.gapType := "missing_" +:+ TraceabilityChain.link chain;
     GapEntry.message :=
       "No " +:+ dquote +:+ TraceabilityChain.link chain +:+ dquote
       +:+ " link to " +:+ TraceabilityChain.target chain;
     GapEntry.severity := warning |}.

(** The state of the loop over [sourceDocs]: the two arrays it pushes to
    and [coveredCount]. *)
Definition SourceLoop : Type :=
  list ValidationWarning * list GapEntry * Z.

(** The body of [for (const sourceDoc of sourceDocs)]. *)
Definition checkSource (index : DocumentIndex)
    (docLinks : gmap string (list Link)) (chain : TraceabilityChain)
    (st : SourceLoop) (sourceDoc : Document) : SourceLoop :=
  let '(warnings, gaps, coveredCount) := st in
  let links := linksFor docLinks (Document.id sourceDoc) in
  if hasRequiredLink chain links then (warnings, gaps, (coveredCount + 1)%Z)
  else
    if String.eqb (TraceabilityChain.link chain) "verified_by"
       && hasCoveringTarget index docLinks chain sourceDoc
    then (warnings, gaps, (coveredCount + 1)%Z)
    else ((warnings ++ [missingLinkWarning chain sourceDoc])%list,
          (gaps ++ [missingLinkGap chain sourceDoc])%list,
          coveredCount).

(** [w.charAt(0).toUpperCase() + w.slice(1)] *)
Definition capitalize {host : JsHost} (w : string) : string :=
  match w with
  | EmptyString => toUpperCase EmptyString
  | String a w' => toUpperCase (String a EmptyString) +:+ w'
  end.

Definition formatTypeName {host : JsHost} (type : string) : string :=
  join " " (map capitalize (splitOn "_" type)).

(** [sourceDocs.length > 0 ? Math.round((coveredCount / sourceDocs.length) * 100) : 100],
    on doubles as in JavaScript. *)
Definition coveragePercentOf (coveredCount totalSources : Z) : Z :=
  if (0 <? totalSources)%Z
  then Math_round
         (PrimFloat.mul
            (PrimFloat.div (toFloat coveredCount) (toFloat totalSources))
            (toFloat 100))
  else 100%Z.

(** The body of [for (const chain of config.traceability.chains)]. *)
Definition checkChain {host : JsHost} (index : DocumentIndex)
    (docLinks : gmap string (list Link)) (r : Report)
    (chain : TraceabilityChain) : Report :=
  let sourceDocs : list Document :=
    default []
      (DocumentIndex.byType index !! Text (TraceabilityChain.source chain)) in
  let '(warnings', gaps', coveredCount) :=
    foldl (checkSource index docLinks chain) (warnings r, gaps r, 0%Z)
      sourceDocs in
  let chainName :=
    formatTypeName (TraceabilityChain.source chain) +:+ " → "
    +:+ formatTypeName (TraceabilityChain.target chain) in
  {| warnings := warnings';
     coverage :=
       (coverage r ++
        [ {| TraceabilityCoverage.chainName := chainName;
             TraceabilityCoverage.sourceType := TraceabilityChain.source chain;
             TraceabilityCoverage.targetType := TraceabilityChain.target chain;
             TraceabilityCoverage.totalSources := Z.of_nat (length sourceDocs);
             TraceabilityCoverage.coveredSources := coveredCount;
             TraceabilityCoverage.coveragePercent :=
               coveragePercentOf coveredCount (Z.of_nat (length sourceDocs)) |} ])%list;
     gaps := gaps' |}.

Definition hazardRule : string := "traceability/hazard-chain".

(** The body of [for (const risk of risks)] in [validateHazardChains]; the
    state is the two arrays the function pushes to. *)
Definition checkRisk (index : DocumentIndex)
    (docLinks : gmap string (list Link))
    (st : list ValidationWarning * list GapEntry) (risk : Document)
    : list ValidationWarning * list GapEntry :=
  let '(warnings, gaps) := st in
  let links := linksFor docLinks (Document.id risk) in
  match find (hasType "analyzes") links with
  | None => st
  | Some analyzesLink =>
      let hazardId := Link.targetId analyzesLink in
      match DocumentIndex.byId index !! hazardId with
      | None => st
      | Some hazardDoc =>
          let hazardLinks := linksFor docLinks hazardId in
          match find (hasType "leads_to") hazardLinks with
          | None =>
              ((warnings ++
                [ {| ValidationWarning.file := Document.filePath hazardDoc;
                     ValidationWarning.rule := hazardRule;
                     ValidationWarning.message :=
                       "Hazard " +:+ hazardId +:+ " has no " +:+ dquote
                       +:+ "leads_to" +:+ dquote +:+ " hazardous situation";
                     ValidationWarning.severity := warning |} ])%list,
               (gaps ++
                [ {| GapEntry.documentId := hazardId;
                     GapEntry.gapType := "hazard_no_situation";
                     GapEntry.message := "Hazard has no leads_to link";
                     GapEntry.severity := warning |} ])%list)
          | Some leadsTo =>
              match DocumentIndex.byId index !! Link.targetId leadsTo with
              | None => st
              | Some situationDoc =>
                  let situationLinks :=
                    linksFor docLinks (Link.targetId leadsTo) in
                  match find (hasType "results_in") situationLinks with
                  | Some _ => st
                  | None =>
                      ((warnings ++
                        [ {| ValidationWarning.file :=
                               Document.filePath situationDoc;
                             ValidationWarning.rule := hazardRule;
                             ValidationWarning.message :=
                               "Hazardous situation " +:+ Link.targetId leadsTo
                               +:+ " has no " +:+ dquote +:+ "results_in"
                               +:+ dquote +:+ " harm";
                             ValidationWarning.severity := warning |} ])%list,
                       (gaps ++
                        [ {| GapEntry.documentId := Link.targetId leadsTo;
                             GapEntry.gapType := "situation_no_harm";
                             GapEntry.message :=
                               "Situation has no results_in link";
                             GapEntry.severity := warning |} ])%list)
                  end
              end
          end
      end
  end.

(** [validateHazardChains]: it pushes to the [warnings] and [gaps] of its
    caller, which the model passes in and gets back. *)
Definition validateHazardChains (documents : list Document)
    (index : DocumentIndex) (docLinks : gmap string (list Link))
    (warnings : list ValidationWarning) (gaps : list GapEntry)
    : list ValidationWarning * list GapEntry :=
  let risks : list Document :=
    default [] (DocumentIndex.byType index !! Text "risk") in
  foldl (checkRisk index docLinks) (warnings, gaps) risks.

Definition validateTraceability {host : JsHost} (documents : list Document)
    (index : DocumentIndex) (config : Config) : Report :=
  let empty := {| warnings := []; coverage := []; gaps := [] |} in
  match Config.type config with
  | qms => empty
  | device =>
      let docLinks := buildDocLinks documents in
      let r := foldl (checkChain index docLinks) empty (Config.chains config) in
      let '(warnings', gaps') :=
        validateHazardChains documents index docLinks (warnings r) (gaps r) in
      {| warnings := warnings'; coverage := coverage r; gaps := gaps' |}
  end.

End Traceability.

(** ** reports/risk-matrix.ts *)

Module RiskMatrixBuilder.
Import Js Types Parser.
Local Open Scope string_scope.

(** Default ISO 14971 acceptability matrix (5x5).
    Rows = probability (1-5), columns = severity (1-5). *)
Definition DEFAULT_ACCEPTABILITY : list (list Acceptability) :=
  [ [acceptable; acceptable; acceptable; acceptable; review_required];
    [acceptable; acceptable; acceptable; review_required; review_required];
    [acceptable; acceptable; review_required; review_required; unacceptable];
    [acceptable; review_required; review_required; unacceptable; unacceptable];
    [review_required; review_required; unacceptable; unacceptable; unacceptable] ].

(** What [extractRiskValues] returns. *)
Module RiskValues.
Record t := mk {
  severity : float;
  probability : float;
  residualSeverity : option float;
  residualProbability : option float
}.
End RiskValues.
Abbreviation RiskValues := RiskValues.t.

(** ToBoolean of a front-matter field; an absent one is [undefined].  Of
    the numbers 0, -0 and NaN are false. *)
Definition truthy (v : option fmValue) : bool :=
  match v with
  | Some (FmNum x) => negb (PrimFloat.eqb x 0 || PrimFloat.is_nan x)
  | Some (FmStr s) => negb (String.eqb s EmptyString)
  | Some (FmBool b) => b
  | Some FmNull => false
  | None => false
  end.

(** [Number(v)] *)
Definition Number {host : JsHost} (v : fmValue) : float :=
  match v with
  | FmNum x => x
  | FmStr s => StringToNumber s
  | FmBool b => if b then 1%float else 0%float
  | FmNull => 0%float
  end.

(** [fm[k] ? Number(fm[k]) : undefined] *)
Definition numberIfTruthy {host : JsHost} (fm : gmap string fmValue) (k : string)
    : option float :=
  if truthy (fm !! k) then Number <$> fm !! k else None.

(** [/\|\s*Label\s*\|\s*(\d)/i] *)
Definition tableRow (label : list atom) : RegExp :=
  {| atoms := [Lit "|"%char; Star whiteSpaceAt] ++ label
              ++ [Star whiteSpaceAt; Lit "|"%char; Star whiteSpaceAt;
                  GroupOpen; Class (byteClass isDigit); GroupClose];
     ignoreCase := true |}.

Definition severityRow : RegExp := tableRow (lits "Severity").
Definition probabilityRow : RegExp := tableRow (lits "Probability").
Definition residualSeverityRow : RegExp :=
  tableRow (lits "Residual" ++ [Star whiteSpaceAt] ++ lits "Severity").
Definition residualProbabilityRow : RegExp :=
  tableRow (lits "Residual" ++ [Star whiteSpaceAt] ++ lits "Probability").

(** [m ? parseInt(m[1], 10) : undefined] *)
Definition rowValue (row : RegExp) (body : list ascii) : option Z :=
  (λ m, parseInt10 (group1 m)) <$> matchFirst row body.

(** Extract risk assessment values from a risk document's frontmatter and
    body. *)
Definition extractRiskValues {host : JsHost} (doc : Document) : option RiskValues :=
  let fm := Document.frontmatter doc in
  if truthy (fm !! "severity") && truthy (fm !! "probability")
  then
    Some {| RiskValues.severity := Number (default FmNull (fm !! "severity"));
            RiskValues.probability :=
              Number (default FmNull (fm !! "probability"));
            RiskValues.residualSeverity :=
              numberIfTruthy fm "residual_severity";
            RiskValues.residualProbability :=
              numberIfTruthy fm "residual_probability" |}
  else
    let body := list_ascii_of_string (Document.body doc) in
    match rowValue severityRow body, rowValue probabilityRow body with
    | Some s, Some p =>
        Some {| RiskValues.severity := toFloat s;
                RiskValues.probability := toFloat p;
                RiskValues.residualSeverity :=
                  toFloat <$> rowValue residualSeverityRow body;
                RiskValues.residualProbability :=
                  toFloat <$> rowValue residualProbabilityRow body |}
    | _, _ => None
    end.

(** [Array.from({ length: size }, () => Array(size).fill(0))] *)
Definition createGrid (size : Z) : list (list Z) :=
  replicate (Z.to_nat size) (replicate (Z.to_nat size) 0%Z).

(** [grid[i][j]++] for two numbers.  When [grid[i]] is [undefined], reading
    its property [j] throws.  When [j] names no element of the row, the
    statement defines the property [j] of the row, which no reading of
    its elements sees: the cells stay as they are.  [UndefinedValue] stands
    for the one step that the cells of the model cannot follow, the count
    of an element past the end of the row; the callers ask for a [j] below
    the length of the row only. *)
Definition increment (grid : list (list Z)) (i j : float)
    : result (list (list Z)) :=
  match arrayIndex i with
  | None => Err TypeError
  | Some r =>
      match at_index grid r with
      | None => Err TypeError
      | Some row =>
          match arrayIndex j with
          | None => Ok grid
          | Some c =>
              match at_index row c with
              | None => Err UndefinedValue
              | Some count =>
                  Ok (<[Z.to_nat r := <[Z.to_nat c := (count + 1)%Z]> row]>
                        grid)
              end
          end
      end
  end.

(** [None] is the [undefined] that [DEFAULT_ACCEPTABILITY[i][j]] is when
    the row has no such element. *)
Definition getAcceptability (probability severity : float)
    : result (option Acceptability) :=
  if (probability <? 1)%float || (5 <? probability)%float
     || (severity <? 1)%float || (5 <? severity)%float
  then Ok (Some review_required)
  else
    match elementAt DEFAULT_ACCEPTABILITY (probability - 1)%float with
    | None => Err TypeError
    | Some row => Ok (elementAt row (severity - 1)%float)
    end.

(** [p >= 1 && p <= gridSize && s >= 1 && s <= gridSize] *)
Definition inGrid (gridSize : Z) (p s : float) : bool :=
  (1 <=? p)%float && (p <=? ofZ gridSize)%float
  && (1 <=? s)%float && (s <=? ofZ gridSize)%float.

(** The variables of [buildRiskMatrix] that its loop changes. *)
Record Acc := {
  inherent : list (list Z);
  residual : list (list Z);
  risks : list RiskEntry;
  acceptable : Z;
  reviewRequired : Z;
  unacceptable : Z
}.

(** The body of [for (const doc of riskDocs)]. *)
Definition addRisk {host : JsHost} (gridSize : Z) (acc : Acc) (doc : Document)
    : result Acc :=
  match extractRiskValues doc with
  | None => Ok acc
  | Some values =>
      let severity := RiskValues.severity values in
      let probability := RiskValues.probability values in
      let residualSeverity := RiskValues.residualSeverity values in
      let residualProbability := RiskValues.residualProbability values in
      inherent' ←
        (if inGrid gridSize probability severity
         then increment (inherent acc) (probability - 1)%float
                (severity - 1)%float
         else Ok (inherent acc));
      let resSev := default severity residualSeverity in
      let resProb := default probability residualProbability in
      residual' ←
        (if inGrid gridSize resProb resSev
         then increment (residual acc) (resProb - 1)%float (resSev - 1)%float
         else Ok (residual acc));
      acceptabilityStatus ← getAcceptability resProb resSev;
      let links := extractLinks doc in
      let mitigates :=
        map Link.targetId (filter (λ l, Link.type l = "mitigates") links) in
      Ok {| inherent := inherent';
            residual := residual';
            risks :=
              (risks acc ++
               [ {| RiskEntry.id := Document.id doc;
                    RiskEntry.title := Document.title doc;
                    RiskEntry.severity := severity;
                    RiskEntry.probability := probability;
                    RiskEntry.residualSeverity := residualSeverity;
                    RiskEntry.residualProbability := residualProbability;
                    RiskEntry.mitigates := mitigates;
                    RiskEntry.acceptability := acceptabilityStatus |} ])%list;
            acceptable :=
              match acceptabilityStatus with
              | Some Types.acceptable => (acceptable acc + 1)%Z
              | _ => acceptable acc
              end;
            reviewRequired :=
              match acceptabilityStatus with
              | Some Types.review_required => (reviewRequired acc + 1)%Z
              | _ => reviewRequired acc
              end;
            unacceptable :=
              match acceptabilityStatus with
              | Some Types.unacceptable => (unacceptable acc + 1)%Z
              | _ => unacceptable acc
              end |}
  end.

(** The loop: a throw ends it. *)
Fixpoint forRiskDocs {host : JsHost} (gridSize : Z) (acc : Acc)
    (riskDocs : list Document) : result Acc :=
  match riskDocs with
  | [] => Ok acc
  | doc :: rest =>
      acc' ← addRisk gridSize acc doc;
      forRiskDocs gridSize acc' rest
  end.

Definition initialAcc (gridSize : Z) : Acc :=
  {| inherent := createGrid gridSize;
     residual := createGrid gridSize;
     risks := [];
     acceptable := 0;
     reviewRequired := 0;
     unacceptable := 0 |}.

Definition toMatrix (acc : Acc) : RiskMatrix :=
  {| RiskMatrix.inherent := inherent acc;
     RiskMatrix.residual := residual acc;
     RiskMatrix.acceptability := DEFAULT_ACCEPTABILITY;
     RiskMatrix.risks := risks acc;
     RiskMatrix.summary :=
       {| Summary.total := Z.of_nat (length (risks acc));
          Summary.acceptable := acceptable acc;
          Summary.reviewRequired := reviewRequired acc;
          Summary.unacceptable := unacceptable acc |} |}.

(** Build the ISO 14971 risk matrix from risk documents; [None] is the
    [null] of the source. *)
Definition buildRiskMatrix {host : JsHost} (index : DocumentIndex) (gridSize : Z)
    : result (option RiskMatrix) :=
  let riskDocs : list Document :=
    default [] (DocumentIndex.byType index !! Text "risk") in
  match riskDocs with
  | [] => Ok None
  | _ =>
      acc ← forRiskDocs gridSize (initialAcc gridSize) riskDocs;
      Ok (Some (toMatrix acc))
  end.

End RiskMatrixBuilder.

(** * Notions the statements use *)

(** ** The risk matrix *)

Module RiskSpec.
Import Js Types Parser RiskMatrixBuilder.

(** The residual pair of an entry, the inherent value standing in for a
    residual one that is absent. *)
Definition resSev (e : RiskEntry) : float :=
  default (RiskEntry.severity e) (RiskEntry.residualSeverity e).

Definition resProb (e : RiskEntry) : float :=
  default (RiskEntry.probability e) (RiskEntry.residualProbability e).

(** Both coordinates are integers within 1..5. *)
Definition onScale (p s : Z) : Prop := (1 ≤ p ≤ 5 ∧ 1 ≤ s ≤ 5)%Z.

#[export] Instance onScale_dec p s : Decision (onScale p s).
Proof. unfold onScale. apply _. Defined.

(** An [n] by [n] grid. *)
Definition square (n : nat) (g : list (list Z)) : Prop :=
  length g = n ∧ Forall (λ row, length row = n) g.

(** [grid[i][j]], 0 where there is no such cell. *)
Definition cell (g : list (list Z)) (i j : nat) : Z :=
  default 0%Z (row ← g !! i; row !! j).

(** The tier that [getAcceptability] returns; [None] also when it throws
    and no entry is pushed at all. *)
Definition tierAt (p s : float) : option Acceptability :=
  match getAcceptability p s with
  | Ok tier => tier
  | Err _ => None
  end.

(** The entry pushed for a document whose values are [v]. *)
Definition entryOf (doc : Document) (v : RiskValues) : RiskEntry :=
  {| RiskEntry.id := Document.id doc;
     RiskEntry.title := Document.title doc;
     RiskEntry.severity := RiskValues.severity v;
     RiskEntry.probability := RiskValues.probability v;
     RiskEntry.residualSeverity := RiskValues.residualSeverity v;
     RiskEntry.residualProbability := RiskValues.residualProbability v;
     RiskEntry.mitigates :=
       map Link.targetId
         (filter (λ l, Link.type l = "mitigates"%string) (extractLinks doc));
     RiskEntry.acceptability :=
       tierAt
         (default (RiskValues.probability v) (RiskValues.residualProbability v))
         (default (RiskValues.severity v) (RiskValues.residualSeverity v)) |}.

Definition expectedEntry {host : JsHost} (doc : Document) : option RiskEntry :=
  entryOf doc <$> extractRiskValues doc.

(** [index.byType.get('risk') ?? []] *)
Definition riskDocsOf (index : DocumentIndex) : list Document :=
  default [] (DocumentIndex.byType index !! Text "risk"%string).

(** The two attempts of [extractRiskValues]. *)
Definition metadataYieldsBoth (doc : Document) : Prop :=
  truthy (Document.frontmatter doc !! "severity"%string) = true
  ∧ truthy (Document.frontmatter doc !! "probability"%string) = true.

Definition bodyYieldsBoth (doc : Document) : Prop :=
  is_Some (matchFirst severityRow (list_ascii_of_string (Document.body doc)))
  ∧ is_Some (matchFirst probabilityRow (list_ascii_of_string (Document.body doc))).

(** The counters of the summary of a matrix. *)
Definition tierCounts (m : RiskMatrix) : Z * Z * Z :=
  (Summary.acceptable (RiskMatrix.summary m),
   Summary.reviewRequired (RiskMatrix.summary m),
   Summary.unacceptable (RiskMatrix.summary m)).

End RiskSpec.

(** ** Sample data *)

Module Samples.
Import Js Types Parser Traceability RiskMatrixBuilder.
Local Open Scope string_scope.

Definition asciiUpper (s : string) : string :=
  string_of_list_ascii (map upperAscii (list_ascii_of_string s)).

(** [Number(s)] where a numeric literal is a row of decimal digits with
    white space around it: its value, 0 for a text that is blank, NaN for
    any other text. *)
Definition decimalToNumber (s : string) : float :=
  match trim (list_ascii_of_string s) with
  | [] => 0%float
  | digits =>
      if forallb isDigit digits then toFloat (parseInt10 digits)
      else PrimFloat.nan
  end.

(** The host of the fixtures: upper-casing of ASCII, and [Number(s)] for a
    text that is blank, a row of decimal digits or no numeral at all.  The
    fixtures hold no other numeral of JavaScript (sign, fraction, exponent,
    hexadecimal, Infinity). *)
Definition asciiHost : JsHost :=
  {| toUpperCase := asciiUpper;
     StringToNumber := decimalToNumber |}.

Definition nl : string := String (ascii_of_nat 10) EmptyString.

Definition lines (ls : list string) : string := join nl ls.

Definition blank : Document :=
  {| Document.filePath := EmptyString; Document.id := EmptyString;
     Document.title := EmptyString; Document.status := EmptyString;
     Document.docType := EmptyString; Document.frontmatter := ∅;
     Document.body := EmptyString |}.

(** The document of a file that has an id. *)
Definition parsed (f : MarkdownFile) : Document :=
  default blank (@parseDocument asciiHost f.1.1 f.1.2 f.2).

(** tests/fixtures/device/risk/software/RISK-SW-001.md *)
Definition riskSw001 : MarkdownFile :=
  ("risk/software/RISK-SW-001.md",
   list_to_map
     [ ("id", FmStr "RISK-SW-001");
       ("title", FmStr "False Negative Detection Risk");
       ("status", FmStr "approved");
       ("severity", FmNum 4); ("probability", FmNum 3);
       ("residual_severity", FmNum 4); ("residual_probability", FmNum 1) ],
   lines
     [ "# Risk Analysis: False Negative Detection Risk";
       EmptyString;
       "**Analyzes:** [HAZ-SW-001](HAZ-SW-001.md)";
       "**Mitigates:** [SRS-001](../../software-requirements/SRS-001.md)";
       EmptyString;
       "| Severity | 4 (Critical) | Can cause missed diagnosis |";
       "| Probability | 3 (Occasional) | Algorithm limitations |";
       "| Residual Severity | 4 (Critical) | Severity unchanged |";
       "| Residual Probability | 1 (Remote) | Controls effective |" ]).

(** A risk whose values lie outside the grid, and one without values. *)
Definition riskOffGrid : MarkdownFile :=
  ("risk/RISK-002.md",
   list_to_map
     [ ("id", FmStr "RISK-002"); ("severity", FmNum 7); ("probability", FmNum 2) ],
   "# Off the scale").

Definition riskDraft : MarkdownFile :=
  ("risk/RISK-003.md", list_to_map [ ("id", FmStr "RISK-003") ],
   "# Draft without an assessment").

Definition riskFiles : list MarkdownFile := [riskSw001; riskOffGrid; riskDraft].

(** A risk whose severity is written as in the tables of the fixture, and
    one whose probability lies between two levels. *)
Definition riskWorded : MarkdownFile :=
  ("risk/RISK-004.md",
   list_to_map
     [ ("id", FmStr "RISK-004"); ("severity", FmStr "4 (Critical)");
       ("probability", FmNum 3) ],
   "# Severity in words").

Definition riskBetween : MarkdownFile :=
  ("risk/RISK-005.md",
   list_to_map
     [ ("id", FmStr "RISK-005"); ("severity", FmNum 3);
       ("probability", FmNum 2.5) ],
   "# Between two levels").

Definition docSw001 : Document := Eval vm_compute in parsed riskSw001.
Definition docOffGrid : Document := Eval vm_compute in parsed riskOffGrid.
Definition docDraft : Document := Eval vm_compute in parsed riskDraft.

(** A device repository after tests/fixtures/device: a need, the
    requirements that derive from it (SRS-002 is an orphan), a test case
    that verifies both requirements, one that only validates the need, the
    risk of the fixture, its hazard, which leads nowhere, and a second
    risk whose hazard leads to a situation without harm. *)
Definition deviceFiles : list MarkdownFile :=
  [ ("user-needs/UN-001.md", list_to_map [ ("id", FmStr "UN-001") ],
     "# Accurate Detection");
    ("product-requirements/PRS-001.md", list_to_map [ ("id", FmStr "PRS-001") ],
     "**Derives from:** [UN-001](../user-needs/UN-001.md)");
    ("software-requirements/SRS-001.md", list_to_map [ ("id", FmStr "SRS-001") ],
     "**Derives from:** [PRS-001](../product-requirements/PRS-001.md)");
    ("software-requirements/SRS-002.md", list_to_map [ ("id", FmStr "SRS-002") ],
     "# Audit Logging");
    ("test/TC-001.md", list_to_map [ ("id", FmStr "TC-001") ],
     "**Verifies:** [SRS-001](../software-requirements/SRS-001.md), [SRS-002](../software-requirements/SRS-002.md)");
    ("test/TC-002.md", list_to_map [ ("id", FmStr "TC-002") ],
     "**Validates:** [UN-001](../user-needs/UN-001.md)");
    riskSw001;
    ("risk/software/HAZ-SW-001.md", list_to_map [ ("id", FmStr "HAZ-SW-001") ],
     "# Hazard: missed detection");
    ("risk/software/RISK-SW-002.md", list_to_map [ ("id", FmStr "RISK-SW-002") ],
     "**Analyzes:** [HAZ-SW-002](HAZ-SW-002.md)");
    ("risk/software/HAZ-SW-002.md", list_to_map [ ("id", FmStr "HAZ-SW-002") ],
     "**Leads to:** [HS-002](../situations/HS-002.md)");
    ("risk/situations/HS-002.md", list_to_map [ ("id", FmStr "HS-002") ],
     "# Situation: delayed alarm");
    ("risk/software/RISK-SW-003.md", list_to_map [ ("id", FmStr "RISK-SW-003") ],
     "**Analyzes:** [HAZ-SW-404](HAZ-SW-404.md)") ].

Definition deviceDocs : list Document := Eval vm_compute in map parsed deviceFiles.

Definition deviceIndex : DocumentIndex :=
  Eval vm_compute in @buildDocumentIndex asciiHost deviceFiles.

Definition docAt (i : nat) : Document := default blank (deviceDocs !! i).

Definition docTc001 : Document := Eval vm_compute in docAt 4.
Definition docTc002 : Document := Eval vm_compute in docAt 5.

(** A document with the given body. *)
Definition docOf (text : string) : Document :=
  {| Document.filePath := "notes/N-001.md";
     Document.id := "N-001";
     Document.title := "Untitled";
     Document.status := "unknown";
     Document.docType := "unknown";
     Document.frontmatter := ∅;
     Document.body := text |}.

Definition testChain : TraceabilityChain :=
  TraceabilityChain.mk "test_case" "software_requirement" "verified_by".

(** Forty software requirements, twenty-three of which derive from a
    product requirement. *)
Definition twoDigits (n : nat) : string :=
  String (ascii_of_nat (48 + n / 10))
    (String (ascii_of_nat (48 + n mod 10)) EmptyString).

Definition requirement (derived : bool) (n : nat) : MarkdownFile :=
  ("software-requirements/SRS-0" +:+ twoDigits n +:+ ".md",
   list_to_map [ ("id", FmStr ("SRS-0" +:+ twoDigits n)) ],
   if derived then "**Derives from:** [PRS-001](../product-requirements/PRS-001.md)"
   else "# Not traced yet").

Definition fortyFiles : list MarkdownFile :=
  (map (requirement true) (seq 0 23) ++ map (requirement false) (seq 23 17))%list.

Definition fortyDocs : list Document := Eval vm_compute in map parsed fortyFiles.

Definition fortyIndex : DocumentIndex :=
  Eval vm_compute in @buildDocumentIndex asciiHost fortyFiles.

Definition derivationConfig : Config :=
  {| Config.type := device;
     Config.docsPath := "docs/";
     Config.required := ["id"; "title"; "status"];
     Config.recommended := ["author"; "reviewers"; "approvers"];
     Config.chains :=
       [ TraceabilityChain.mk "software_requirement" "product_requirement"
           "derives_from" ];
     Config.severityLevels := 5;
     Config.probabilityLevels := 5;
     Config.logo := None;
     Config.renderMermaid := true |}.

Definition riskIndex : DocumentIndex :=
  Eval vm_compute in @buildDocumentIndex asciiHost riskFiles.

Definition docBetween : Document := Eval vm_compute in parsed riskBetween.

Definition wordedIndex : DocumentIndex :=
  Eval vm_compute in @buildDocumentIndex asciiHost [riskWorded].

Definition betweenIndex : DocumentIndex :=
  Eval vm_compute in @buildDocumentIndex asciiHost [riskBetween].

Definition riskMatrix : RiskMatrix :=
  Eval vm_compute in
    match @buildRiskMatrix asciiHost riskIndex 5 with
    | Ok (Some m) => m
    | _ => toMatrix (initialAcc 0)
    end.

End Samples.

(** ** The parser *)

Module ParserSpec.
Import Js Types Parser.

(** The directories of a path, the deepest first: every segment but the
    file name. *)
Definition directories (filePath : string) : list string :=
  rev (removelast (splitOn "/" filePath)).

(** For no directory of the list does DIR_TYPE_MAP give anything, of its
    own or inherited. *)
Definition unmapped (dirs : list string) : Prop :=
  Forall (λ dir, tableGet DIR_TYPE_MAP dir = None) dirs.

(** [prefix] is the text of [id] before its first dash: all of it when it
    has none. *)
Definition beforeFirstDash (prefix id : string) : Prop :=
  ¬ In "-"%char (list_ascii_of_string prefix)
  ∧ (id = prefix ∨ ∃ rest, id = prefix +:+ "-" +:+ rest).

(** Documents that share their id. *)
Definition sameId (a b : Document) : Prop := Document.id a = Document.id b.

End ParserSpec.

(** ** The traceability engine *)

Module TraceabilitySpec.
Import Js Types Parser Traceability.
Local Open Scope string_scope.

(** [index.byType.get(t) ?? []] *)
Definition docsOfType (index : DocumentIndex) (t : tableValue)
    : list Document :=
  default [] (DocumentIndex.byType index !! t).

(** A snapshot as index.ts hands it to the validators: the documents are
    the values of [byId], so their ids differ and every document under an
    id has that id; and, ids being unique in the repository, every document
    of a type group is one of them. *)
Definition consistent (documents : list Document) (index : DocumentIndex)
    : Prop :=
  NoDup (Document.id <$> documents)
  ∧ map_Forall (λ i d, d ∈ documents ∧ Document.id d = i)
      (DocumentIndex.byId index)
  ∧ map_Forall (λ _ ds, Forall (λ d, d ∈ documents) ds)
      (DocumentIndex.byType index).

(** The document has an outbound link of kind [ty]; one to [target]. *)
Definition declares (doc : Document) (ty : string) : Prop :=
  ∃ l, l ∈ extractLinks doc ∧ Link.type l = ty.

Definition declaresTo (doc : Document) (ty target : string) : Prop :=
  ∃ l, l ∈ extractLinks doc ∧ Link.type l = ty ∧ Link.targetId l = target.

(** Coverage in the words of the specification: an own link of the kind
    of the chain or, for verified_by, a verified_by link of a target
    document back to the source. *)
Definition coveredAsClaimed (index : DocumentIndex) (chain : TraceabilityChain)
    (sourceDoc : Document) : Prop :=
  declares sourceDoc (TraceabilityChain.link chain)
  ∨ (TraceabilityChain.link chain = "verified_by"
     ∧ ∃ targetDoc,
         targetDoc ∈ docsOfType index (TraceabilityChain.target chain)
         ∧ declaresTo targetDoc "verified_by" (Document.id sourceDoc)).

(** Coverage as [validateTraceability] decides it: for a verified_by chain
    a validated_by link serves as well as a verified_by one, in both
    directions. *)
Definition verifies (doc : Document) : Prop :=
  declares doc "verified_by" ∨ declares doc "validated_by".

Definition verifiesDoc (doc : Document) (target : string) : Prop :=
  declaresTo doc "verified_by" target ∨ declaresTo doc "validated_by" target.

Definition covered (index : DocumentIndex) (chain : TraceabilityChain)
    (sourceDoc : Document) : Prop :=
  if decide (TraceabilityChain.link chain = "verified_by")
  then verifies sourceDoc
       ∨ ∃ targetDoc,
           targetDoc ∈ docsOfType index (TraceabilityChain.target chain)
           ∧ verifiesDoc targetDoc (Document.id sourceDoc)
  else declares sourceDoc (TraceabilityChain.link chain).

(** The test of the loop of [checkSource] as one boolean. *)
Definition isCovered (index : DocumentIndex) (docLinks : gmap string (list Link))
    (chain : TraceabilityChain) (sourceDoc : Document) : bool :=
  hasRequiredLink chain (linksFor docLinks (Document.id sourceDoc))
  || (String.eqb (TraceabilityChain.link chain) "verified_by"
      && hasCoveringTarget index docLinks chain sourceDoc).

(** The nearest integer to 100 c / t for counts c and t > 0, the upper one
    at a tie: what rounding the exact quotient gives. *)
Definition exactPercent (c t : Z) : Z := ((200 * c + t) / (2 * t))%Z.

End TraceabilitySpec.

(** ** Hazard chains and coverage entries *)

Module ReportSpec.
Import Js Types Parser Traceability TraceabilitySpec.
Local Open Scope string_scope.

(** The warning and the gap entry of a hazard that leads nowhere, of a
    situation without harm. *)
Definition isHazardFinding (filePath documentId gapType : string)
    (w : ValidationWarning) (g : GapEntry) : Prop :=
  ValidationWarning.file w = filePath
  ∧ ValidationWarning.rule w = "traceability/hazard-chain"
  ∧ ValidationWarning.severity w = warning
  ∧ GapEntry.documentId g = documentId
  ∧ GapEntry.gapType g = gapType.

(** The first outbound link of a kind that a document declares. *)
Definition firstLink (ty : string) (doc : Document) : option Link :=
  find (hasType ty) (extractLinks doc).

(** What the evaluation of the hazard chain of a risk document finds.  The
    chain goes from the first analyzes link of the risk to the hazard it
    names, and from the first leads_to link of that hazard to the
    situation it names.  A hazard without leads_to link gives one warning
    and one gap entry, a situation without results_in link gives one
    warning and one gap entry, and everything else gives nothing: a risk
    without analyzes link, a first analyzes link or a first leads_to link
    that names no document of the index, a situation that has a
    results_in link. *)
Inductive chainFinding (index : DocumentIndex) (risk : Document)
    : list (ValidationWarning * GapEntry) → Prop :=
| no_hazard :
    ¬ declares risk "analyzes" → chainFinding index risk []
| hazard_unresolved analyzes :
    firstLink "analyzes" risk = Some analyzes →
    DocumentIndex.byId index !! Link.targetId analyzes = None →
    chainFinding index risk []
| hazard_no_situation analyzes hazardDoc w g :
    firstLink "analyzes" risk = Some analyzes →
    DocumentIndex.byId index !! Link.targetId analyzes = Some hazardDoc →
    ¬ declares hazardDoc "leads_to" →
    isHazardFinding (Document.filePath hazardDoc) (Link.targetId analyzes)
      "hazard_no_situation" w g →
    chainFinding index risk [(w, g)]
| situation_unresolved analyzes hazardDoc leadsTo :
    firstLink "analyzes" risk = Some analyzes →
    DocumentIndex.byId index !! Link.targetId analyzes = Some hazardDoc →
    firstLink "leads_to" hazardDoc = Some leadsTo →
    DocumentIndex.byId index !! Link.targetId leadsTo = None →
    chainFinding index risk []
| situation_no_harm analyzes hazardDoc leadsTo situationDoc w g :
    firstLink "analyzes" risk = Some analyzes →
    DocumentIndex.byId index !! Link.targetId analyzes = Some hazardDoc →
    firstLink "leads_to" hazardDoc = Some leadsTo →
    DocumentIndex.byId index !! Link.targetId leadsTo = Some situationDoc →
    ¬ declares situationDoc "results_in" →
    isHazardFinding (Document.filePath situationDoc) (Link.targetId leadsTo)
      "situation_no_harm" w g →
    chainFinding index risk [(w, g)]
| chain_complete analyzes hazardDoc leadsTo situationDoc :
    firstLink "analyzes" risk = Some analyzes →
    DocumentIndex.byId index !! Link.targetId analyzes = Some hazardDoc →
    firstLink "leads_to" hazardDoc = Some leadsTo →
    DocumentIndex.byId index !! Link.targetId leadsTo = Some situationDoc →
    declares situationDoc "results_in" →
    chainFinding index risk [].

(** The coverage entry of a chain. *)
Definition coveredCountOf (index : DocumentIndex)
    (docLinks : gmap string (list Link)) (chain : TraceabilityChain) : Z :=
  Z.of_nat
    (length
       (filter (λ doc, isCovered index docLinks chain doc = true)
          (docsOfType index (TraceabilityChain.source chain)))).

Definition totalSourcesOf (index : DocumentIndex) (chain : TraceabilityChain)
    : Z :=
  Z.of_nat (length (docsOfType index (TraceabilityChain.source chain))).

End ReportSpec.

(** ** Link extraction *)

Module LinkSpec.
Import Js Types Parser.

(** atoms that take a character *)
Definition takesChar (a : atom) : bool :=
  match a with
  | Lit _ | Class _ | Plus _ => true
  | _ => false
  end.

Fixpoint minLen (r : list atom) : nat :=
  match r with
  | [] => 0
  | a :: r' => (if takesChar a then 1 else 0) + minLen r'
  end.

Fixpoint litCount (c : ascii) (r : list atom) : nat :=
  match r with
  | [] => 0
  | Lit c' :: r' => (if Ascii.eqb c' c then 1 else 0) + litCount c r'
  | _ :: r' => litCount c r'
  end.

Fixpoint occ (c : ascii) (s : list ascii) : nat :=
  match s with
  | [] => 0
  | a :: s' => (if Ascii.eqb a c then 1 else 0) + occ c s'
  end.

(** A character that only matches itself, with or without the [i] flag. *)
Definition caseless (c : ascii) : Prop :=
  ∀ ic a, litEq ic c a = true → a = c.

(** A class never counts more bytes than the text has. *)
Definition sane (t : charClass) : Prop := ∀ s, (t s ≤ length s)%nat.

Definition saneAtom (a : atom) : Prop :=
  match a with
  | Class t | Star t | Plus t => sane t
  | _ => True
  end.

(** Every match of the pattern takes a character at least, and none goes
    past the end of the text. *)
Definition takesACharacter (re : RegExp) : Prop :=
  (1 ≤ minLen (atoms re))%nat ∧ Forall saneAtom (atoms re).

(** A row of characters of a class, in front of [rest]. *)
Inductive rowOf (t : charClass) : list ascii → list ascii → Prop :=
| rowOf_nil rest : rowOf t [] rest
| rowOf_cons c row rest :
    c ≠ [] → t (c ++ row ++ rest) = length c → rowOf t row rest →
    rowOf t (c ++ row) rest.

(** The same as a test, for a text at hand. *)
Fixpoint isRowOf (t : charClass) (rounds : nat) (row rest : list ascii) : bool :=
  match row, rounds with
  | [], _ => true
  | _ :: _, O => false
  | _ :: _, S rounds' =>
      let len := t (row ++ rest) in
      (0 <? len)%nat && (len <=? length row)%nat
      && isRowOf t rounds' (drop len row) rest
  end.

(** [rest] does not go on with the class. *)
Definition stops (t : charClass) (rest : list ascii) : Prop := t rest = 0%nat.

(** White space: a row of the characters that [\s] matches. *)
Inductive whiteSpace : list ascii → Prop :=
| whiteSpace_nil : whiteSpace []
| whiteSpace_cons c ws :
    c ∈ whiteSpaceChars → whiteSpace ws → whiteSpace (c ++ ws).

(** The text of a marker. *)
Definition markerOf (label : string) : string := "**" +:+ label +:+ ":**".

Ltac list_shape :=
  repeat (rewrite <- app_assoc || rewrite <- app_comm_cons); cbn [app];
  reflexivity.

Create Rewrite HintDb text_length.

Ltac list_length := autorewrite with text_length; cbn [length]; lia.

Definition bracketedId (i : list ascii) : list ascii := "["%char :: i ++ ["]"%char].

(** An enumeration of bracketed ids, each after its separator. *)
Fixpoint enumeration (items : list (list ascii * list ascii)) (tail : list ascii)
    : list ascii :=
  match items with
  | [] => tail
  | (sep, i) :: items' => sep ++ bracketedId i ++ enumeration items' tail
  end.

Definition noOpen (s : list ascii) : Prop := Forall (λ a, a ≠ "["%char) s.

Definition plainId (i : list ascii) : Prop :=
  i ≠ [] ∧ Forall (λ a, isBracket a = false) i.

Definition wellFormedItem (it : list ascii * list ascii) : Prop :=
  noOpen it.1 ∧ plainId it.2.

Definition bracketedMarkers : list (string * string) :=
  [ ("Derives from", "derives_from"); ("Implements", "implements");
    ("Mitigates", "mitigates"); ("Analyzes", "analyzes");
    ("Leads to", "leads_to"); ("Results in", "results_in") ]%string.

Definition restOfLineMarkers : list (string * string) :=
  [ ("Verifies", "verified_by"); ("Validates", "validated_by") ]%string.

Definition bodyText (doc : Document) : list ascii :=
  list_ascii_of_string (Document.body doc).

Definition markerText (label : string) : list ascii :=
  list_ascii_of_string (markerOf label).

(** The marker in any mix of capitals and small letters, which the [i]
    flag takes for the marker. *)
Definition spells (marker : list ascii) (label : string) : Prop :=
  map upperAscii marker = map upperAscii (markerText label).

(** The text starts with the marker of [label], however spelled. *)
Fixpoint startsWithMarker (marker s : list ascii) : bool :=
  match marker, s with
  | [], _ => true
  | c :: marker', a :: s' => litEq true c a && startsWithMarker marker' s'
  | _ :: _, [] => false
  end.

(** The marker of [label] starts nowhere in [pre], the text going on with
    [s]. *)
Definition markerFree (label : string) (pre s : list ascii) : bool :=
  forallb (λ j, negb (startsWithMarker (markerText label) (drop j (pre ++ s))))
    (seq 0 (length pre)).

(** The links that the loop of one pattern pushes for a text when the
    [lastIndex] of the pattern is at [lastIndex], and when it is at 0 as in
    [extractLinks]. *)
Definition linksFrom (q : RegExp * string) (text : list ascii) (lastIndex : nat)
    : list Link :=
  match whileExec (S (length text)) q.1 q.2 text lastIndex [] with
  | Some (links, _) => links
  | None => []
  end.

Definition linksVia (q : RegExp * string) (text : list ascii) : list Link :=
  linksFrom q text 0.

(** What follows the white space is neither white space nor an opening
    bracket. *)
Definition noBracketNext (rest : list ascii) : Prop :=
  stops whiteSpaceAt rest ∧ head rest ≠ Some "["%char.

End LinkSpec.

(** ** Maps that keep the order of their keys *)

Module JsMap.

(** A [Map] with string keys as the list of its entries, in the order in
    which the keys were first set: the order in which [values()] and
    [for (... of map)] go through it. *)
Definition JsMap (V : Type) : Type := list (string * V).

(** [m.get(k)] *)
Fixpoint mapGet {V} (m : JsMap V) (k : string) : option V :=
  match m with
  | [] => None
  | (k', v) :: m' => if String.eqb k' k then Some v else mapGet m' k
  end.

(** [m.set(k, v)]: a known key keeps its place and takes the new value, a
    new key goes to the end. *)
Fixpoint mapSet {V} (m : JsMap V) (k : string) (v : V) : JsMap V :=
  match m with
  | [] => [(k, v)]
  | (k', v') :: m' =>
      if String.eqb k' k then (k', v) :: m' else (k', v') :: mapSet m' k v
  end.

(** [Array.from(m.values())] *)
Definition mapValues {V} (m : JsMap V) : list V := map snd m.

Definition mapKeys {V} (m : JsMap V) : list string := map fst m.

End JsMap.

(** ** index.ts: what [run] hands to the validators *)

Module Main.
Import Js Types Parser JsMap.
Local Open Scope string_scope.

(** [index.byId] as [buildDocumentIndex] fills it, with the order of its
    keys, which [DocumentIndex.byId] leaves out. *)
Definition byIdEntries {host : JsHost} (markdownFiles : list MarkdownFile)
    : JsMap Document :=
  foldl
    (λ byId f,
       let '(filePath, data, content) := f in
       match parseDocument filePath data content with
       | None => byId
       | Some doc => mapSet byId (Document.id doc) doc
       end)
    [] markdownFiles.

(** [const allDocs = Array.from(index.byId.values())] *)
Definition allDocs {host : JsHost} (markdownFiles : list MarkdownFile)
    : list Document :=
  mapValues (byIdEntries markdownFiles).

(** The filter of [runPrMode] on the warnings that go into the comment:
    [changedFiles.includes(w.file) || w.rule.startsWith('traceability/')
     || w.rule === 'frontmatter/duplicate-id']. *)
Definition shownInComment (changedFiles : list string) (w : ValidationWarning)
    : result bool :=
  if bool_decide (ValidationWarning.file w ∈ changedFiles) then Ok true
  else
    match ValidationWarning.rule w with
    | Text rule =>
        Ok (String.prefix "traceability/" rule
            || String.eqb rule "frontmatter/duplicate-id")
    | Inherited _ => Err TypeError
    end.

(** [allWarnings.filter(...)]; a rule that is a member of
    [Object.prototype] has no [startsWith], and calling it throws. *)
Fixpoint commentWarnings (changedFiles : list string)
    (allWarnings : list ValidationWarning) : result (list ValidationWarning) :=
  match allWarnings with
  | [] => Ok []
  | w :: rest =>
      shown ← shownInComment changedFiles w;
      kept ← commentWarnings changedFiles rest;
      Ok (if shown : bool then w :: kept else kept)
  end.

(** [changedFiles.map((f) => index.byPath.get(f)).filter((d) => d !== undefined)] *)
Definition changedDocs (index : DocumentIndex) (changedFiles : list string)
    : list Document :=
  omap (λ f, DocumentIndex.byPath index !! f) changedFiles.

End Main.

(** ** The document store *)

Module IndexSpec.
Import Js Types Parser.

(** The documents of the files that have an id, in the order of the
    files. *)
Definition parsedDocs {host : JsHost} (markdownFiles : list MarkdownFile)
    : list Document :=
  omap (λ f : MarkdownFile, parseDocument f.1.1 f.1.2 f.2) markdownFiles.

(** The first occurrences of a list, in order. *)
Definition firstOccurrences (l : list string) : list string :=
  reverse (remove_dups (reverse l)).

End IndexSpec.

(** ** validators/links.ts *)

Module Links.
Import Js Types Parser.
Local Open Scope string_scope.

Definition brokenReference (doc : Document) (link : Link) : ValidationWarning :=
  {| ValidationWarning.file := Document.filePath doc;
     ValidationWarning.rule := "links/broken-reference";
     ValidationWarning.message :=
       "Broken link: references " +:+ dquote +:+ Link.targetId link +:+ dquote
       +:+ " (" +:+ Link.type link
       +:+ ") but no document with that ID exists";
     ValidationWarning.severity := warning |}.

(** The body of [for (const link of links)]:
    [if (!index.byId.has(link.targetId)) warnings.push(...)]. *)
Definition checkLink (index : DocumentIndex) (doc : Document)
    (warnings : list ValidationWarning) (link : Link) : list ValidationWarning :=
  match DocumentIndex.byId index !! Link.targetId link with
  | Some _ => warnings
  | None => (warnings ++ [brokenReference doc link])%list
  end.

Definition validateLinks (documents : list Document) (index : DocumentIndex)
    : list ValidationWarning :=
  foldl
    (λ warnings doc,
       let links := extractLinks doc in
       foldl (checkLink index doc) warnings links)
    [] documents.

End Links.

(** ** validators/frontmatter.ts *)

Module Frontmatter.
Import Js Types JsMap.
Local Open Scope string_scope.

(** What every front matter object has from its prototype: the names for
    which [name in {}] holds (constructor, toString, ...).  Their values
    are functions and objects, never [undefined]. *)
Class JsObject := {
  inherited : string → bool
}.

(** [!(field in doc.frontmatter) || doc.frontmatter[field] === undefined].
    The values of the keys of a front matter are YAML values, which are not
    [undefined]. *)
Definition isMissing {object : JsObject} (frontmatter : gmap string fmValue)
    (field : string) : bool :=
  negb (bool_decide (is_Some (frontmatter !! field)) || inherited field).

(** The body of the first loop: [existing] is the array of the map, or a
    new one, with the path pushed. *)
Definition countId (idCounts : JsMap (list string)) (doc : Document)
    : JsMap (list string) :=
  let existing := default [] (mapGet idCounts (Document.id doc)) in
  mapSet idCounts (Document.id doc) (existing ++ [Document.filePath doc])%list.

Definition duplicateId (id : string) (files : list string) (file : string)
    : ValidationWarning :=
  {| ValidationWarning.file := file;
     ValidationWarning.rule := "frontmatter/duplicate-id";
     ValidationWarning.message :=
       "Duplicate document ID " +:+ dquote +:+ id +:+ dquote
       +:+ " also found in: "
       +:+ join ", " (List.filter (λ f, negb (String.eqb f file)) files);
     ValidationWarning.severity := warning |}.

(** The body of [for (const [id, files] of idCounts)]. *)
Definition reportDuplicates (warnings : list ValidationWarning)
    (entry : string * list string) : list ValidationWarning :=
  let '(id, files) := entry in
  if (1 <? length files)%nat
  then foldl (λ warnings file, (warnings ++ [duplicateId id files file])%list)
         warnings files
  else warnings.

Definition missingRequired (doc : Document) (field : string) : ValidationWarning :=
  {| ValidationWarning.file := Document.filePath doc;
     ValidationWarning.rule := "frontmatter/required-fields";
     ValidationWarning.message :=
       "Missing required frontmatter field: " +:+ dquote +:+ field +:+ dquote;
     ValidationWarning.severity := warning |}.

Definition missingRecommended (doc : Document) (field : string)
    : ValidationWarning :=
  {| ValidationWarning.file := Document.filePath doc;
     ValidationWarning.rule := "frontmatter/optional-fields";
     ValidationWarning.message :=
       "Missing recommended frontmatter field: " +:+ dquote +:+ field +:+ dquote;
     ValidationWarning.severity := warning |}.

(** The body of the last loop over the documents: the required fields,
    then the recommended ones. *)
Definition checkFields {object : JsObject} (config : Config)
    (warnings : list ValidationWarning) (doc : Document)
    : list ValidationWarning :=
  let warnings :=
    foldl
      (λ warnings field,
         if isMissing (Document.frontmatter doc) field
         then (warnings ++ [missingRequired doc field])%list
         else warnings)
      warnings (Config.required config) in
  foldl
    (λ warnings field,
       if isMissing (Document.frontmatter doc) field
       then (warnings ++ [missingRecommended doc field])%list
       else warnings)
    warnings (Config.recommended config).

Definition validateFrontmatter {object : JsObject} (documents : list Document)
    (index : DocumentIndex) (config : Config) : list ValidationWarning :=
  let idCounts := foldl countId [] documents in
  let warnings := foldl reportDuplicates [] idCounts in
  foldl (checkFields config) warnings documents.

End Frontmatter.

(** ** The validators, as lists *)

Module ValidatorSpec.
Import Js Types Parser JsMap Links Frontmatter.
Local Open Scope string_scope.

(** The links of a document whose target the index does not know. *)
Definition brokenLinks (index : DocumentIndex) (doc : Document) : list Link :=
  filter (λ l, DocumentIndex.byId index !! Link.targetId l = None)
    (extractLinks doc).

(** The paths of the documents with a given id, in order. *)
Definition filesOf (documents : list Document) (id : string) : list string :=
  Document.filePath <$> filter (λ d, Document.id d = id) documents.

(** The warnings about an id: one per file when two or more have it. *)
Definition duplicatesOf (documents : list Document) (id : string)
    : list ValidationWarning :=
  let files := filesOf documents id in
  if (1 <? length files)%nat then duplicateId id files <$> files else [].

(** The warnings about the fields of a document. *)
Definition fieldsOf {object : JsObject} (config : Config) (doc : Document)
    : list ValidationWarning :=
  (missingRequired doc
     <$> filter (λ field, isMissing (Document.frontmatter doc) field = true)
           (Config.required config))
  ++ (missingRecommended doc
        <$> filter (λ field, isMissing (Document.frontmatter doc) field = true)
              (Config.recommended config)).

Definition isDuplicateId (w : ValidationWarning) : bool :=
  bool_decide (ValidationWarning.rule w = Text "frontmatter/duplicate-id").

End ValidatorSpec.

(** ** Warnings, gap entries and coverage entries *)

Module FindingSpec.
Import Js Types Parser Traceability.
Local Open Scope string_scope.

(** A rule of the traceability engine: a text that starts with
    traceability/. *)
Definition isTraceabilityRule (rule : tableValue) : bool :=
  match rule with
  | Text rule => String.prefix "traceability/" rule
  | Inherited _ => false
  end.

(** A warning of the traceability engine and the gap entry pushed with
    it: the rule is a traceability rule or, for a chain whose link is named
    like a member of [Object.prototype], that member. *)
Definition paired (chains : list TraceabilityChain) (w : ValidationWarning)
    (g : GapEntry) : Prop :=
  (isTraceabilityRule (ValidationWarning.rule w) = true
   ∨ ∃ chain, chain ∈ chains
       ∧ TraceabilityChain.link chain ∈ objectPrototype
       ∧ ValidationWarning.rule w = Inherited (TraceabilityChain.link chain))
  ∧ ValidationWarning.severity w = warning
  ∧ GapEntry.severity g = warning.

Definition isHazardRule (w : ValidationWarning) : bool :=
  bool_decide (ValidationWarning.rule w = Text hazardRule).

(** The warnings about missing links: all but those of the hazard chains. *)
Definition missingLinkWarnings (warnings : list ValidationWarning)
    : list ValidationWarning :=
  List.filter (λ w, negb (isHazardRule w)) warnings.

(** The source documents that an entry counts as not covered. *)
Definition uncovered (entry : TraceabilityCoverage) : Z :=
  (TraceabilityCoverage.totalSources entry
   - TraceabilityCoverage.coveredSources entry)%Z.

Definition sumUncovered (coverage : list TraceabilityCoverage) : Z :=
  foldr (λ entry n, (uncovered entry + n)%Z) 0%Z coverage.

(** The entry of a chain: its types, the size of the group of its source
    type, and a count of covered documents within it. *)
Definition entryOfChain (index : DocumentIndex) (chain : TraceabilityChain)
    (entry : TraceabilityCoverage) : Prop :=
  TraceabilityCoverage.sourceType entry = TraceabilityChain.source chain
  ∧ TraceabilityCoverage.targetType entry = TraceabilityChain.target chain
  ∧ TraceabilityCoverage.totalSources entry
    = Z.of_nat
        (length (default [] (DocumentIndex.byType index
                             !! Text (TraceabilityChain.source chain))))
  ∧ (0 ≤ TraceabilityCoverage.coveredSources entry
     ≤ TraceabilityCoverage.totalSources entry)%Z.

End FindingSpec.

(** ** More fixtures *)

Module Fixtures.
Import Js Types Parser Frontmatter.
Local Open Scope string_scope.

(** An object with [Object.prototype] behind it. *)
Definition plainObject : JsObject :=
  {| inherited := λ name, bool_decide (name ∈ objectPrototype) |}.

(** Three files, the first and the last with the same id. *)
Definition requirementFile (filePath id title : string) : MarkdownFile :=
  (filePath,
   list_to_map [ ("id", FmStr id); ("title", FmStr title);
                 ("status", FmStr "draft") ],
   "# " +:+ title).

Definition repeatedFiles : list MarkdownFile :=
  [ requirementFile "software-requirements/SRS-001.md" "SRS-001" "Detection";
    requirementFile "software-requirements/SRS-002.md" "SRS-002" "Alerting";
    requirementFile "software-requirements/old/SRS-001.md" "SRS-001" "Detection, old" ].

Definition repeatedDocs : list Document :=
  Eval vm_compute in
    omap (λ f : MarkdownFile, @parseDocument Samples.asciiHost f.1.1 f.1.2 f.2)
      repeatedFiles.

Definition srs001 : Document :=
  Eval vm_compute in default Samples.blank (repeatedDocs !! 0%nat).
Definition srs002 : Document :=
  Eval vm_compute in default Samples.blank (repeatedDocs !! 1%nat).
Definition srs001Old : Document :=
  Eval vm_compute in default Samples.blank (repeatedDocs !! 2%nat).

(** A configuration that requires the id alone. *)
Definition idOnly : Config :=
  {| Config.type := device;
     Config.docsPath := "docs/";
     Config.required := ["id"];
     Config.recommended := [];
     Config.chains := [];
     Config.severityLevels := 5;
     Config.probabilityLevels := 5;
     Config.logo := None;
     Config.renderMermaid := true |}.

End Fixtures.

(** ** The order of the tiers *)

Module TierSpec.
Import Js Types RiskMatrixBuilder.

(** The tiers from the mildest to the gravest. *)
Definition rank (tier : Acceptability) : nat :=
  match tier with
  | Types.acceptable => 0
  | Types.review_required => 1
  | Types.unacceptable => 2
  end.

(** The rank of what [getAcceptability] answers for two integers; 3
    stands for a throw and for [undefined]. *)
Definition rankAt (probability severity : Z) : nat :=
  match getAcceptability (ofZ probability) (ofZ severity) with
  | Ok (Some tier) => rank tier
  | _ => 3
  end.

End TierSpec.

(** ** reports/changelog.ts *)

Module Changelog.
Import Js Types.
Local Open Scope string_scope.

(** [execSync(command, { cwd, encoding: 'utf-8' })]: what the command
    prints, or [None] when it fails and [execSync] throws. *)
Class Shell := {
  execSync : string → string → option string
}.

Module ChangelogEntry.
Record t := mk {
  commitSha : string;
  commitMessage : string;
  documentIds : list string
}.
End ChangelogEntry.
Abbreviation ChangelogEntry := ChangelogEntry.t.

(** [s.trim()] on a string. *)
Definition trimmed (s : string) : string :=
  string_of_list_ascii (trim (list_ascii_of_string s)).

Definition newline : ascii := ascii_of_nat 10.

(** [s.split('\n').filter(Boolean)]: the lines that are not empty. *)
Definition nonEmptyLines (s : string) : list string :=
  List.filter (λ line, negb (String.eqb line EmptyString)) (splitOn newline s).

Definition gitLog (baseRef headRef : string) : string :=
  "git log --format=" +:+ dquote +:+ "%H|%s" +:+ dquote +:+ " " +:+ baseRef
  +:+ ".." +:+ headRef +:+ " -- " +:+ dquote +:+ "*.md" +:+ dquote.

Definition gitDiffTree (sha : string) : string :=
  "git diff-tree --no-commit-id --name-only -r " +:+ sha +:+ " -- "
  +:+ dquote +:+ "*.md" +:+ dquote.

(** The loop over [changedFiles]: the ids of the files that [byPath]
    knows. *)
Definition documentIdsOf (index : DocumentIndex) (changedFiles : list string)
    : list string :=
  foldl
    (λ documentIds file,
       match DocumentIndex.byPath index !! file with
       | Some doc => (documentIds ++ [Document.id doc])%list
       | None => documentIds
       end)
    [] changedFiles.

(** The body of [for (const commit of commits)].  [commit.split('|')] has
    a first part, which is [sha]; the others are joined again. *)
Definition addCommit {shell : Shell} (index : DocumentIndex) (repoRoot : string)
    (entries : list ChangelogEntry) (commit : string)
    : option (list ChangelogEntry) :=
  let parts := splitOn "|" commit in
  let sha := List.hd EmptyString parts in
  let messageParts := List.tl parts in
  let message := join "|" messageParts in
  filesOutput ← trimmed <$> execSync (gitDiffTree sha) repoRoot;
  if String.eqb filesOutput EmptyString then Some entries
  else
    let changedFiles := nonEmptyLines filesOutput in
    let documentIds := documentIdsOf index changedFiles in
    if (0 <? length documentIds)%nat
    then Some (entries
               ++ [ {| ChangelogEntry.commitSha := sha;
                       ChangelogEntry.commitMessage := message;
                       ChangelogEntry.documentIds := documentIds |} ])%list
    else Some entries.

(** The loop over the commits; a throw ends it. *)
Fixpoint forCommits {shell : Shell} (index : DocumentIndex) (repoRoot : string)
    (entries : list ChangelogEntry) (commits : list string)
    : option (list ChangelogEntry) :=
  match commits with
  | [] => Some entries
  | commit :: rest =>
      entries' ← addCommit index repoRoot entries commit;
      forCommits index repoRoot entries' rest
  end.

(** [None]: a git command failed and the exception leaves the function. *)
Definition buildChangelog {shell : Shell} (index : DocumentIndex)
    (baseRef headRef repoRoot : string) : option (list ChangelogEntry) :=
  logOutput ← trimmed <$> execSync (gitLog baseRef headRef) repoRoot;
  if String.eqb logOutput EmptyString then Some []
  else
    let commits := nonEmptyLines logOutput in
    forCommits index repoRoot [] commits.

Definition endsWith (suffix s : string) : bool :=
  String.prefix (String.rev suffix) (String.rev s).

(** [getChangedFiles]: a failing command gives the empty list. *)
Definition getChangedFiles {shell : Shell}
    (baseRef headRef docsPath repoRoot : string) : list string :=
  match execSync ("git diff --name-only " +:+ baseRef +:+ "..." +:+ headRef
                  +:+ " -- " +:+ dquote +:+ docsPath +:+ dquote) repoRoot with
  | Some out =>
      let output := trimmed out in
      if String.eqb output EmptyString then []
      else List.filter (endsWith ".md") (splitOn newline output)
  | None => []
  end.

(** [getPreviousTag]: [None] is the [null] of the source. *)
Definition getPreviousTag {shell : Shell} (repoRoot : string) : option string :=
  match execSync "git describe --tags --abbrev=0 HEAD^" repoRoot with
  | Some out =>
      let tag := trimmed out in
      if String.eqb tag EmptyString then None else Some tag
  | None => None
  end.

End Changelog.

(** ** The changelog, commit by commit *)

Module ChangelogSpec.
Import Js Types Changelog.
Local Open Scope string_scope.

(** The files that git names for a commit, when it answers. *)
Definition filesOfCommit {shell : Shell} (repoRoot sha : string)
    : option (list string) :=
  (λ out, nonEmptyLines (trimmed out)) <$> execSync (gitDiffTree sha) repoRoot.

(** The ids of the documents that [byPath] holds under these files. *)
Definition idsAt (index : DocumentIndex) (files : list string) : list string :=
  omap (λ file, Document.id <$> DocumentIndex.byPath index !! file) files.

(** The text before the first bar and the text after it. *)
Definition beforeBar (commit : string) : string :=
  List.hd EmptyString (splitOn "|" commit).

Definition afterBar (commit : string) : string :=
  join "|" (List.tl (splitOn "|" commit)).

(** The entry of a log line: none when its files hold no document. *)
Definition entryOfCommit (index : DocumentIndex) (commit : string)
    (files : list string) : option ChangelogEntry :=
  match idsAt index files with
  | [] => None
  | ids => Some {| ChangelogEntry.commitSha := beforeBar commit;
                   ChangelogEntry.commitMessage := afterBar commit;
                   ChangelogEntry.documentIds := ids |}
  end.

End ChangelogSpec.

(** ** A repository with two commits *)

Module GitFixtures.
Import Js Types Changelog.
Local Open Scope string_scope.

(** The log holds a commit on SRS-001 and notes.md, whose subject has a
    bar, and a commit on the README. *)
Definition git : Shell :=
  {| execSync := λ command cwd,
       if String.eqb command (gitLog "v1.0.0" "HEAD")
       then Some ("3f2a91c|Fix | in parser" +:+ Samples.nl
                  +:+ "77b0e12|Update README" +:+ Samples.nl)
       else if String.eqb command (gitDiffTree "3f2a91c")
       then Some ("software-requirements/SRS-001.md" +:+ Samples.nl
                  +:+ "notes.md" +:+ Samples.nl)
       else if String.eqb command (gitDiffTree "77b0e12")
       then Some ("README.md" +:+ Samples.nl)
       else None |}.

Definition fixCommit : ChangelogEntry :=
  {| ChangelogEntry.commitSha := "3f2a91c";
     ChangelogEntry.commitMessage := "Fix | in parser";
     ChangelogEntry.documentIds := ["SRS-001"] |}.

End GitFixtures.

(** ** reports/risk-matrix.ts: the grids as markdown *)

Module RiskMatrixMarkdown.
Import Js Types.
Local Open Scope string_scope.

Definition probLabels : list string :=
  ["Remote"; "Unlikely"; "Possible"; "Likely"; "Frequent"].

Definition sevLabels : list string :=
  ["Negligible"; "Minor"; "Moderate"; "Major"; "Catastrophic"].

Definition newline : string := String (ascii_of_nat 10) EmptyString.

(** [String(count)] for an integer: its decimal numeral (JavaScript
    writes the integers below 10^21 so). *)
Definition String_ (count : Z) : string := pretty count.

(** [count > 0 ? String(count) : '-'] *)
Definition renderCount (count : Z) : string :=
  if (0 <? count)%Z then String_ count else "-".

(** [${probLabels[p]}]: an index past the labels prints as undefined. *)
Definition probLabel (p : nat) : string := default "undefined" (probLabels !! p).

(** The line of row [p]. *)
Definition renderRow (p : nat) (row : list Z) : string :=
  "| " +:+ probLabel p +:+ " | " +:+ join " | " (map renderCount row) +:+ " |".

(** [for (let p = grid.length - 1; p >= 0; p--)], [n] rows being left;
    reading a row that is not there throws. *)
Fixpoint renderRows (grid : list (list Z)) (n : nat) (lines : list string)
    : result (list string) :=
  match n with
  | O => Ok lines
  | S p =>
      match grid !! p with
      | Some row => renderRows grid p (lines ++ [renderRow p row])
      | None => Err TypeError
      end
  end.

Definition headerLine : string := "| P \ S | " +:+ join " | " sevLabels +:+ " |".

Definition separatorLine : string :=
  "|-------|" +:+ join "|" (map (λ _, "---") sevLabels) +:+ "|".

Definition renderGrid (grid : list (list Z)) : result string :=
  lines ← renderRows grid (length grid) [headerLine; separatorLine];
  Ok (join newline lines).

End RiskMatrixMarkdown.

(** ** The layout of a rendered grid *)

Module LayoutSpec.
Import Js Types RiskMatrixMarkdown.
Local Open Scope string_scope.

(** How often a character occurs in a string. *)
Definition count (c : ascii) (s : string) : nat :=
  LinkSpec.occ c (list_ascii_of_string s).

(** The lines of a text. *)
Definition linesOf (s : string) : list string := splitOn (ascii_of_nat 10) s.

(** The lines of the rows, the last row first. *)
Definition rowLines (grid : list (list Z)) : list string :=
  reverse (imap renderRow grid).

End LayoutSpec.

(** ** The findings of the hazard chains, hazard by hazard *)

Module HazardSpec.
Import Js Types Parser Traceability.
Local Open Scope string_scope.

(** The hazard that a risk document analyzes: the target of its first
    analyzes link, as [docLinks] has it. *)
Definition analyzedHazard (docLinks : gmap string (list Link)) (risk : Document)
    : option string :=
  Link.targetId <$> find (hasType "analyzes") (linksFor docLinks (Document.id risk)).

(** What is wrong with the chain of a hazard: nothing ([None]), or the
    warning and the gap entry about the missing step. *)
Definition findingOfHazard (index : DocumentIndex)
    (docLinks : gmap string (list Link)) (hazardId : string)
    : option (ValidationWarning * GapEntry) :=
  hazardDoc ← DocumentIndex.byId index !! hazardId;
  match find (hasType "leads_to") (linksFor docLinks hazardId) with
  | None =>
      Some ({| ValidationWarning.file := Document.filePath hazardDoc;
               ValidationWarning.rule := hazardRule;
               ValidationWarning.message :=
                 "Hazard " +:+ hazardId +:+ " has no " +:+ dquote
                 +:+ "leads_to" +:+ dquote +:+ " hazardous situation";
               ValidationWarning.severity := warning |},
            {| GapEntry.documentId := hazardId;
               GapEntry.gapType := "hazard_no_situation";
               GapEntry.message := "Hazard has no leads_to link";
               GapEntry.severity := warning |})
  | Some leadsTo =>
      situationDoc ← DocumentIndex.byId index !! Link.targetId leadsTo;
      match find (hasType "results_in")
              (linksFor docLinks (Link.targetId leadsTo)) with
      | Some _ => None
      | None =>
          Some ({| ValidationWarning.file := Document.filePath situationDoc;
                   ValidationWarning.rule := hazardRule;
                   ValidationWarning.message :=
                     "Hazardous situation " +:+ Link.targetId leadsTo
                     +:+ " has no " +:+ dquote +:+ "results_in" +:+ dquote
                     +:+ " harm";
                   ValidationWarning.severity := warning |},
                {| GapEntry.documentId := Link.targetId leadsTo;
                   GapEntry.gapType := "situation_no_harm";
                   GapEntry.message := "Situation has no results_in link";
                   GapEntry.severity := warning |})
      end
  end.

(** The findings of the risk documents, one per risk document whose
    hazard has one. *)
Definition hazardFindings (index : DocumentIndex)
    (docLinks : gmap string (list Link)) (risks : list Document)
    : list (ValidationWarning * GapEntry) :=
  omap (λ risk, analyzedHazard docLinks risk ≫= findingOfHazard index docLinks)
    risks.

End HazardSpec.

(** ** Two risks on one hazard *)

Module HazardFixtures.
Import Js Types Parser Traceability Main HazardSpec.
Local Open Scope string_scope.

Definition riskOn (n hazard : string) : MarkdownFile :=
  ("risk/RISK-" +:+ n +:+ ".md",
   list_to_map [("id", FmStr ("RISK-" +:+ n))],
   "**Analyzes:** [" +:+ hazard +:+ "](../hazards/" +:+ hazard +:+ ".md)").

(** The hazard has no leads_to link. *)
Definition files : list MarkdownFile :=
  [ riskOn "001" "HAZ-001"; riskOn "002" "HAZ-001";
    ("hazards/HAZ-001.md", list_to_map [("id", FmStr "HAZ-001")], "# Hazard") ].

Definition docs : list Document :=
  Eval vm_compute in
    omap (λ f : MarkdownFile, @parseDocument Samples.asciiHost f.1.1 f.1.2 f.2)
      files.

Definition index : DocumentIndex :=
  Eval vm_compute in @buildDocumentIndex Samples.asciiHost files.

Definition docLinks : gmap string (list Link) := buildDocLinks docs.

Definition risk001 : Document :=
  Eval vm_compute in default Samples.blank (docs !! 0%nat).
Definition risk002 : Document :=
  Eval vm_compute in default Samples.blank (docs !! 1%nat).

(** A risk that analyzes two hazards, the first of which is in no file. *)
Definition twoHazardFiles : list MarkdownFile :=
  [ ("risk/RISK-010.md", list_to_map [("id", FmStr "RISK-010")],
     Samples.lines [ "**Analyzes:** [HAZ-404](../hazards/HAZ-404.md)";
                     "**Analyzes:** [HAZ-001](../hazards/HAZ-001.md)" ]);
    ("hazards/HAZ-001.md", list_to_map [("id", FmStr "HAZ-001")], "# Hazard") ].

Definition twoHazardDocs : list Document :=
  Eval vm_compute in allDocs (host := Samples.asciiHost) twoHazardFiles.

Definition twoHazardIndex : DocumentIndex :=
  Eval vm_compute in @buildDocumentIndex Samples.asciiHost twoHazardFiles.

Definition risk010 : Document :=
  Eval vm_compute in default Samples.blank (twoHazardDocs !! 0%nat).
Definition hazard001 : Document :=
  Eval vm_compute in default Samples.blank (twoHazardDocs !! 1%nat).

(** A risk whose id a later file repeats: [byId] and [docLinks] hold the
    later file under that id, the group of the risks holds both. *)
Definition repeatedRiskFiles : list MarkdownFile :=
  [ riskOn "020" "HAZ-001";
    ("hazards/HAZ-001.md", list_to_map [("id", FmStr "HAZ-001")], "# Hazard");
    ("risk/old/RISK-020.md", list_to_map [("id", FmStr "RISK-020")],
     "# Superseded") ].

Definition repeatedRiskDocs : list Document :=
  Eval vm_compute in allDocs (host := Samples.asciiHost) repeatedRiskFiles.

Definition repeatedRiskIndex : DocumentIndex :=
  Eval vm_compute in @buildDocumentIndex Samples.asciiHost repeatedRiskFiles.

Definition risk020 : Document :=
  Eval vm_compute in
    default Samples.blank
      (@parseDocument Samples.asciiHost (riskOn "020" "HAZ-001").1.1
         (riskOn "020" "HAZ-001").1.2 (riskOn "020" "HAZ-001").2).

Definition noSituation : ValidationWarning * GapEntry :=
  ({| ValidationWarning.file := "hazards/HAZ-001.md";
      ValidationWarning.rule := hazardRule;
      ValidationWarning.message :=
        "Hazard HAZ-001 has no " +:+ dquote +:+ "leads_to" +:+ dquote
        +:+ " hazardous situation";
      ValidationWarning.severity := warning |},
   {| GapEntry.documentId := "HAZ-001";
      GapEntry.gapType := "hazard_no_situation";
      GapEntry.message := "Hazard has no leads_to link";
      GapEntry.severity := warning |}).

End HazardFixtures.

(** ** validators/markdown.ts *)

Module Markdown.
Import Js Types.
Local Open Scope string_scope.

(** Built-ins on the code units of a string, taken as given. *)
Class JsString := {
  (** [String.prototype.toLowerCase] *)
  toLowerCase : string → string;
  (** [s.substring(start, end)] *)
  substring : string → nat → nat → string
}.

(** [/^(#{1,6})\s+(.+)/] with a given number of hashes.  The greedy
    [{1,6}] takes as many hashes as it can, up to six, and gives them back
    one by one when the rest fails: the pattern matches as the first of
    the patterns with 6, 5, ..., 1 hashes that does.  [^] holds at the
    start of the line only.  The group of the model is the second one;
    the first has the hashes. *)
Definition headingWith (hashes : nat) : RegExp :=
  {| atoms := replicate hashes (Lit "#"%char)
              ++ [Plus whiteSpaceAt; GroupOpen; Plus dotAt; GroupClose];
     ignoreCase := false |}.

(** [line.match(/^(#{1,6})\s+(.+)/)]: [headingMatch[1].length] and
    [headingMatch[2]]. *)
Definition headingMatch (line : list ascii) : option (nat * list ascii) :=
  head
    (omap (λ hashes, (λ m, (hashes, group1 m))
                       <$> matchHere (headingWith hashes) line 0)
       [6; 5; 4; 3; 2; 1]%nat).

(** [s.includes(sub)] *)
Fixpoint includes (s sub : string) : bool :=
  String.prefix sub s
  || match s with
     | String _ s' => includes s' sub
     | EmptyString => false
     end.

(** [s.split(/\s+/)]: the pieces between the runs of white space; a run at
    the start or at the end leaves an empty piece there.  [skip] counts
    the bytes left of the character of white space that is being read. *)
Fixpoint pieces (inRun : bool) (skip : nat) (piece : list ascii)
    (s : list ascii) : list string :=
  match s with
  | [] => [string_of_list_ascii (rev piece)]
  | a :: s' =>
      match skip with
      | S k => pieces inRun k piece s'
      | O =>
          match whiteSpaceAt s with
          | O => pieces false 0 (a :: piece) s'
          | S k =>
              if inRun then pieces true k piece s'
              else string_of_list_ascii (rev piece) :: pieces true k [] s'
          end
      end
  end.

Definition splitWhiteSpace (s : string) : list string :=
  pieces false 0 [] (list_ascii_of_string s).

(** The variables of the loop over the lines. *)
Record LineLoop := {
  warnings : list ValidationWarning;
  lastHeadingLevel : nat;
  foundH1 : bool
}.

Definition titleMismatch (doc : Document) (text : string) : ValidationWarning :=
  {| ValidationWarning.file := Document.filePath doc;
     ValidationWarning.rule := "markdown/heading-structure";
     ValidationWarning.message :=
       "H1 " +:+ dquote +:+ text +:+ dquote
       +:+ " does not match frontmatter title " +:+ dquote
       +:+ Document.title doc +:+ dquote;
     ValidationWarning.severity := warning |}.

Definition skippedLevel (doc : Document) (last level : nat) : ValidationWarning :=
  {| ValidationWarning.file := Document.filePath doc;
     ValidationWarning.rule := "markdown/heading-structure";
     ValidationWarning.message :=
       "Skipped heading level: H" +:+ pretty last +:+ " → H" +:+ pretty level
       +:+ " (missing H" +:+ pretty (last + 1)%nat +:+ ")";
     ValidationWarning.severity := warning |}.

Definition noH1 (doc : Document) : ValidationWarning :=
  {| ValidationWarning.file := Document.filePath doc;
     ValidationWarning.rule := "markdown/heading-structure";
     ValidationWarning.message := "Document has no H1 heading";
     ValidationWarning.severity := warning |}.

(** The body of [for (const line of lines)]. *)
Definition checkLine {js : JsString} (doc : Document) (st : LineLoop)
    (line : string) : LineLoop :=
  match headingMatch (list_ascii_of_string line) with
  | None => st
  | Some (level, heading) =>
      let text := string_of_list_ascii (trim heading) in
      let st :=
        if (level =? 1)%nat then
          let warnings :=
            if includes (toLowerCase text)
                 (substring (toLowerCase (Document.title doc)) 0 20)
            then warnings st
            else
              let titleWords := splitWhiteSpace (toLowerCase (Document.title doc)) in
              let h1Words := splitWhiteSpace (toLowerCase text) in
              let overlap :=
                length (List.filter (λ w, bool_decide (w ∈ h1Words)) titleWords) in
              if (overlap <? Nat.min 2 (length titleWords))%nat
              then (warnings st ++ [titleMismatch doc text])%list
              else warnings st in
          {| warnings := warnings;
             lastHeadingLevel := lastHeadingLevel st;
             foundH1 := true |}
        else st in
      let warnings :=
        if (0 <? lastHeadingLevel st)%nat
           && (lastHeadingLevel st + 1 <? level)%nat
        then (warnings st ++ [skippedLevel doc (lastHeadingLevel st) level])%list
        else warnings st in
      {| warnings := warnings;
         lastHeadingLevel := level;
         foundH1 := foundH1 st |}
  end.

(** The body of [for (const doc of documents)]. *)
Definition checkDocument {js : JsString} (warnings : list ValidationWarning)
    (doc : Document) : list ValidationWarning :=
  let lines := splitOn (ascii_of_nat 10) (Document.body doc) in
  let st :=
    foldl (checkLine doc)
      {| warnings := warnings; lastHeadingLevel := 0; foundH1 := false |}
      lines in
  if negb (foundH1 st)
     && (0 <? length (trim (list_ascii_of_string (Document.body doc))))%nat
  then (Markdown.warnings st ++ [noH1 doc])%list
  else Markdown.warnings st.

Definition validateMarkdown {js : JsString} (documents : list Document)
    : list ValidationWarning :=
  foldl checkDocument [] documents.

End Markdown.

(** ** The headings of a document *)

Module HeadingSpec.
Import Js Types Markdown.
Local Open Scope string_scope.

(** The lines of the body. *)
Definition bodyLines (doc : Document) : list string :=
  splitOn (ascii_of_nat 10) (Document.body doc).

(** The levels of the heading lines, in order. *)
Definition levels (doc : Document) : list nat :=
  fst <$> omap (λ line, headingMatch (list_ascii_of_string line)) (bodyLines doc).

(** The steps from a heading to the next one that go down by more than
    one level. *)
Definition jumps (levels : list nat) : list (nat * nat) :=
  List.filter (λ step, (step.1 + 1 <? step.2)%nat) (zip levels (tail levels)).

(** The body has a character that is no white space. *)
Definition notBlank (doc : Document) : bool :=
  (0 <? length (trim (list_ascii_of_string (Document.body doc))))%nat.

Definition isSkippedLevel (w : ValidationWarning) : bool :=
  String.prefix "Skipped" (ValidationWarning.message w).

Definition isNoH1 (w : ValidationWarning) : bool :=
  String.prefix "Document" (ValidationWarning.message w).

(** A step of the loop warns: there is a heading before, and the level
    goes down by more than one. *)
Definition stepJump (step : nat * nat) : bool :=
  (0 <? step.1)%nat && (step.1 + 1 <? step.2)%nat.

End HeadingSpec.

(** ** A plain note *)

Module MarkdownFixtures.
Import Js Types Markdown.
Local Open Scope string_scope.

Definition asciiLower (s : string) : string :=
  string_of_list_ascii
    (map (λ c, if (65 <=? code c)%N && (code c <=? 90)%N
               then ascii_of_N (code c + 32) else c)
       (list_ascii_of_string s)).

(** The built-ins on ASCII strings. *)
Definition asciiString : JsString :=
  {| toLowerCase := asciiLower;
     substring := λ s i j, String.substring i (j - i) s |}.

(** A document without any heading. *)
Definition note : Document := Samples.docOf "Detection is described elsewhere.".

(** U+00A0, the no-break space. *)
Definition nbsp : string := string_of_list_ascii (utf8 [194; 160]%N).

(** A body that is one no-break space, and a body whose H1 has a no-break
    space after its hash and is followed by an H3. *)
Definition blankNote : Document := Samples.docOf nbsp.

Definition deepNote : Document :=
  Samples.docOf ("#" +:+ nbsp +:+ "Untitled" +:+ Samples.nl +:+ "### Deep").

End MarkdownFixtures.

(** ** config.ts: the configuration file *)

Module ConfigFile.
Import Js Types ConfigDefaults.
Local Open Scope string_scope.

(** The YAML document of the configuration file as the casts of
    [loadConfig] take it: every key that is present holds a value of the
    type it is cast to.  A key of a nested object is absent also when the
    object is: [parsed.frontmatter?.required] is [undefined] in both
    cases. *)
Module ParsedConfig.
Record t := mk {
  type : option RepoType;
  docsPath : option string;
  required : option (list string);
  recommended : option (list string);
  chains : option (list TraceabilityChain);
  severityLevels : option Z;
  probabilityLevels : option Z;
  logo : option string;
  renderMermaid : option bool
}.
End ParsedConfig.
Abbreviation ParsedConfig := ParsedConfig.t.

(** The file system and the YAML parser.  [readYaml path] is
    [parseYaml(readFileSync(path, 'utf-8'))]: [None] when reading or
    parsing throws, [Some None] for a document that is [null] or another
    value that [!parsed] takes for false. *)
Class ConfigFiles := {
  existsSync : string → bool;
  readYaml : string → option (option ParsedConfig)
}.

(** [None]: the exception of [readFileSync] or [parseYaml] leaves the
    function. *)
Definition loadConfig {files : ConfigFiles} (configPath : string)
    (type : RepoType) : option Config :=
  let defaults := defaultConfig type in
  if negb (existsSync configPath) then Some defaults
  else
    parsed ← readYaml configPath;
    match parsed with
    | None => Some defaults
    | Some parsed =>
        Some {| Config.type := default (Config.type defaults) (ParsedConfig.type parsed);
                Config.docsPath :=
                  default (Config.docsPath defaults) (ParsedConfig.docsPath parsed);
                Config.required :=
                  default (Config.required defaults) (ParsedConfig.required parsed);
                Config.recommended :=
                  default (Config.recommended defaults)
                    (ParsedConfig.recommended parsed);
                Config.chains :=
                  default (Config.chains defaults) (ParsedConfig.chains parsed);
                Config.severityLevels :=
                  default (Config.severityLevels defaults)
                    (ParsedConfig.severityLevels parsed);
                Config.probabilityLevels :=
                  default (Config.probabilityLevels defaults)
                    (ParsedConfig.probabilityLevels parsed);
                Config.logo := ParsedConfig.logo parsed;
                Config.renderMermaid :=
                  default (Config.renderMermaid defaults)
                    (ParsedConfig.renderMermaid parsed) |}
    end.

End ConfigFile.

(** ** index.ts: the configuration and the two device reports *)

Module Run.
Import Js Types Parser Traceability RiskMatrixBuilder ConfigFile Main.
Local Open Scope string_scope.

(** [validateTraceability(allDocs, index, config)] with the configuration
    that [loadConfig] returns for the input [type]. *)
Definition traceabilityOfRun {host : JsHost} {files : ConfigFiles}
    (markdownFiles : list MarkdownFile) (configPath : string)
    (repoType : RepoType) : option Report :=
  config ← loadConfig configPath repoType;
  Some (validateTraceability (allDocs markdownFiles)
          (buildDocumentIndex markdownFiles) config).

(** [repoType === 'device' ? buildRiskMatrix(index) : null], the grid
    size being the default 5. *)
Definition riskMatrixOfRun {host : JsHost} (markdownFiles : list MarkdownFile)
    (repoType : RepoType) : result (option RiskMatrix) :=
  match repoType with
  | device => buildRiskMatrix (buildDocumentIndex markdownFiles) 5
  | qms => Ok None
  end.

End Run.

(** ** A configuration file that names the other type *)

Module ConfigFixtures.
Import Js Types ConfigFile.
Local Open Scope string_scope.

(** [type: device] and nothing else. *)
Definition onlyType : ParsedConfig :=
  {| ParsedConfig.type := Some device;
     ParsedConfig.docsPath := None;
     ParsedConfig.required := None;
     ParsedConfig.recommended := None;
     ParsedConfig.chains := None;
     ParsedConfig.severityLevels := None;
     ParsedConfig.probabilityLevels := None;
     ParsedConfig.logo := None;
     ParsedConfig.renderMermaid := None |}.

Definition disk : ConfigFiles :=
  {| existsSync := λ path, String.eqb path ".qmsrc.yml";
     readYaml := λ path,
       if String.eqb path ".qmsrc.yml" then Some (Some onlyType) else None |}.

End ConfigFixtures.

(** ** The rows of the risk tables *)

Module RowSpec.
Import Js Types RiskMatrixBuilder.

(** The value of a digit. *)
Definition digitValue (d : ascii) : Z := Z.of_N (code d - 48).

(** A row of a table: a bar, the label, a bar and what the cell holds,
    with white space around the label and before the cell. *)
Definition rowText (ws1 : list ascii) (label : string) (ws2 ws3 cell : list ascii)
    : list ascii :=
  "|"%char :: ws1 ++ list_ascii_of_string label ++ ws2 ++ "|"%char :: ws3 ++ cell.

(** The row after its first bar and the white space that follows it. *)
Definition afterWhiteSpace (label : string) (ws2 ws3 cell : list ascii)
    : list ascii :=
  list_ascii_of_string label ++ ws2 ++ "|"%char :: ws3 ++ cell.

End RowSpec.

(** * Properties *)

Import Js Types Parser Traceability RiskMatrixBuilder RiskSpec.

(** ** The risk matrix *)

Section RiskMatrixProperties.
Context {host : JsHost}.

Lemma at_index_Some {A} (l : list A) i x :
  at_index l i = Some x → l !! Z.to_nat i = Some x.
Proof. unfold at_index. by destruct (i <? Z.of_nat (length l))%Z. Qed.

(** A count changes no dimension of a grid. *)
Lemma square_increment n g i j g' :
  increment g i j = Ok g' → square n g → square n g'.
Proof.
  unfold increment. intros Hinc [Hlen Hrows].
  destruct (arrayIndex i) as [r|]; [|done].
  destruct (at_index g r) as [row|] eqn:Hrow; [|done].
  destruct (arrayIndex j) as [c|]; [|by injection Hinc as <-].
  destruct (at_index row c) as [count|]; [|done].
  injection Hinc as <-. apply at_index_Some in Hrow. split.
  - by rewrite length_insert.
  - apply Forall_insert; [done|]. rewrite length_insert.
    by eapply Forall_lookup_1 in Hrows.
Qed.

Lemma square_addRisk n gs acc doc acc' :
  addRisk gs acc doc = Ok acc' →
  square n (inherent acc) ∧ square n (residual acc) →
  square n (inherent acc') ∧ square n (residual acc').
Proof.
  unfold addRisk. intros Hadd [Hi Hr].
  destruct (extractRiskValues doc) as [v|]; [|by injection Hadd as <-].
  destruct (if inGrid gs _ _ then _ else Ok (inherent acc)) as [g1|] eqn:E1;
    [|done].
  cbn [mbind result_bind] in Hadd.
  destruct (if inGrid gs _ _ then _ else Ok (residual acc)) as [g2|] eqn:E2;
    [|done].
  cbn [mbind result_bind] in Hadd.
  destruct (getAcceptability _ _) as [tier|]; [|done].
  cbn [mbind result_bind] in Hadd. injection Hadd as <-.
  cbn [inherent residual]. split.
  - destruct (inGrid gs _ _) in E1; [by eapply square_increment|].
    by injection E1 as <-.
  - destruct (inGrid gs _ _) in E2; [by eapply square_increment|].
    by injection E2 as <-.
Qed.

Lemma square_forRiskDocs n gs docs : ∀ acc acc',
  forRiskDocs gs acc docs = Ok acc' →
  square n (inherent acc) ∧ square n (residual acc) →
  square n (inherent acc') ∧ square n (residual acc').
Proof.
  induction docs as [|doc docs IH]; intros acc acc' Hfor Hsq.
  - by injection Hfor as <-.
  - cbn [forRiskDocs] in Hfor.
    destruct (addRisk gs acc doc) as [acc1|] eqn:E; [|done].
    cbn [mbind result_bind] in Hfor.
    eapply IH; [done|]. by eapply square_addRisk.
Qed.

Lemma square_createGrid gs : square (Z.to_nat gs) (createGrid gs).
Proof.
  unfold square, createGrid. split; [by rewrite length_replicate|].
  apply Forall_replicate. by rewrite length_replicate.
Qed.

(** What [buildRiskMatrix] returns: nothing without risk documents, else
    the matrix of the accumulator that the loop leaves. *)
Lemma buildRiskMatrix_loop index gs :
  buildRiskMatrix index gs =
  match riskDocsOf index with
  | [] => Ok None
  | docs =>
      acc ← forRiskDocs gs (initialAcc gs) docs; Ok (Some (toMatrix acc))
  end.
Proof. unfold buildRiskMatrix, riskDocsOf. by destruct (default [] _). Qed.

(** Both grids of a returned matrix are gridSize by gridSize. *)
Lemma buildRiskMatrix_square index gs m :
  buildRiskMatrix index gs = Ok (Some m) →
  square (Z.to_nat gs) (RiskMatrix.inherent m)
  ∧ square (Z.to_nat gs) (RiskMatrix.residual m).
Proof.
  rewrite buildRiskMatrix_loop.
  destruct (riskDocsOf index) as [|doc docs]; [done|].
  destruct (forRiskDocs gs (initialAcc gs) (doc :: docs)) as [acc|] eqn:E;
    [|done].
  intros [= <-]. cbn [toMatrix RiskMatrix.inherent RiskMatrix.residual].
  eapply square_forRiskDocs; [done|]. split; apply square_createGrid.
Qed.

Lemma forRiskDocs_app gs l1 l2 : ∀ acc,
  forRiskDocs gs acc (l1 ++ l2)
  = forRiskDocs gs acc l1 ≫= λ acc', forRiskDocs gs acc' l2.
Proof.
  induction l1 as [|doc l1 IH]; intros acc; [done|].
  cbn [app forRiskDocs]. destruct (addRisk gs acc doc) as [acc1|]; [|done].
  cbn [mbind result_bind]. apply IH.
Qed.

Lemma numberIfTruthy_is_Some fm k :
  is_Some (numberIfTruthy fm k) ↔ truthy (fm !! k) = true.
Proof.
  unfold numberIfTruthy. destruct (truthy (fm !! k)) eqn:E.
  - destruct (fm !! k); [|done]. split; [done|]. intros _. by eexists.
  - split; [by intros [? ?]|done].
Qed.

Lemma rowValue_is_Some row body :
  is_Some (rowValue row body) ↔ is_Some (matchFirst row body).
Proof. unfold rowValue. apply fmap_is_Some. Qed.

Lemma extractRiskValues_None doc :
  extractRiskValues doc = None ↔ ¬ metadataYieldsBoth doc ∧ ¬ bodyYieldsBoth doc.
Proof.
  unfold extractRiskValues, metadataYieldsBoth, bodyYieldsBoth.
  rewrite <- !rowValue_is_Some.
  destruct (truthy (_ !! "severity"%string)),
    (truthy (_ !! "probability"%string)); cbn [andb];
    destruct (rowValue severityRow _) as [s'|],
      (rowValue probabilityRow _) as [p'|];
    (split; [try done; intros _ | try done; intros [Hm Hb]]);
    try (split; intros [? ?]; done);
    try (split; [intros [? ?]; done|intros [[? ?] [? ?]]; done]);
    try (exfalso; apply Hm; by split);
    try (exfalso; apply Hb; split; by eexists).
Qed.

(** C6.  buildRiskMatrix answers null exactly when the index has no
    document of type risk.  When it returns a matrix, a risk document for
    which neither the front matter nor the tables of the body give both a
    severity and a probability has no entry, and the matrix is the one the
    other risk documents alone produce: same grids, same list of entries,
    same summary. *)
Theorem C6_null_iff_no_risk_document index gridSize :
  (buildRiskMatrix index gridSize = Ok None ↔ riskDocsOf index = [])
  ∧ ∀ m before doc after,
      buildRiskMatrix index gridSize = Ok (Some m) →
      riskDocsOf index = before ++ doc :: after →
      ¬ metadataYieldsBoth doc → ¬ bodyYieldsBoth doc →
      expectedEntry doc = None
      ∧ ∃ acc,
          forRiskDocs gridSize (initialAcc gridSize) (before ++ after) = Ok acc
          ∧ m = toMatrix acc.
Proof.
  split.
  - rewrite buildRiskMatrix_loop. destruct (riskDocsOf index) as [|d ds]; [done|].
    destruct (forRiskDocs _ _ _); split; intros; done.
  - intros m before doc after Hm Hdocs Hmeta Hbody.
    assert (extractRiskValues doc = None) as Hnone
      by (apply extractRiskValues_None; done).
    split; [unfold expectedEntry; by rewrite Hnone|].
    rewrite buildRiskMatrix_loop, Hdocs in Hm.
    destruct (before ++ doc :: after) eqn:E; [by destruct before|].
    rewrite <- E in Hm.
    assert (forRiskDocs gridSize (initialAcc gridSize) (before ++ doc :: after)
            = forRiskDocs gridSize (initialAcc gridSize) (before ++ after))
      as Hskip.
    { rewrite !forRiskDocs_app.
      destruct (forRiskDocs gridSize (initialAcc gridSize) before) as [acc|];
        [|done].
      cbn [mbind result_bind forRiskDocs]. unfold addRisk. by rewrite Hnone. }
    rewrite Hskip in Hm.
    destruct (forRiskDocs gridSize (initialAcc gridSize) (before ++ after))
      as [acc|]; [|done].
    injection Hm as <-. by exists acc.
Qed.

End RiskMatrixProperties.

(** C1 where a severity is no number of the scale.  The scenario of the
    specification holds: the fixture RISK-SW-001, residual probability 1
    and severity 4, is acceptable, and a severity of 7 is review_required.
    A severity written as in the tables of the fixture, 4 (Critical), is
    NaN once converted: no comparison of the range test of
    getAcceptability holds for it, the row of the table is read at NaN,
    and the entry is pushed with a tier that is undefined.  A severity of
    2.5 passes the range test the same way and ends the same. *)
Theorem C1_a_severity_off_the_integers_gets_no_tier :
  getAcceptability 1 4 = Ok (Some Types.acceptable)
  ∧ map (λ e, (RiskEntry.id e, RiskEntry.acceptability e))
      (RiskMatrix.risks Samples.riskMatrix)
    = [ ("RISK-SW-001"%string, Some Types.acceptable);
        ("RISK-002"%string, Some review_required) ]
  ∧ Number (host := Samples.asciiHost) (FmStr "4 (Critical)") = PrimFloat.nan
  ∧ (∃ m, buildRiskMatrix (host := Samples.asciiHost) Samples.wordedIndex 5
          = Ok (Some m)
          ∧ map (λ e, (RiskEntry.id e, resProb e, resSev e,
                       RiskEntry.acceptability e))
              (RiskMatrix.risks m)
            = [ ("RISK-004"%string, 3%float, PrimFloat.nan, None) ])
  ∧ getAcceptability 3 PrimFloat.nan = Ok None
  ∧ getAcceptability 3 2.5 = Ok None.
Proof.
  split_and!; try (vm_compute; reflexivity).
  eexists. split; vm_compute; reflexivity.
Qed.

(** C7 where a probability lies between two levels.  In the scenario of
    the specification the fixture RISK-SW-001 (probability 3, severity 4,
    residual 1 and 4) adds one to the cell [2][3] of the inherent grid and
    to the cell [0][3] of the residual grid, and the risk with severity 7
    adds to no cell and has its entry.  A probability of 2.5 passes the
    test of the range 1..gridSize, [inherent[1.5]] is no row, and reading
    its cell throws: buildRiskMatrix returns no matrix and no entry. *)
Theorem C7_a_probability_between_two_levels_throws :
  cell (RiskMatrix.inherent Samples.riskMatrix) 2 3 = 1%Z
  ∧ cell (RiskMatrix.residual Samples.riskMatrix) 0 3 = 1%Z
  ∧ map RiskEntry.id (RiskMatrix.risks Samples.riskMatrix)
    = [ "RISK-SW-001"%string; "RISK-002"%string ]
  ∧ extractRiskValues (host := Samples.asciiHost) Samples.docBetween
    = Some {| RiskValues.severity := 3; RiskValues.probability := 2.5;
              RiskValues.residualSeverity := None;
              RiskValues.residualProbability := None |}
  ∧ inGrid 5 2.5 3 = true
  ∧ arrayIndex (2.5 - 1) = None
  ∧ increment (createGrid 5) (2.5 - 1) (3 - 1) = Err TypeError
  ∧ buildRiskMatrix (host := Samples.asciiHost) Samples.betweenIndex 5
    = Err TypeError.
Proof. split_and!; vm_compute; reflexivity. Qed.

(** C10 where a severity is no number.  For the fixture the summary
    agrees with the entries: two entries, one acceptable, one
    review_required.  For the risk whose severity is 4 (Critical) the
    matrix holds one entry, whose tier is undefined, and the [switch] over
    the tier moves no counter: the total is 1 and the three tier counts
    are 0. *)
Theorem C10_an_entry_without_tier_is_counted_nowhere :
  (Summary.total (RiskMatrix.summary Samples.riskMatrix),
   tierCounts Samples.riskMatrix) = (2, (1, 1, 0))%Z
  ∧ ∃ m, buildRiskMatrix (host := Samples.asciiHost) Samples.wordedIndex 5
         = Ok (Some m)
         ∧ length (RiskMatrix.risks m) = 1%nat
         ∧ RiskEntry.acceptability <$> RiskMatrix.risks m = [None]
         ∧ Summary.total (RiskMatrix.summary m) = 1%Z
         ∧ tierCounts m = (0, 0, 0)%Z.
Proof.
  split; [vm_compute; reflexivity|].
  eexists. split_and!; vm_compute; reflexivity.
Qed.

Lemma C6_witness :
  @buildRiskMatrix Samples.asciiHost Samples.riskIndex 5
  = Ok (Some Samples.riskMatrix)
  ∧ riskDocsOf Samples.riskIndex
    = [Samples.docSw001; Samples.docOffGrid] ++ Samples.docDraft :: []
  ∧ ¬ metadataYieldsBoth Samples.docDraft
  ∧ ¬ bodyYieldsBoth Samples.docDraft
  ∧ @expectedEntry Samples.asciiHost Samples.docDraft = None
  ∧ ∃ acc,
      @forRiskDocs Samples.asciiHost 5 (initialAcc 5)
        ([Samples.docSw001; Samples.docOffGrid] ++ []) = Ok acc
      ∧ Samples.riskMatrix = toMatrix acc.
Proof.
  assert (¬ metadataYieldsBoth Samples.docDraft) as Hmeta
    by (intros [Hs _]; vm_compute in Hs; discriminate).
  assert (¬ bodyYieldsBoth Samples.docDraft) as Hbody
    by (intros [[? Hs] _]; vm_compute in Hs; discriminate).
  split_and!; [vm_compute; reflexivity|vm_compute; reflexivity|done|done|..];
    apply (proj2 (@C6_null_iff_no_risk_document Samples.asciiHost
                    Samples.riskIndex 5)
             Samples.riskMatrix [Samples.docSw001; Samples.docOffGrid]
             Samples.docDraft []);
    solve [vm_compute; reflexivity | done].
Defined.

(** ** The parser *)

Section ParserProperties.
Import ParserSpec.
Context {host : JsHost}.
Local Open Scope string_scope.

Lemma splitOn_nonempty sep s : splitOn sep s ≠ [].
Proof.
  destruct s as [|a s]; [done|]. simpl.
  destruct (Ascii.eqb a sep); [done|]. by destruct (splitOn sep s).
Qed.

(** The parts of a split, joined by the separator, are the text. *)
Lemma join_splitOn sep s : join (String sep EmptyString) (splitOn sep s) = s.
Proof.
  induction s as [|a s IH]; [done|]. simpl.
  destruct (Ascii.eqb_spec a sep) as [->|Hne].
  - pose proof (splitOn_nonempty sep s).
    destruct (splitOn sep s) as [|w ws]; [done|]. simpl in *. by rewrite IH.
  - destruct (splitOn sep s) as [|w ws] eqn:E; [by destruct (splitOn_nonempty sep s)|].
    rewrite <- IH. by destruct ws.
Qed.

Lemma splitOn_head_no_sep sep s w ws :
  splitOn sep s = w :: ws → ¬ In sep (list_ascii_of_string w).
Proof.
  revert w ws. induction s as [|a s IH]; intros w ws Hs; simpl in Hs.
  - injection Hs as <- <-. simpl. tauto.
  - destruct (Ascii.eqb_spec a sep) as [->|Hne].
    + injection Hs as <- <-. simpl. tauto.
    + destruct (splitOn sep s) as [|w' ws'] eqn:E;
        [by destruct (splitOn_nonempty sep s)|].
      injection Hs as <- <-. simpl. intros [?|Hin]; [done|].
      by eapply IH.
Qed.

(** [idPrefix] is the text of the id before its first dash. *)
Lemma idPrefix_spec id : beforeFirstDash (idPrefix id) id.
Proof.
  unfold beforeFirstDash, idPrefix.
  destruct (splitOn "-" id) as [|w ws] eqn:E; [by destruct (splitOn_nonempty "-" id)|].
  split; [by eapply splitOn_head_no_sep|].
  pose proof (join_splitOn "-" id) as Hjoin. rewrite E in Hjoin.
  destruct ws as [|w' ws]; [by left|]. right.
  exists (join "-" (w' :: ws)). by rewrite <- Hjoin.
Qed.

(** And nothing else is. *)
Lemma idPrefix_unique prefix id : beforeFirstDash prefix id → idPrefix id = prefix.
Proof.
  unfold beforeFirstDash, idPrefix. revert id.
  induction prefix as [|a prefix IH]; intros id [Hdash Hid].
  - destruct Hid as [->|[rest ->]]; [done|]. by simpl.
  - assert (a ≠ "-"%char) as Ha by (intros ->; apply Hdash; by left).
    assert (¬ In "-"%char (list_ascii_of_string prefix)) as Hdash'
      by (intros ?; apply Hdash; by right).
    assert (∃ id', id = String a id'
                   ∧ (id' = prefix ∨ ∃ rest, id' = prefix +:+ "-" +:+ rest))
      as (id' & -> & Hid').
    { destruct Hid as [->|[rest ->]]; eexists; (split; [done|]);
        [by left|right; by eexists]. }
    simpl. apply Ascii.eqb_neq in Ha. rewrite Ha.
    specialize (IH id' (conj Hdash' Hid')).
    destruct (splitOn "-" id') as [|w ws]; [by destruct prefix|].
    by rewrite IH.
Qed.

(** Every value of DIR_TYPE_MAP, its own or inherited, counts as true and
    is not the text [unknown]. *)
Lemma DIR_TYPE_MAP_truthy dir t :
  tableGet DIR_TYPE_MAP dir = Some t →
  tableTruthy (Some t) = true ∧ t ≠ Text "unknown".
Proof.
  unfold tableGet. destruct (DIR_TYPE_MAP !! dir) as [v|] eqn:Hdir.
  - intros [= <-]. apply elem_of_list_to_map_2 in Hdir.
    repeat (apply elem_of_cons in Hdir as [Hdir|Hdir];
            [injection Hdir as _ ->; by split|]).
    by apply elem_of_nil in Hdir.
  - destruct (bool_decide _); [|done]. intros [= <-]. by split.
Qed.

Lemma firstDirType_first skipped dir above t :
  unmapped skipped → tableGet DIR_TYPE_MAP dir = Some t →
  firstDirType (skipped ++ dir :: above)%list = t.
Proof.
  intros Hskip Hdir. induction Hskip as [|d skipped Hd _ IH]; cbn [app firstDirType].
  - rewrite Hdir. by destruct (DIR_TYPE_MAP_truthy _ _ Hdir) as [-> _].
  - by rewrite Hd.
Qed.

Lemma firstDirType_unmapped dirs :
  unmapped dirs → firstDirType dirs = Text "unknown".
Proof. induction 1 as [|d dirs Hd _ IH]; cbn [firstDirType]; [done|]. by rewrite Hd. Qed.

Lemma parseDocument_docType filePath data content doc :
  parseDocument filePath data content = Some doc →
  Document.docType doc =
    (if bool_decide (inferDocType filePath = Text "unknown")
     then inferTypeFromId (Document.id doc) else inferDocType filePath).
Proof.
  unfold parseDocument.
  destruct (String.eqb (stringField data "id" EmptyString) EmptyString); [done|].
  by intros [= <-].
Qed.

(** The order in which a parsed file gets its docType.  What DIR_TYPE_MAP
    gives for the first directory of the path for which it gives anything,
    going from the directory that holds the file up to the root: an entry
    of its own or a member every object inherits.  When it gives nothing
    for any directory, what prefixMap gives for the upper-cased text of
    the id before its first dash, and unknown when that is nothing.  The
    front matter has no say: two parses of the same path that agree on the
    id agree on the docType. *)
Lemma parseDocument_docType_precedence filePath data content doc :
  parseDocument filePath data content = Some doc →
  let dirs := directories filePath in
  (∀ skipped dir above t,
     dirs = (skipped ++ dir :: above)%list → unmapped skipped →
     tableGet DIR_TYPE_MAP dir = Some t → Document.docType doc = t)
  ∧ (∀ prefix,
       unmapped dirs → beforeFirstDash prefix (Document.id doc) →
       Document.docType doc
       = default (Text "unknown") (tableGet prefixMap (toUpperCase prefix)))
  ∧ (∀ data' content' doc',
       parseDocument filePath data' content' = Some doc' → sameId doc' doc →
       Document.docType doc' = Document.docType doc)
  ∧ (∀ skipped above,
       dirs = (skipped ++ "test" :: above)%list → unmapped skipped →
       Document.docType doc = Text "test_case").
Proof.
  intros Hdoc dirs.
  pose proof (parseDocument_docType _ _ _ _ Hdoc) as Hty.
  assert (∀ skipped dir above t,
     dirs = (skipped ++ dir :: above)%list → unmapped skipped →
     tableGet DIR_TYPE_MAP dir = Some t → Document.docType doc = t) as Hfirst.
  { intros skipped dir above t Hdirs Hskip Hdir.
    rewrite Hty. unfold inferDocType. fold (directories filePath).
    fold dirs. rewrite Hdirs, (firstDirType_first _ _ _ t) by done.
    destruct (DIR_TYPE_MAP_truthy _ _ Hdir) as [_ Hne].
    by rewrite bool_decide_eq_false_2. }
  split_and!.
  - exact Hfirst.
  - intros prefix Hnone Hprefix. rewrite Hty. unfold inferDocType.
    fold (directories filePath). fold dirs.
    rewrite firstDirType_unmapped, bool_decide_eq_true_2 by done.
    unfold inferTypeFromId. by rewrite (idPrefix_unique _ _ Hprefix).
  - intros data' content' doc' Hdoc' Hid.
    rewrite Hty, (parseDocument_docType _ _ _ _ Hdoc'). by rewrite Hid.
  - intros skipped above Hdirs Hskip. by eapply Hfirst.
Qed.

End ParserProperties.

(** C8 where a directory is named like a member every object inherits.
    The three steps of the specification hold on its scenarios: under
    test a file whose id starts with SRS is a test_case, under a directory
    DIR_TYPE_MAP does not know the same id gives software_requirement, and
    an id with an unknown prefix gives unknown.  DIR_TYPE_MAP is a plain
    object, so [DIR_TYPE_MAP['constructor']] is the function every object
    inherits; it counts as true and inferDocType returns it.  The docType
    of constructor/SRS-001.md is then neither the type of its id prefix
    nor unknown, and no string at all. *)
Theorem C8_a_directory_named_constructor_gives_no_type :
  let srs id := list_to_map [("id", FmStr id);
                             ("type", FmStr "test_case")]%string in
  let typeOf path id :=
    Document.docType
      <$> parseDocument (host := Samples.asciiHost) path (srs id) "# A" in
  typeOf "test/SRS-009.md"%string "SRS-009"%string = Some (Text "test_case")
  ∧ typeOf "misc/SRS-001.md"%string "SRS-001"%string
    = Some (Text "software_requirement")
  ∧ typeOf "misc/NOTE-1.md"%string "NOTE-1"%string = Some (Text "unknown")
  ∧ DIR_TYPE_MAP !! "constructor"%string = None
  ∧ tableGet DIR_TYPE_MAP "constructor" = Some (Inherited "constructor")
  ∧ typeOf "constructor/SRS-001.md"%string "SRS-001"%string
    = Some (Inherited "constructor")
  ∧ ∀ t : string,
      typeOf "constructor/SRS-001.md"%string "SRS-001"%string
      ≠ Some (Text t).
Proof. split_and!; try (vm_compute; reflexivity). intros t. vm_compute. discriminate. Qed.

(** ** The traceability engine *)

Section TraceabilityProperties.
Import TraceabilitySpec.
Local Open Scope string_scope.

Lemma buildDocLinks_snoc documents doc :
  buildDocLinks (documents ++ [doc])%list
  = <[Document.id doc := extractLinks doc]> (buildDocLinks documents).
Proof. unfold buildDocLinks. by rewrite foldl_snoc. Qed.

(** With distinct ids, [docLinks] holds the own links of each document. *)
Lemma buildDocLinks_lookup documents doc :
  NoDup (Document.id <$> documents) → doc ∈ documents →
  buildDocLinks documents !! Document.id doc = Some (extractLinks doc).
Proof.
  induction documents as [|d documents IH] using rev_ind; intros Hnd Hin.
  - by apply elem_of_nil in Hin.
  - rewrite buildDocLinks_snoc. rewrite fmap_app in Hnd.
    apply NoDup_app in Hnd as (Hnd & Hfresh & _).
    apply elem_of_app in Hin as [Hin|Hin].
    + rewrite lookup_insert_ne; [by apply IH|].
      intros Heq. apply (Hfresh (Document.id doc)).
      * apply list_elem_of_fmap. by exists doc.
      * rewrite <- Heq. simpl. apply list_elem_of_here.
    + apply list_elem_of_singleton in Hin as ->. apply lookup_insert_eq.
Qed.

Lemma linksFor_own documents doc :
  NoDup (Document.id <$> documents) → doc ∈ documents →
  linksFor (buildDocLinks documents) (Document.id doc) = extractLinks doc.
Proof. intros. unfold linksFor. by rewrite buildDocLinks_lookup. Qed.

Lemma consistent_type documents index t doc :
  consistent documents index → doc ∈ docsOfType index t → doc ∈ documents.
Proof.
  intros (_ & _ & Hty) Hin. unfold docsOfType in Hin.
  destruct (DocumentIndex.byType index !! t) as [ds|] eqn:E.
  - apply Hty in E. simpl in Hin. by eapply Forall_forall in E.
  - by apply elem_of_nil in Hin.
Qed.

Lemma consistent_id documents index i doc :
  consistent documents index → DocumentIndex.byId index !! i = Some doc →
  linksFor (buildDocLinks documents) i = extractLinks doc.
Proof.
  intros (Hnd & Hid & _) Hdoc. apply Hid in Hdoc as [Hin <-].
  by apply linksFor_own.
Qed.

Lemma hasType_true ty l : hasType ty l = true ↔ Link.type l = ty.
Proof. unfold hasType. apply String.eqb_eq. Qed.

Lemma existsb_elem_of {A} (f : A → bool) (l : list A) :
  existsb f l = true ↔ ∃ x, x ∈ l ∧ f x = true.
Proof.
  rewrite existsb_exists. split; intros (x & Hx & Hf); exists x;
    (split; [by apply list_elem_of_In|done]).
Qed.

Lemma find_hasType_None ty links :
  find (hasType ty) links = None ↔ ¬ ∃ l, l ∈ links ∧ Link.type l = ty.
Proof.
  split.
  - intros Hnone (l & Hl & Hty). apply list_elem_of_In in Hl.
    eapply find_none in Hnone; eauto. apply hasType_true in Hty. congruence.
  - intros Hno. destruct (find (hasType ty) links) as [l|] eqn:E; [|done].
    apply find_some in E as [Hl Hty]. exfalso. apply Hno. exists l.
    split; [by apply list_elem_of_In|by apply hasType_true].
Qed.

Lemma isVerification_true l :
  isVerification l = true
  ↔ Link.type l = "verified_by" ∨ Link.type l = "validated_by".
Proof. unfold isVerification. by rewrite orb_true_iff, !hasType_true. Qed.

Lemma hasRequiredLink_own documents chain doc :
  NoDup (Document.id <$> documents) → doc ∈ documents →
  hasRequiredLink chain (linksFor (buildDocLinks documents) (Document.id doc))
  = true
  ↔ if decide (TraceabilityChain.link chain = "verified_by")
    then verifies doc else declares doc (TraceabilityChain.link chain).
Proof.
  intros Hnd Hin. rewrite linksFor_own by done.
  unfold hasRequiredLink. rewrite existsb_elem_of.
  destruct (String.eqb_spec (TraceabilityChain.link chain) "verified_by")
    as [Hv|Hv].
  - rewrite decide_True by done. unfold verifies, declares. split.
    + intros (l & Hl & Ht). apply isVerification_true in Ht as [Ht|Ht];
        [left|right]; by exists l.
    + intros [(l & Hl & Ht)|(l & Hl & Ht)]; exists l;
        (split; [done|]); apply isVerification_true; auto.
  - rewrite decide_False by done. unfold declares.
    split; intros (l & Hl & Ht); exists l; (split; [done|]);
      by apply hasType_true.
Qed.

Lemma hasCoveringTarget_own documents index chain doc :
  consistent documents index →
  hasCoveringTarget index (buildDocLinks documents) chain doc = true
  ↔ ∃ targetDoc,
      targetDoc ∈ docsOfType index (TraceabilityChain.target chain)
      ∧ verifiesDoc targetDoc (Document.id doc).
Proof.
  intros Hc. unfold hasCoveringTarget. fold (docsOfType index (TraceabilityChain.target chain)).
  rewrite existsb_elem_of. split.
  - intros (targetDoc & Hin & Hex). exists targetDoc. split; [done|].
    rewrite linksFor_own in Hex;
      [|by destruct Hc|by eapply consistent_type].
    apply existsb_elem_of in Hex as (l & Hl & Hex).
    apply andb_true_iff in Hex as [Hv Ht]. apply String.eqb_eq in Ht.
    apply isVerification_true in Hv as [Hv|Hv]; [left|right]; by exists l.
  - intros (targetDoc & Hin & Hv). exists targetDoc. split; [done|].
    rewrite linksFor_own; [|by destruct Hc|by eapply consistent_type].
    apply existsb_elem_of.
    destruct Hv as [(l & Hl & Ht & Hid)|(l & Hl & Ht & Hid)]; exists l;
      (split; [done|]); apply andb_true_iff;
      (split; [apply isVerification_true; auto|by apply String.eqb_eq]).
Qed.

Lemma isCovered_covered documents index chain doc :
  consistent documents index →
  doc ∈ docsOfType index (TraceabilityChain.source chain) →
  isCovered index (buildDocLinks documents) chain doc = true
  ↔ covered index chain doc.
Proof.
  intros Hc Hin. pose proof (consistent_type _ _ _ _ Hc Hin) as Hdoc.
  unfold isCovered, covered.
  rewrite orb_true_iff, andb_true_iff, String.eqb_eq.
  rewrite (hasRequiredLink_own documents) by (done || by destruct Hc).
  rewrite (hasCoveringTarget_own documents) by done.
  destruct (decide (TraceabilityChain.link chain = "verified_by")); tauto.
Qed.

Lemma checkSource_isCovered index docLinks chain warnings gaps coveredCount doc :
  checkSource index docLinks chain (warnings, gaps, coveredCount) doc
  = if isCovered index docLinks chain doc
    then (warnings, gaps, (coveredCount + 1)%Z)
    else ((warnings ++ [missingLinkWarning chain doc])%list,
          (gaps ++ [missingLinkGap chain doc])%list, coveredCount).
Proof.
  unfold checkSource, isCovered.
  destruct (hasRequiredLink chain _); [done|]. simpl.
  by destruct (_ && _).
Qed.

(** C3, as amended.  In a consistent snapshot a source document of a chain
    counts as covered (coveredCount grows by one, nothing is pushed)
    exactly when it has an outbound link of the kind of the chain or, for a
    verified_by chain, when it has an outbound verified_by or validated_by
    link or some document of the target type has an outbound verified_by or
    validated_by link whose target is the id of the source document;
    otherwise one warning and one gap entry are pushed.  A chain of any
    other kind is decided by the own links of the document alone. *)
Theorem C3_coverage_by_own_link_or_reverse_verification
    documents index chain sourceDoc warnings gaps coveredCount :
  consistent documents index →
  sourceDoc ∈ docsOfType index (TraceabilityChain.source chain) →
  let after :=
    checkSource index (buildDocLinks documents) chain
      (warnings, gaps, coveredCount) sourceDoc in
  (covered index chain sourceDoc →
   after = (warnings, gaps, (coveredCount + 1)%Z))
  ∧ (¬ covered index chain sourceDoc →
     after = ((warnings ++ [missingLinkWarning chain sourceDoc])%list,
              (gaps ++ [missingLinkGap chain sourceDoc])%list, coveredCount))
  ∧ (TraceabilityChain.link chain ≠ "verified_by" →
     (covered index chain sourceDoc
      ↔ declares sourceDoc (TraceabilityChain.link chain))).
Proof.
  intros Hc Hin after. subst after. rewrite checkSource_isCovered.
  pose proof (isCovered_covered _ _ _ _ Hc Hin) as Hiff.
  destruct (isCovered index (buildDocLinks documents) chain sourceDoc).
  - split_and!; [done| |].
    + intros Hn. exfalso. apply Hn. by apply Hiff.
    + intros Hne. unfold covered. by rewrite decide_False.
  - split_and!; [|done|].
    + intros Hcov. apply Hiff in Hcov. done.
    + intros Hne. unfold covered. by rewrite decide_False.
Qed.

End TraceabilityProperties.

Section ReportProperties.
Import TraceabilitySpec ReportSpec.
Context {host : JsHost}.
Local Open Scope string_scope.

Lemma foldl_checkSource index docLinks chain docs : ∀ warnings gaps coveredCount,
  (foldl (checkSource index docLinks chain) (warnings, gaps, coveredCount) docs).2
  = (coveredCount
     + Z.of_nat
         (length (filter (λ doc, isCovered index docLinks chain doc = true) docs)))%Z.
Proof.
  induction docs as [|doc docs IH]; intros warnings gaps coveredCount.
  - simpl. lia.
  - cbn [foldl]. rewrite checkSource_isCovered, filter_cons.
    destruct (isCovered index docLinks chain doc) eqn:E.
    + rewrite decide_True by done. rewrite IH. cbn [length]. lia.
    + rewrite decide_False by done. rewrite IH. lia.
Qed.

Lemma checkChain_coverage index docLinks r chain :
  ∃ entry,
    coverage (checkChain index docLinks r chain) = (coverage r ++ [entry])%list
    ∧ TraceabilityCoverage.sourceType entry = TraceabilityChain.source chain
    ∧ TraceabilityCoverage.targetType entry = TraceabilityChain.target chain
    ∧ TraceabilityCoverage.totalSources entry = totalSourcesOf index chain
    ∧ TraceabilityCoverage.coveredSources entry
      = coveredCountOf index docLinks chain
    ∧ TraceabilityCoverage.coveragePercent entry
      = coveragePercentOf (coveredCountOf index docLinks chain)
          (totalSourcesOf index chain).
Proof.
  unfold checkChain, coveredCountOf, totalSourcesOf.
  fold (docsOfType index (TraceabilityChain.source chain)).
  pose proof (foldl_checkSource index docLinks chain
    (docsOfType index (TraceabilityChain.source chain)) (warnings r) (gaps r) 0%Z)
    as Hcount.
  destruct (foldl _ _ _) as [[warnings' gaps'] coveredCount].
  cbn [snd] in Hcount. rewrite Z.add_0_l in Hcount. subst coveredCount.
  eexists. cbn [coverage]. split; [reflexivity|]. by cbn.
Qed.

(** Every coverage entry carries the percentage computed from its own
    two counts, and 100 when it has no source document. *)
Lemma coverage_entries documents index config entry :
  entry ∈ coverage (validateTraceability documents index config) →
  TraceabilityCoverage.coveragePercent entry
  = coveragePercentOf (TraceabilityCoverage.coveredSources entry)
      (TraceabilityCoverage.totalSources entry)
  ∧ (TraceabilityCoverage.totalSources entry = 0%Z →
     TraceabilityCoverage.coveragePercent entry = 100%Z).
Proof.
  unfold validateTraceability.
  destruct (Config.type config); [by intros ?%elem_of_nil|].
  destruct (validateHazardChains _ _ _ _ _) as [warnings' gaps'].
  cbn [coverage].
  generalize (Config.chains config). intros chains.
  assert (∀ r, (∀ e, e ∈ coverage r →
              TraceabilityCoverage.coveragePercent e
              = coveragePercentOf (TraceabilityCoverage.coveredSources e)
                  (TraceabilityCoverage.totalSources e)) →
          ∀ e, e ∈ coverage (foldl (checkChain index (buildDocLinks documents)) r chains) →
              TraceabilityCoverage.coveragePercent e
              = coveragePercentOf (TraceabilityCoverage.coveredSources e)
                  (TraceabilityCoverage.totalSources e)) as Hall.
  { induction chains as [|chain chains IH]; intros r Hr; [done|].
    cbn [foldl]. apply IH. intros e He.
    destruct (checkChain_coverage index (buildDocLinks documents) r chain)
      as (new & Hcov & _ & _ & Htot & Hcnt & Hpct).
    rewrite Hcov in He. apply elem_of_app in He as [He|He]; [by apply Hr|].
    apply list_elem_of_singleton in He as ->. by rewrite Hpct, Hcnt, Htot. }
  intros He. apply Hall in He; [|by intros ? ?%elem_of_nil].
  split; [done|]. intros Hz. by rewrite He, Hz.
Qed.

End ReportProperties.

Section HazardChainProperties.
Import TraceabilitySpec ReportSpec.
Local Open Scope string_scope.

(** What one pass of the loop of validateHazardChains pushes. *)
Lemma checkRisk_chainFinding documents index risk warnings gaps :
  consistent documents index → risk ∈ documents →
  ∃ found,
    chainFinding index risk found
    ∧ checkRisk index (buildDocLinks documents) (warnings, gaps) risk
      = ((warnings ++ found.*1)%list, (gaps ++ found.*2)%list).
Proof.
  intros Hc Hin. unfold checkRisk.
  rewrite linksFor_own by (done || by destruct Hc).
  assert (∀ found, chainFinding index risk found → found = [] →
    ∃ found',
      chainFinding index risk found'
      ∧ (warnings, gaps)
        = ((warnings ++ found'.*1)%list, (gaps ++ found'.*2)%list))
    as Hnothing.
  { intros found Hf ->. exists []. split; [done|]. cbn. by rewrite !app_nil_r. }
  destruct (find (hasType "analyzes") (extractLinks risk)) as [analyzes|] eqn:Ha.
  2:{ eapply Hnothing; [|done]. apply no_hazard. by apply find_hasType_None. }
  cbv zeta.
  destruct (DocumentIndex.byId index !! Link.targetId analyzes)
    as [hazardDoc|] eqn:Hh.
  2:{ eapply Hnothing; [|done]. by eapply hazard_unresolved. }
  rewrite (consistent_id _ _ _ _ Hc Hh).
  destruct (find (hasType "leads_to") (extractLinks hazardDoc))
    as [leadsTo|] eqn:Hl.
  2:{ eexists [(_, _)]. split; [|reflexivity].
      eapply hazard_no_situation; [done|done| |by repeat split].
      by apply find_hasType_None. }
  destruct (DocumentIndex.byId index !! Link.targetId leadsTo)
    as [situationDoc|] eqn:Hs.
  2:{ eapply Hnothing; [|done]. by eapply situation_unresolved. }
  rewrite (consistent_id _ _ _ _ Hc Hs).
  destruct (find (hasType "results_in") (extractLinks situationDoc))
    as [resultsIn|] eqn:Hr.
  - eapply Hnothing; [|done]. eapply chain_complete; [done..|].
    apply find_some in Hr as [Hr Hty]. exists resultsIn.
    split; [by apply list_elem_of_In|by apply hasType_true].
  - eexists [(_, _)]. split; [|reflexivity].
    eapply situation_no_harm; [done..| |by repeat split].
    by apply find_hasType_None.
Qed.

Lemma foldl_checkRisk_chainFinding documents index risks :
  consistent documents index → Forall (λ risk, risk ∈ documents) risks →
  ∀ warnings gaps,
  ∃ findings,
    Forall2 (chainFinding index) risks findings
    ∧ foldl (checkRisk index (buildDocLinks documents)) (warnings, gaps) risks
      = ((warnings ++ (concat findings).*1)%list,
         (gaps ++ (concat findings).*2)%list).
Proof.
  intros Hc. induction 1 as [|risk risks Hin _ IH]; intros warnings gaps.
  - exists []. split; [constructor|]. cbn. by rewrite !app_nil_r.
  - cbn [foldl].
    destruct (checkRisk_chainFinding documents index risk warnings gaps Hc Hin)
      as (found & Hfound & ->).
    destruct (IH (warnings ++ found.*1)%list (gaps ++ found.*2)%list)
      as (findings & Hall & ->).
    exists (found :: findings). split; [by constructor|].
    cbn [concat]. by rewrite !fmap_app, !app_assoc.
Qed.

(** C4.  In a snapshot whose documents have distinct ids, validateHazardChains
    goes through the risk documents in the order of the index and pushes,
    after the warnings and gap entries it is given, what the chain of each
    risk gives.  The chain of a risk starts at its first analyzes link.
    When that link names a document of the index and this hazard has no
    leads_to link: exactly one warning for the file of the hazard, of rule
    traceability/hazard-chain, and one gap entry of gapType
    hazard_no_situation.  When the first leads_to link of the hazard
    names a document of the index and this situation has no results_in
    link: exactly one warning for the file of the situation and one gap
    entry of gapType situation_no_harm.  A risk whose first analyzes link
    names no document of the index gives nothing, as do a risk without
    analyzes link, a hazard whose first leads_to link names no document of
    the index, and a situation with a results_in link. *)
Theorem C4_hazard_chain_of_the_first_analyzes_link
    documents index warnings gaps :
  consistent documents index →
  ∃ findings,
    Forall2 (chainFinding index) (docsOfType index "risk") findings
    ∧ validateHazardChains documents index (buildDocLinks documents)
        warnings gaps
      = ((warnings ++ (concat findings).*1)%list,
         (gaps ++ (concat findings).*2)%list).
Proof.
  intros Hc. unfold validateHazardChains. fold (docsOfType index "risk").
  apply foldl_checkRisk_chainFinding; [done|].
  apply Forall_forall. intros risk Hrisk. by eapply consistent_type.
Qed.

End HazardChainProperties.

Lemma sample_consistent :
  TraceabilitySpec.consistent Samples.deviceDocs Samples.deviceIndex.
Proof.
  unfold TraceabilitySpec.consistent.
  split_and!; apply (bool_decide_unpack _); vm_compute; reflexivity.
Qed.

(** TC-002 only validates a user need: it has no verified_by link and no
    software requirement links back to it, yet the test_case chain counts
    it as covered. *)
Lemma C3_counterexample :
  TraceabilitySpec.consistent Samples.deviceDocs Samples.deviceIndex
  ∧ Samples.docTc002 ∈ TraceabilitySpec.docsOfType Samples.deviceIndex "test_case"
  ∧ extractLinks Samples.docTc002
    = [ {| Link.type := "validated_by"; Link.targetId := "UN-001" |} ]
  ∧ ¬ TraceabilitySpec.coveredAsClaimed Samples.deviceIndex Samples.testChain
        Samples.docTc002
  ∧ checkSource Samples.deviceIndex (buildDocLinks Samples.deviceDocs)
      Samples.testChain ([], [], 0%Z) Samples.docTc002
    = ([], [], 1%Z).
Proof.
  assert (extractLinks Samples.docTc002
          = [ {| Link.type := "validated_by"; Link.targetId := "UN-001" |} ])
    as Hlinks by (vm_compute; reflexivity).
  split_and!.
  - exact sample_consistent.
  - apply (bool_decide_unpack _); vm_compute; reflexivity.
  - exact Hlinks.
  - intros [(l & Hl & Ht)|(_ & targetDoc & Hin & (l & Hl & Ht & Hid))].
    + rewrite Hlinks in Hl. apply list_elem_of_singleton in Hl as ->.
      discriminate Ht.
    + replace (TraceabilitySpec.docsOfType Samples.deviceIndex
                 (TraceabilityChain.target Samples.testChain))
        with [default Samples.blank (Samples.deviceDocs !! 2%nat);
              default Samples.blank (Samples.deviceDocs !! 3%nat)] in Hin
        by (vm_compute; reflexivity).
      apply elem_of_cons in Hin as [->|Hin];
        [|apply list_elem_of_singleton in Hin as ->].
      * replace (extractLinks _)
          with [ {| Link.type := "derives_from"; Link.targetId := "PRS-001" |} ]
          in Hl by (vm_compute; reflexivity).
        apply list_elem_of_singleton in Hl as ->. discriminate Ht.
      * replace (extractLinks _) with (@nil Link) in Hl
          by (vm_compute; reflexivity).
        by apply elem_of_nil in Hl.
  - vm_compute; reflexivity.
Qed.

Lemma C3_witness :
  TraceabilitySpec.consistent Samples.deviceDocs Samples.deviceIndex
  ∧ Samples.docTc002 ∈ TraceabilitySpec.docsOfType Samples.deviceIndex "test_case"
  ∧ TraceabilitySpec.covered Samples.deviceIndex Samples.testChain
      Samples.docTc002
  ∧ checkSource Samples.deviceIndex (buildDocLinks Samples.deviceDocs)
      Samples.testChain ([], [], 0%Z) Samples.docTc002
    = ([], [], (0 + 1)%Z).
Proof.
  assert (Samples.docTc002
          ∈ TraceabilitySpec.docsOfType Samples.deviceIndex "test_case") as Hin
    by (apply (bool_decide_unpack _); vm_compute; reflexivity).
  assert (TraceabilitySpec.covered Samples.deviceIndex Samples.testChain
            Samples.docTc002) as Hcov.
  { left. right.
    exists {| Link.type := "validated_by"; Link.targetId := "UN-001" |}.
    split; [|reflexivity].
    replace (extractLinks Samples.docTc002)
      with [ {| Link.type := "validated_by"; Link.targetId := "UN-001" |} ]
      by (vm_compute; reflexivity).
    apply list_elem_of_here. }
  split_and!; [exact sample_consistent|exact Hin|exact Hcov|].
  exact (proj1 (C3_coverage_by_own_link_or_reverse_verification
                  Samples.deviceDocs Samples.deviceIndex Samples.testChain
                  Samples.docTc002 [] [] 0%Z sample_consistent Hin) Hcov).
Defined.

(** A risk with two analyzes links, the first to a hazard that is in no
    file, the second to HAZ-001, which has no leads_to link: the hazard is
    a document of the index, yet nothing is pushed.  And a risk whose id a
    later file repeats: it analyzes HAZ-001 and is in the group of the
    risks, but it is judged by the links of the later file, which has
    none, and nothing is pushed for it. *)
Lemma C4_counterexample :
  (TraceabilitySpec.consistent HazardFixtures.twoHazardDocs
     HazardFixtures.twoHazardIndex
   ∧ TraceabilitySpec.docsOfType HazardFixtures.twoHazardIndex "risk"
     = [HazardFixtures.risk010]
   ∧ extractLinks HazardFixtures.risk010
     = [ {| Link.type := "analyzes"; Link.targetId := "HAZ-404" |};
         {| Link.type := "analyzes"; Link.targetId := "HAZ-001" |} ]
   ∧ DocumentIndex.byId HazardFixtures.twoHazardIndex !! "HAZ-001"%string
     = Some HazardFixtures.hazard001
   ∧ extractLinks HazardFixtures.hazard001 = []
   ∧ validateHazardChains HazardFixtures.twoHazardDocs
       HazardFixtures.twoHazardIndex
       (buildDocLinks HazardFixtures.twoHazardDocs) [] []
     = ([], []))
  ∧ (HazardFixtures.repeatedRiskDocs
     = Main.allDocs (host := Samples.asciiHost) HazardFixtures.repeatedRiskFiles
   ∧ HazardFixtures.repeatedRiskIndex
     = buildDocumentIndex (host := Samples.asciiHost)
         HazardFixtures.repeatedRiskFiles
   ∧ HazardFixtures.risk020
     ∈ TraceabilitySpec.docsOfType HazardFixtures.repeatedRiskIndex "risk"
   ∧ extractLinks HazardFixtures.risk020
     = [ {| Link.type := "analyzes"; Link.targetId := "HAZ-001" |} ]
   ∧ DocumentIndex.byId HazardFixtures.repeatedRiskIndex !! "HAZ-001"%string
     = Some HazardFixtures.hazard001
   ∧ validateHazardChains HazardFixtures.repeatedRiskDocs
       HazardFixtures.repeatedRiskIndex
       (buildDocLinks HazardFixtures.repeatedRiskDocs) [] []
     = ([], [])).
Proof.
  split; split_and!;
    solve [ vm_compute; reflexivity
          | apply (bool_decide_unpack _); vm_compute; reflexivity
          | unfold TraceabilitySpec.consistent;
            split_and!; apply (bool_decide_unpack _); vm_compute; reflexivity ].
Qed.

(** RISK-SW-001 analyzes HAZ-SW-001, which leads nowhere; RISK-SW-002
    analyzes HAZ-SW-002, whose situation HS-002 results in nothing;
    RISK-SW-003 analyzes a hazard that is not in the index. *)
Lemma C4_witness :
  TraceabilitySpec.consistent Samples.deviceDocs Samples.deviceIndex
  ∧ ∃ findings,
      Forall2 (ReportSpec.chainFinding Samples.deviceIndex)
        (TraceabilitySpec.docsOfType Samples.deviceIndex "risk") findings
      ∧ validateHazardChains Samples.deviceDocs Samples.deviceIndex
          (buildDocLinks Samples.deviceDocs) [] []
        = (([] ++ (concat findings).*1)%list, ([] ++ (concat findings).*2)%list).
Proof.
  split; [exact sample_consistent|].
  exact (C4_hazard_chain_of_the_first_analyzes_link Samples.deviceDocs
           Samples.deviceIndex [] [] sample_consistent).
Defined.

(** C5 at a tie.  Of forty software requirements twenty-three derive from
    a product requirement: 57.5 percent, and every rounding to the nearest
    integer gives 58.  The doubles 23/40 and then (23/40)*100 fall just
    below 57.5, and the entry reports 57.  With no source document the
    percentage is 100. *)
Theorem C5_percentage_of_23_in_40_is_57 :
  map (λ e, (TraceabilityCoverage.totalSources e,
             TraceabilityCoverage.coveredSources e,
             TraceabilityCoverage.coveragePercent e))
    (coverage (@validateTraceability Samples.asciiHost Samples.fortyDocs
                 Samples.fortyIndex Samples.derivationConfig))
  = [(40, 23, 57)%Z]
  ∧ TraceabilitySpec.exactPercent 23 40 = 58%Z
  ∧ (200 * 23 = (2 * 57 + 1) * 40)%Z
  ∧ coveragePercentOf 0 0 = 100%Z.
Proof. split_and!; vm_compute; reflexivity. Qed.

(** ** Link extraction *)

Section LinkProperties.
Import LinkSpec.

(** ** Character classes *)

Lemma startsWith_inv c s : startsWith c s = true → ∃ s', s = c ++ s'.
Proof.
  revert s. induction c as [|a c IH]; intros s Hs; [by exists s|].
  destruct s as [|b s]; [done|]. cbn [startsWith] in Hs.
  apply andb_true_iff in Hs as [Hab Hs]. apply Ascii.eqb_eq in Hab as ->.
  apply IH in Hs as [s' ->]. by exists s'.
Qed.

Lemma startsWith_app c s s' : startsWith c s = true → startsWith c (s ++ s') = true.
Proof. intros [r ->]%startsWith_inv. rewrite <- app_assoc. clear.
  induction c as [|a c IH]; [done|]. cbn. by rewrite Ascii.eqb_refl. Qed.

Lemma sane_oneOf chars : sane (oneOf chars).
Proof.
  intros s. unfold oneOf.
  destruct (List.find _ chars) as [c|] eqn:E; [|lia].
  apply find_some in E as [_ [s' ->]%startsWith_inv]. rewrite length_app. lia.
Qed.

Lemma sane_byteClass p : sane (byteClass p).
Proof. intros [|a s]; cbn; [lia|]. destruct (p a); lia. Qed.

Lemma sane_dotAt : sane dotAt.
Proof. intros [|a s]; cbn [dotAt length]; [lia|]. destruct (oneOf _ _); lia. Qed.

#[local] Hint Resolve sane_oneOf sane_byteClass sane_dotAt : core.

Lemma sane_whiteSpaceAt : sane whiteSpaceAt.
Proof. apply sane_oneOf. Qed.

#[local] Hint Resolve sane_whiteSpaceAt : core.

(** Each white-space character is taken whole: none is the start of
    another. *)
Lemma whiteSpaceAt_char c s :
  c ∈ whiteSpaceChars → c ≠ [] ∧ whiteSpaceAt (c ++ s) = length c.
Proof.
  revert c. apply Forall_forall.
  repeat (constructor; [split; [done|reflexivity]|]). constructor.
Qed.

Lemma whiteSpace_rowOf ws rest : whiteSpace ws → rowOf whiteSpaceAt ws rest.
Proof.
  induction 1 as [|c ws Hc _ IH]; [constructor|].
  destruct (whiteSpaceAt_char c (ws ++ rest) Hc) as [Hne Hlen].
  by constructor.
Qed.

Lemma Forall_rowOf p l rest :
  Forall (λ a, p a = true) l → rowOf (byteClass p) l rest.
Proof.
  induction 1 as [|a l Ha _ IH]; [constructor|].
  apply (rowOf_cons _ [a] l rest); [done| |done]. cbn. by rewrite Ha.
Qed.

Lemma isRowOf_sound t rounds : ∀ row rest,
  isRowOf t rounds row rest = true → rowOf t row rest.
Proof.
  induction rounds as [|rounds IH]; intros [|a row] rest Hrow;
    try done; try constructor.
  cbn [isRowOf] in Hrow.
  apply andb_true_iff in Hrow as [[Hpos Hlen]%andb_true_iff Hrow].
  apply Nat.ltb_lt in Hpos. apply Nat.leb_le in Hlen. apply IH in Hrow.
  rewrite <- (take_drop (t ((a :: row) ++ rest)) (a :: row)).
  constructor; [| |done].
  - intros Hnil. apply (f_equal length) in Hnil.
    rewrite length_take in Hnil. cbn [length] in *. lia.
  - rewrite app_assoc, take_drop, length_take. lia.
Qed.

Lemma rowOf_whiteSpaceAt_nil ws : rowOf whiteSpaceAt ws [] → whiteSpace ws.
Proof.
  remember [] as rest eqn:Hrest.
  induction 1 as [|c row rest Hne Hlen _ IH]; [constructor|]. subst rest.
  constructor; [|by apply IH].
  rewrite app_nil_r in Hlen. unfold whiteSpaceAt, oneOf in Hlen.
  destruct (List.find _ whiteSpaceChars) as [w|] eqn:E; [|by destruct c].
  apply find_some in E as [Hin [r Hr]%startsWith_inv].
  apply app_inj_1 in Hr as [-> _]; [|done]. by apply list_elem_of_In.
Qed.

(** A row of white space in front of a text that begins with a row of
    white space: the first row ends between two characters of the
    second. *)
Lemma rowOf_whiteSpace pre post : rowOf whiteSpaceAt pre post →
  ∀ ws rest, pre ++ post = ws ++ rest → whiteSpace ws →
  stops whiteSpaceAt rest →
  ∃ ws', whiteSpace ws' ∧ post = ws' ++ rest.
Proof.
  induction 1 as [post|c row post Hne Hlen _ IH]; intros ws rest Heq Hws Hstop.
  - exists ws. by split.
  - rewrite <- app_assoc in Heq. destruct Hws as [|w ws Hw Hws].
    + cbn [app] in Heq. rewrite Heq in Hlen. unfold stops in Hstop.
      rewrite Hstop in Hlen. by destruct c.
    + rewrite <- app_assoc in Heq.
      destruct (whiteSpaceAt_char w (ws ++ rest) Hw) as [_ Hw'].
      rewrite <- Heq, Hlen in Hw'.
      apply app_inj_1 in Heq as [-> Heq]; [|done].
      by eapply IH.
Qed.

(** ** Greedy repetition *)

Lemma greedy_some {R} t (k : nat → list ascii → option R) rounds : ∀ n s res,
  greedy t k rounds n s = Some res →
  ∃ j, k (j + n)%nat (drop j s) = Some res.
Proof.
  induction rounds as [|rounds IH]; intros n s res Hg; cbn [greedy] in Hg.
  - by exists 0%nat.
  - destruct (t s) as [|len] eqn:Ht; [by exists 0%nat|].
    destruct (greedy t k rounds (S len + n) (drop (S len) s)) as [r|] eqn:E;
      [|by exists 0%nat].
    injection Hg as ->. apply IH in E as [j Hk]. exists (S len + j)%nat.
    rewrite drop_drop in Hk.
    by replace (S len + j + n)%nat with (j + (S len + n))%nat by lia.
Qed.

Lemma greedy_inv {R} t (k : nat → list ascii → option R) rounds : ∀ n s res,
  sane t → greedy t k rounds n s = Some res →
  ∃ j, (j ≤ length s)%nat ∧ rowOf t (take j s) (drop j s)
       ∧ k (j + n)%nat (drop j s) = Some res.
Proof.
  induction rounds as [|rounds IH]; intros n s res Hsane Hg; cbn [greedy] in Hg.
  - exists 0%nat. split_and!; [lia|constructor|done].
  - destruct (t s) as [|len] eqn:Ht;
      [exists 0%nat; split_and!; [lia|constructor|done]|].
    destruct (greedy t k rounds (S len + n) (drop (S len) s)) as [r|] eqn:E;
      [|exists 0%nat; split_and!; [lia|constructor|done]].
    injection Hg as ->. apply IH in E as (j & Hj & Hrow & Hk); [|done].
    pose proof (Hsane s) as Hle. rewrite Ht in Hle.
    rewrite length_drop in Hj. rewrite drop_drop in Hk, Hrow.
    exists (S len + j)%nat. split_and!; [lia| |].
    + replace (take (S len + j) s)
        with (take (S len) s ++ take j (drop (S len) s)).
      2:{ apply take_take_drop. }
      constructor; [|
        |done].
      * intros Hnil. apply (f_equal length) in Hnil.
        rewrite length_take in Hnil. cbn [length] in Hnil. lia.
      * rewrite <- drop_drop, take_drop, take_drop, Ht, length_take. lia.
    + by replace (S len + j + n)%nat with (j + (S len + n))%nat by lia.
Qed.

(** Greedy repetition that cannot give back *)
Lemma greedy_max {R} t (k : nat → list ascii → option R) pre rest :
  rowOf t pre rest → ∀ rounds n res,
  stops t rest → (length (pre ++ rest) ≤ rounds)%nat →
  k (length pre + n)%nat rest = Some res →
  greedy t k rounds n (pre ++ rest) = Some res.
Proof.
  induction 1 as [rest|c row rest Hne Hlen _ IH]; intros rounds n res Hstop Hr Hk.
  - cbn [app length] in *. destruct rounds as [|rounds]; cbn [greedy]; [done|].
    unfold stops in Hstop. by rewrite Hstop.
  - destruct rounds as [|rounds].
    { rewrite !length_app in Hr. destruct c; [done|simpl in Hr; lia]. }
    cbn [greedy]. rewrite <- app_assoc, Hlen.
    destruct (length c) as [|len] eqn:Hc; [by destruct c|].
    rewrite <- Hc, drop_app_length.
    rewrite (IH rounds (length c + n)%nat res); [done|done| |].
    + rewrite <- app_assoc, length_app in Hr. lia.
    + rewrite length_app in Hk.
      by replace (length row + (length c + n))%nat
        with (length c + length row + n)%nat by lia.
Qed.

(** ** The length of a match *)

Lemma run_lower ic r : ∀ n cs ce s res,
  run ic r n cs ce s = Some res → (n + minLen r ≤ res.2)%nat.
Proof.
  induction r as [|a r IH]; intros n cs ce s res Hr.
  - simpl in Hr. injection Hr as <-. simpl. lia.
  - destruct a as [c|t|t|t| |]; cbn [run] in Hr; cbn [minLen takesChar].
    + destruct s as [|a s]; [done|]. destruct (litEq ic c a); [|done].
      apply IH in Hr. lia.
    + destruct (t s) as [|len]; [done|]. apply IH in Hr. lia.
    + apply greedy_some in Hr as (j & Hk). apply IH in Hk. lia.
    + destruct (t s) as [|len]; [done|].
      apply greedy_some in Hr as (j & Hk). apply IH in Hk. lia.
    + apply IH in Hr. lia.
    + apply IH in Hr. lia.
Qed.

Lemma run_upper ic r : Forall saneAtom r → ∀ n cs ce s res,
  run ic r n cs ce s = Some res → (res.2 ≤ n + length s)%nat.
Proof.
  induction 1 as [|a r Ha _ IH]; intros n cs ce s res Hr.
  - simpl in Hr. injection Hr as <-. simpl. lia.
  - destruct a as [c|t|t|t| |]; cbn [run] in Hr; cbn [saneAtom] in Ha.
    + destruct s as [|a s]; [done|]. destruct (litEq ic c a); [|done].
      apply IH in Hr. cbn [length]. lia.
    + pose proof (Ha s). destruct (t s) as [|len]; [done|]. apply IH in Hr.
      rewrite length_drop in Hr. lia.
    + apply greedy_inv in Hr as (j & Hj & _ & Hk); [|done]. apply IH in Hk.
      rewrite length_drop in Hk. lia.
    + pose proof (Ha s). destruct (t s) as [|len]; [done|].
      apply greedy_inv in Hr as (j & Hj & _ & Hk); [|done]. apply IH in Hk.
      rewrite !length_drop in Hk. rewrite length_drop in Hj. lia.
    + apply IH in Hr. lia.
    + apply IH in Hr. lia.
Qed.

Lemma run_bounds ic r n cs ce s res :
  Forall saneAtom r → run ic r n cs ce s = Some res →
  (n + minLen r ≤ res.2 ∧ res.2 ≤ n + length s)%nat.
Proof. intros Hs Hr. split; [by eapply run_lower|by eapply run_upper]. Qed.

Lemma matchHere_bounds re s i m :
  Forall saneAtom (atoms re) → matchHere re s i = Some m →
  index m = i ∧ (minLen (atoms re) ≤ length (matched m) ≤ length s)%nat.
Proof.
  intros Hsane. unfold matchHere.
  destruct (run (ignoreCase re) (atoms re) 0 0 0 s) as [[[cs ce] n]|] eqn:E; [|done].
  intros [= <-]. simpl. apply run_bounds in E; [|done]. simpl in E.
  rewrite length_take. lia.
Qed.

Lemma search_bounds re s : Forall saneAtom (atoms re) → ∀ i m,
  search re s i = Some m →
  (i ≤ index m ∧ index m + length (matched m) ≤ i + length s
   ∧ minLen (atoms re) ≤ length (matched m))%nat.
Proof.
  intros Hsane. induction s as [|a s IH]; intros i m Hs; simpl in Hs.
  - destruct (matchHere re [] i) eqn:E; [|done]. injection Hs as ->.
    apply matchHere_bounds in E; [|done]. simpl in *. lia.
  - destruct (matchHere re (a :: s) i) eqn:E.
    + injection Hs as ->. apply matchHere_bounds in E; [|done]. simpl in *. lia.
    + apply IH in Hs. simpl. lia.
Qed.

Lemma exec_progress re str lastIndex m lastIndex' :
  Forall saneAtom (atoms re) →
  exec re str lastIndex = (Some m, lastIndex') →
  (lastIndex + minLen (atoms re) ≤ lastIndex' ≤ length str)%nat.
Proof.
  intros Hsane. unfold exec. destruct (length str <? lastIndex)%nat eqn:E; [done|].
  apply Nat.ltb_ge in E.
  destruct (search re (drop lastIndex str) lastIndex) as [m'|] eqn:Hs; [|done].
  intros [= -> <-]. apply search_bounds in Hs; [|done].
  rewrite length_drop in Hs. lia.
Qed.

Lemma exec_null re str lastIndex lastIndex' :
  exec re str lastIndex = (None, lastIndex') → lastIndex' = 0%nat.
Proof.
  unfold exec. destruct (length str <? lastIndex)%nat; [by intros [= <-]|].
  destruct (search re (drop lastIndex str) lastIndex); [done|by intros [= <-]].
Qed.

(** The loop ends, and leaves the pattern's [lastIndex] at 0. *)
Lemma whileExec_terminates pattern ty text fuel : ∀ lastIndex links,
  takesACharacter pattern →
  (1 ≤ fuel)%nat → (length text < lastIndex + fuel)%nat →
  ∃ links', whileExec fuel pattern ty text lastIndex links = Some (links', 0%nat).
Proof.
  induction fuel as [|fuel IH]; intros lastIndex links [Hmin Hsane] H1 Hfuel; [lia|].
  simpl. destruct (exec pattern text lastIndex) as [[m|] lastIndex'] eqn:E.
  - apply exec_progress in E; [|done]. apply IH; [done|lia|lia].
  - apply exec_null in E as ->. by eexists.
Qed.

Lemma whileExec_more_fuel pattern ty text fuel : ∀ lastIndex links r fuel',
  whileExec fuel pattern ty text lastIndex links = Some r → (fuel ≤ fuel')%nat →
  whileExec fuel' pattern ty text lastIndex links = Some r.
Proof.
  induction fuel as [|fuel IH]; intros lastIndex links r fuel' Hr Hle; [done|].
  destruct fuel' as [|fuel']; [lia|]. simpl in *.
  destruct (exec pattern text lastIndex) as [[m|] lastIndex']; [|done].
  eapply IH; [done|lia].
Qed.

Lemma linkPatterns_take_a_character :
  Forall (λ pt : RegExp * string, takesACharacter pt.1) linkPatterns.
Proof.
  repeat (constructor;
          [split; [vm_compute; lia|repeat constructor; cbn; auto]|]).
  constructor.
Qed.

Lemma forPatterns_terminates patterns text fuel : ∀ links,
  Forall (λ pt : RegExp * string, takesACharacter pt.1) patterns →
  (length text < fuel)%nat →
  ∃ links', forPatterns fuel patterns text links = Some links'.
Proof.
  induction patterns as [|[pattern ty] patterns IH]; intros links Hall Hfuel.
  - by eexists.
  - inversion Hall as [|? ? Hp Hrest]; subst. simpl in *.
    destruct (whileExec_terminates pattern ty text fuel 0 links)
      as [links' ->]; [done|lia|lia|].
    by apply IH.
Qed.

Lemma forPatterns_more_fuel patterns text fuel fuel' : ∀ links r,
  forPatterns fuel patterns text links = Some r → (fuel ≤ fuel')%nat →
  forPatterns fuel' patterns text links = Some r.
Proof.
  induction patterns as [|[pattern ty] patterns IH]; intros links r Hr Hle; [done|].
  simpl in *.
  destruct (whileExec fuel pattern ty text 0 links) as [[links' li]|] eqn:E; [|done].
  rewrite (whileExec_more_fuel _ _ _ _ _ _ _ _ E Hle). by apply IH.
Qed.

Lemma length_list_ascii_of_string s :
  length (list_ascii_of_string s) = String.length s.
Proof. induction s; simpl; congruence. Qed.

Lemma list_ascii_of_string_app s1 s2 :
  list_ascii_of_string (s1 +:+ s2)
  = list_ascii_of_string s1 ++ list_ascii_of_string s2.
Proof. induction s1 as [|a s1 IH]; simpl; [done|]. by rewrite IH. Qed.

#[local] Hint Rewrite @length_app @length_cons length_list_ascii_of_string
  : text_length.

(** [extractLinks] returns: the fuel of its definition is enough, and more
    fuel changes nothing. *)
Lemma extractLinks_terminates doc fuel :
  (String.length (Document.body doc) < fuel)%nat →
  extractLinksFuel fuel doc = Some (extractLinks doc).
Proof.
  intros Hfuel. unfold extractLinks, extractLinksFuel.
  destruct (forPatterns_terminates linkPatterns
              (list_ascii_of_string (Document.body doc))
              (S (String.length (Document.body doc))) [])
    as [links Hlinks].
  - apply linkPatterns_take_a_character.
  - rewrite length_list_ascii_of_string. lia.
  - rewrite Hlinks. cbn [from_option]. eapply forPatterns_more_fuel; [done|lia].
Qed.


(** ** What a literal needs *)

Lemma caseless_star : caseless "*".
Proof.
  intros [] [[] [] [] [] [] [] [] []] Ha; vm_compute in Ha;
    first [discriminate | reflexivity].
Qed.

Lemma caseless_open : caseless "[".
Proof.
  intros [] [[] [] [] [] [] [] [] []] Ha; vm_compute in Ha;
    first [discriminate | reflexivity].
Qed.

Lemma caseless_close : caseless "]".
Proof.
  intros [] [[] [] [] [] [] [] [] []] Ha; vm_compute in Ha;
    first [discriminate | reflexivity].
Qed.

Lemma litEq_refl ic a : litEq ic a a = true.
Proof. unfold litEq. destruct ic; apply Ascii.eqb_refl. Qed.

Lemma occ_app c s1 s2 : occ c (s1 ++ s2) = (occ c s1 + occ c s2)%nat.
Proof. induction s1 as [|a s1 IH]; simpl; [done|]. rewrite IH. lia. Qed.

Lemma occ_drop c j s : (occ c (drop j s) ≤ occ c s)%nat.
Proof.
  revert j. induction s as [|a s IH]; intros [|j]; simpl; try lia.
  specialize (IH j). lia.
Qed.

Lemma occ_zero c s : occ c s = 0%nat ↔ ¬ In c s.
Proof.
  induction s as [|a s IH]; simpl; [tauto|].
  destruct (Ascii.eqb_spec a c) as [->|Hne]; [split; [lia|tauto]|].
  rewrite Nat.add_0_l, IH. tauto.
Qed.

Lemma run_needs ic c r : caseless c → ∀ n cs ce s res,
  run ic r n cs ce s = Some res → (litCount c r ≤ occ c s)%nat.
Proof.
  intros Hc. induction r as [|a r IH]; intros n cs ce s res Hr; [simpl; lia|].
  destruct a as [c'|t|t|t| |]; cbn [run] in Hr; cbn [litCount].
  - destruct s as [|a s]; [done|]. destruct (litEq ic c' a) eqn:E; [|done].
    apply IH in Hr. simpl.
    destruct (Ascii.eqb_spec c' c) as [->|Hne]; [|lia].
    apply Hc in E as ->. rewrite Ascii.eqb_refl. lia.
  - destruct (t s) as [|len]; [done|]. apply IH in Hr.
    pose proof (occ_drop c (S len) s). lia.
  - apply greedy_some in Hr as (j & Hk). apply IH in Hk.
    pose proof (occ_drop c j s). lia.
  - destruct (t s) as [|len]; [done|].
    apply greedy_some in Hr as (j & Hk). apply IH in Hk.
    pose proof (occ_drop c j (drop (S len) s)).
    pose proof (occ_drop c (S len) s). lia.
  - by apply IH in Hr.
  - by apply IH in Hr.
Qed.

Lemma matchHere_needs re c s i :
  caseless c → (occ c s < litCount c (atoms re))%nat → matchHere re s i = None.
Proof.
  intros Hc Hlt. unfold matchHere.
  destruct (run (ignoreCase re) (atoms re) 0 0 0 s) as [res|] eqn:E; [|done].
  apply (run_needs _ c) in E; [lia|done].
Qed.

Lemma search_needs re c s : ∀ i,
  caseless c → (occ c s < litCount c (atoms re))%nat → search re s i = None.
Proof.
  induction s as [|a s IH]; intros i Hc Hlt; simpl.
  - by rewrite (matchHere_needs re c).
  - rewrite (matchHere_needs re c) by done. apply IH; [done|]. simpl in Hlt. lia.
Qed.

Lemma scanAll_needs re c s : ∀ skip,
  caseless c → (occ c s < litCount c (atoms re))%nat → scanAll re s skip = [].
Proof.
  induction s as [|a s IH]; intros skip Hc Hlt; simpl.
  - rewrite (matchHere_needs re c) by done. by destruct skip.
  - destruct skip; [|apply IH; [done|simpl in Hlt; lia]].
    rewrite (matchHere_needs re c) by done. apply IH; [done|]. simpl in Hlt. lia.
Qed.

Lemma exec_needs re c text lastIndex :
  caseless c → (occ c (drop lastIndex text) < litCount c (atoms re))%nat →
  exec re text lastIndex = (None, 0%nat).
Proof.
  intros Hc Hlt. unfold exec. destruct (length text <? lastIndex)%nat; [done|].
  by rewrite (search_needs re c).
Qed.

(** ** The marker *)

Lemma run_lits ic L r : ∀ n cs ce s,
  run ic (lits L ++ r) n cs ce (list_ascii_of_string L ++ s)
  = run ic r (n + String.length L)%nat cs ce s.
Proof.
  unfold lits. induction L as [|a L IH]; intros n cs ce s; simpl.
  - by rewrite Nat.add_0_r.
  - rewrite litEq_refl, IH. f_equal. lia.
Qed.

(** With the [i] flag the literals of a label take the label in any mix
    of capitals and small letters. *)
Lemma run_spelled (L : list ascii) r : ∀ marker n cs ce s,
  map upperAscii marker = map upperAscii L →
  run true (map Lit L ++ r) n cs ce (marker ++ s)
  = run true r (n + length marker)%nat cs ce s.
Proof.
  induction L as [|c L IH]; intros [|a marker] n cs ce s Hm; try done.
  - cbn. by rewrite Nat.add_0_r.
  - cbn [map] in Hm. injection Hm as Ha Hm.
    cbn [map app run]. unfold litEq. rewrite Ha, Ascii.eqb_refl, IH by done.
    f_equal. cbn [length]. lia.
Qed.

(** And nothing else. *)
Lemma run_marker (L : list ascii) r : ∀ n cs ce s res,
  run true (map Lit L ++ r) n cs ce s = Some res → startsWithMarker L s = true.
Proof.
  induction L as [|c L IH]; intros n cs ce s res Hr; [done|].
  cbn [map app run] in Hr. destruct s as [|a s]; [done|].
  cbn [startsWithMarker]. destruct (litEq true c a); [|done]. by eapply IH.
Qed.

Lemma take_prefix {A} (l l1 l2 : list A) n :
  l = l1 ++ l2 → n = length l1 → take n l = l1.
Proof. intros -> ->. apply take_app_length. Qed.

Lemma take_drop_mid {A} (l pre mid post : list A) cs len :
  l = pre ++ mid ++ post → cs = length pre → len = length mid →
  take len (drop cs l) = mid.
Proof. intros -> -> ->. by rewrite drop_app_length, take_app_length. Qed.

Lemma whiteSpaceAt_open s : stops whiteSpaceAt ("["%char :: s).
Proof. reflexivity. Qed.

Lemma byteClass_stops p a s : p a = false → stops (byteClass p) (a :: s).
Proof. intros Ha. unfold stops. cbn. by rewrite Ha. Qed.

(** A marker, white space, and a bracketed id: the pattern of a bracketed
    marker matches at once and captures the id. *)
Lemma bracketed_matches label ty marker ws i rest :
  spells marker label → whiteSpace ws →
  i ≠ [] → Forall (λ a, notCloseBracket a = true) i →
  let text := marker ++ ws ++ "["%char :: i ++ "]"%char :: rest in
  matchHere (bracketed label ty).1 text 0
  = Some {| index := 0;
            matched := marker ++ ws ++ "["%char :: i ++ ["]"%char];
            group1 := i |}.
Proof.
  intros Hm Hws Hne Hid text. subst text.
  unfold matchHere, bracketed, fst, atoms, ignoreCase, lits.
  fold (markerOf label). rewrite run_spelled by exact Hm. cbn [run].
  destruct i as [|a i]; [done|]. inversion Hid as [|? ? Ha Hi]; subst.
  erewrite greedy_max;
    [|by apply whiteSpace_rowOf|apply whiteSpaceAt_open|done|].
  2:{ cbn [run]. rewrite litEq_refl. cbn [run app byteClass]. rewrite Ha.
      cbn [drop]. rewrite drop_0.
      erewrite greedy_max;
        [reflexivity|by apply Forall_rowOf|by apply byteClass_stops| |].
      - autorewrite with text_length. cbn [length]. lia.
      - cbv beta iota. rewrite litEq_refl. reflexivity. }
  cbv beta iota zeta. f_equal. f_equal.
  - eapply (take_prefix _ _ rest); [list_shape|list_length].
  - eapply (take_drop_mid _ (marker ++ ws ++ ["["%char])
              _ ("]"%char :: rest)); [list_shape|list_length..].
Qed.

Lemma dotAt_le s : (dotAt s ≤ 1)%nat.
Proof. destruct s; cbn [dotAt]; [lia|]. destruct (oneOf _ _); lia. Qed.

Lemma rowOf_dotAt_cons a line rest :
  rowOf dotAt (a :: line) rest →
  dotAt ((a :: line) ++ rest) = 1%nat ∧ rowOf dotAt line rest.
Proof.
  inversion 1 as [|c row rest' Hne Hlen Hrow Heq]; subst.
  pose proof (dotAt_le (c ++ row ++ rest)) as Hle. rewrite Hlen in Hle.
  destruct c as [|b [|b' c]]; [done| |simpl in Hle; lia].
  cbn [app] in Heq. injection Heq as -> ->. done.
Qed.

(** A marker, white space, and the rest of a line that starts with a
    character that is no white space: the pattern of a rest-of-line marker
    matches at once and captures that rest. *)
Lemma restOfLine_matches label ty marker ws a line rest :
  spells marker label → whiteSpace ws →
  stops whiteSpaceAt ((a :: line) ++ rest) →
  rowOf dotAt (a :: line) rest → stops dotAt rest →
  let text := marker ++ ws ++ (a :: line) ++ rest in
  matchHere (restOfLine label ty).1 text 0
  = Some {| index := 0;
            matched := marker ++ ws ++ a :: line;
            group1 := a :: line |}.
Proof.
  intros Hm Hws Ha Hline Hstop text. subst text.
  unfold matchHere, restOfLine, fst, atoms, ignoreCase, lits.
  fold (markerOf label). rewrite run_spelled by exact Hm. cbn [run].
  apply rowOf_dotAt_cons in Hline as [Hdot Hline].
  erewrite greedy_max; [|by apply whiteSpace_rowOf|done|done|].
  2:{ cbn [run]. rewrite Hdot. cbn [app drop]. rewrite drop_0.
      erewrite greedy_max; [reflexivity|done|done| |reflexivity].
      cbn [app length]. lia. }
  cbv beta iota zeta. f_equal. f_equal.
  - eapply (take_prefix _ _ rest); [list_shape|list_length].
  - eapply (take_drop_mid _ (marker ++ ws) _ rest);
      [list_shape|list_length..].
Qed.

Lemma whiteSpace_head ws s :
  whiteSpace ws → ws ≠ [] → head (ws ++ s) ≠ Some "["%char.
Proof.
  destruct 1 as [|w ws Hw _]; [done|]. intros _.
  destruct (whiteSpaceAt_char w (ws ++ s) Hw) as [Hne Hlen].
  rewrite <- app_assoc. intros Hhead.
  destruct w as [|b w]; [done|]. cbn in Hhead. injection Hhead as ->.
  cbn [app] in Hlen. by rewrite whiteSpaceAt_open in Hlen.
Qed.

(** No opening bracket after the white space: the pattern of a bracketed
    marker does not match here. *)
Lemma bracketed_needs_bracket label ty marker ws rest :
  spells marker label → whiteSpace ws → noBracketNext rest →
  matchHere (bracketed label ty).1 (marker ++ ws ++ rest) 0 = None.
Proof.
  intros Hm Hws [Hstop Hhead].
  unfold matchHere, bracketed, fst, atoms, ignoreCase, lits.
  fold (markerOf label). rewrite run_spelled by exact Hm. cbn [run].
  destruct (greedy _ _ _ _ _) as [res|] eqn:E; [|done]. exfalso.
  apply greedy_inv in E as (j & Hj & Hrow & Hk); [|done].
  destruct (rowOf_whiteSpace _ _ Hrow ws rest) as (ws' & Hws' & Hdrop);
    [apply take_drop|done|done|].
  rewrite Hdrop in Hk.
  destruct (ws' ++ rest) as [|b s'] eqn:Ed; [done|].
  destruct (litEq true "[" b) eqn:Eb; [|done].
  apply caseless_open in Eb as ->.
  destruct ws' as [|b ws']; [cbn [app] in Ed; by rewrite Ed in Hhead|].
  eapply whiteSpace_head; [exact Hws'|done|]. by rewrite Ed.
Qed.

(** ** The loop of one pattern *)

Lemma matchHere_index re s i :
  matchHere re s i
  = (λ m, {| index := i; matched := matched m; group1 := group1 m |})
    <$> matchHere re s 0.
Proof. unfold matchHere. by destruct (run _ _ _ _ _ _) as [[[? ?] ?]|]. Qed.

Lemma search_shift re s : ∀ d i,
  search re s (d + i)
  = (λ m, {| index := d + index m; matched := matched m; group1 := group1 m |})
    <$> search re s i.
Proof.
  induction s as [|a s IH]; intros d i; cbn [search].
  - rewrite (matchHere_index re [] (d + i)), (matchHere_index re [] i).
    by destruct (matchHere re [] 0).
  - rewrite (matchHere_index re _ (d + i)), (matchHere_index re _ i).
    destruct (matchHere re (a :: s) 0); [done|]. cbn [fmap option_fmap option_map].
    rewrite <- IH. f_equal. lia.
Qed.

Lemma whileExec_shift re ty pre s fuel : ∀ i links,
  whileExec fuel re ty (pre ++ s) (length pre + i) links
  = whileExec fuel re ty s i links.
Proof.
  induction fuel as [|fuel IH]; intros i links; [done|]. cbn [whileExec].
  unfold exec. rewrite length_app.
  replace (length pre + length s <? length pre + i)%nat with (length s <? i)%nat
    by (destruct (Nat.ltb_spec (length s) i),
          (Nat.ltb_spec (length pre + length s) (length pre + i)); lia).
  destruct (length s <? i)%nat; [done|].
  rewrite <- drop_drop, drop_app_length, search_shift.
  destruct (search re (drop i s) i) as [m|]; [|done].
  cbn [fmap option_fmap option_map index matched group1].
  rewrite <- Nat.add_assoc. apply IH.
Qed.

Lemma whileExec_acc re ty text fuel : ∀ lastIndex links,
  whileExec fuel re ty text lastIndex links
  = (λ r : list Link * nat, ((links ++ r.1)%list, r.2))
    <$> whileExec fuel re ty text lastIndex [].
Proof.
  induction fuel as [|fuel IH]; intros lastIndex links; [done|].
  cbn [whileExec]. destruct (exec re text lastIndex) as [[m|] lastIndex'].
  - rewrite IH, (IH _ ([] ++ _)%list).
    destruct (whileExec fuel re ty text lastIndex' []) as [[l x]|]; [|done].
    cbn. by rewrite app_assoc.
  - cbn. by rewrite app_nil_r.
Qed.

(** The loop with any fuel that is enough. *)
Lemma linksFrom_fuel q text lastIndex fuel :
  takesACharacter q.1 → (1 ≤ fuel)%nat → (length text < lastIndex + fuel)%nat →
  whileExec fuel q.1 q.2 text lastIndex [] = Some (linksFrom q text lastIndex, 0%nat).
Proof.
  intros Hq H1 Hfuel. unfold linksFrom.
  destruct (whileExec_terminates q.1 q.2 text fuel lastIndex [] Hq H1 Hfuel)
    as [links Hlinks].
  destruct (whileExec_terminates q.1 q.2 text (S (length text)) lastIndex [] Hq)
    as [links' Hlinks']; [lia..|].
  rewrite Hlinks', Hlinks. do 2 f_equal.
  destruct (Nat.le_ge_cases fuel (S (length text))) as [Hle|Hle].
  - rewrite (whileExec_more_fuel _ _ _ _ _ _ _ _ Hlinks Hle) in Hlinks'.
    congruence.
  - rewrite (whileExec_more_fuel _ _ _ _ _ _ _ _ Hlinks' Hle) in Hlinks.
    congruence.
Qed.

Lemma linksFrom_step q text lastIndex m lastIndex' :
  takesACharacter q.1 →
  exec q.1 text lastIndex = (Some m, lastIndex') →
  linksFrom q text lastIndex
  = linksOfMatch q.2 (group1 m) ++ linksFrom q text lastIndex'.
Proof.
  intros Hq He.
  pose proof (exec_progress _ _ _ _ _ (proj2 Hq) He) as Hp.
  destruct Hq as [Hmin Hsane].
  unfold linksFrom at 1. cbn [whileExec]. rewrite He, whileExec_acc.
  rewrite linksFrom_fuel; [by rewrite app_nil_l|done|lia|lia].
Qed.

Lemma linksFrom_null q text lastIndex lastIndex' :
  exec q.1 text lastIndex = (None, lastIndex') → linksFrom q text lastIndex = [].
Proof. intros He. unfold linksFrom. cbn [whileExec]. by rewrite He. Qed.

Lemma linksFrom_shift q pre s i :
  takesACharacter q.1 →
  linksFrom q (pre ++ s) (length pre + i) = linksFrom q s i.
Proof.
  intros Hq. unfold linksFrom at 1. rewrite whileExec_shift.
  rewrite linksFrom_fuel; [done|done|lia|rewrite length_app; lia].
Qed.

(** A text in front of which the pattern matches nowhere adds no link. *)
Lemma search_skip re pre s :
  (∀ j, (j < length pre)%nat → matchHere re (drop j (pre ++ s)) 0 = None) →
  ∀ i, search re (pre ++ s) i = search re s (length pre + i).
Proof.
  induction pre as [|a pre IH]; intros Hnone i; [done|].
  pose proof (Hnone 0%nat ltac:(cbn [length]; lia)) as H0.
  rewrite drop_0 in H0. cbn [app] in H0.
  cbn [app search]. rewrite matchHere_index, H0.
  cbn [fmap option_fmap option_map]. rewrite IH.
  - f_equal. cbn [length]. lia.
  - intros j Hj. apply (Hnone (S j)). cbn [length]. lia.
Qed.

Lemma linksVia_skip q pre s :
  takesACharacter q.1 →
  (∀ j, (j < length pre)%nat → matchHere q.1 (drop j (pre ++ s)) 0 = None) →
  linksVia q (pre ++ s) = linksVia q s.
Proof.
  intros Hq Hnone. unfold linksVia.
  assert (exec q.1 (pre ++ s) 0
          = match exec q.1 s 0 with
            | (Some m, lastIndex) =>
                (Some {| index := length pre + index m; matched := matched m;
                         group1 := group1 m |}, (length pre + lastIndex)%nat)
            | (None, lastIndex) => (None, lastIndex)
            end) as He.
  { unfold exec. cbn [Nat.ltb Nat.leb]. rewrite !drop_0.
    rewrite search_skip by done. rewrite search_shift.
    destruct (search q.1 s 0) as [m|]; [|done].
    cbn [fmap option_fmap option_map index matched]. f_equal. lia. }
  destruct (exec q.1 s 0) as [[m|] lastIndex] eqn:Es.
  - rewrite (linksFrom_step _ _ _ _ _ Hq He), (linksFrom_step _ _ _ _ _ Hq Es).
    cbn [group1]. by rewrite linksFrom_shift.
  - by rewrite (linksFrom_null _ _ _ _ He), (linksFrom_null _ _ _ _ Es).
Qed.

Lemma linksVia_match q pre rest m :
  takesACharacter q.1 →
  matchHere q.1 (pre ++ rest) 0 = Some m → matched m = pre →
  linksVia q (pre ++ rest) = linksOfMatch q.2 (group1 m) ++ linksVia q rest.
Proof.
  intros Hq Hm Hpre. unfold linksVia.
  assert (exec q.1 (pre ++ rest) 0 = (Some m, length pre)) as He.
  { unfold exec. cbn [Nat.ltb Nat.leb]. rewrite drop_0.
    assert (search q.1 (pre ++ rest) 0 = Some m) as ->
      by (destruct (pre ++ rest); cbn [search]; by rewrite Hm).
    rewrite Hpre. f_equal.
    apply matchHere_bounds in Hm as [-> _]; [done|apply Hq]. }
  rewrite (linksFrom_step _ _ _ _ _ Hq He).
  f_equal. rewrite <- (Nat.add_0_r (length pre)). by apply linksFrom_shift.
Qed.

Lemma linksVia_needs q c text :
  caseless c → (occ c text < litCount c (atoms q.1))%nat → linksVia q text = [].
Proof.
  intros Hc Hocc. eapply linksFrom_null, (exec_needs _ c); [done|].
  by rewrite drop_0.
Qed.

(** [extractLinks] is the loops of the patterns one after the other. *)
Lemma forPatterns_linksVia patterns text fuel : ∀ links,
  Forall (λ pt : RegExp * string, takesACharacter pt.1) patterns →
  (length text < fuel)%nat →
  forPatterns fuel patterns text links
  = Some (links ++ concat (map (λ q, linksVia q text) patterns)).
Proof.
  induction patterns as [|[pattern ty] patterns IH]; intros links Hall Hfuel.
  - cbn. by rewrite app_nil_r.
  - inversion Hall as [|? ? Hp Hrest]; subst. cbn [forPatterns map concat].
    rewrite whileExec_acc.
    rewrite (linksFrom_fuel (pattern, ty)) by (done || lia).
    cbn [fmap option_fmap option_map fst snd].
    rewrite IH by done. by rewrite app_assoc.
Qed.

Lemma extractLinks_linksVia doc :
  extractLinks doc = concat (map (λ q, linksVia q (bodyText doc)) linkPatterns).
Proof.
  unfold extractLinks, extractLinksFuel.
  rewrite forPatterns_linksVia.
  - done.
  - apply linkPatterns_take_a_character.
  - rewrite length_list_ascii_of_string. lia.
Qed.


(** ** The links of one match *)

Lemma matchHere_idPattern_other a s i :
  a ≠ "["%char → matchHere idPattern (a :: s) i = None.
Proof.
  intros Ha. unfold matchHere, idPattern. cbn [atoms ignoreCase run].
  unfold litEq. destruct (Ascii.eqb_spec "[" a) as [Heq|Hne]; [congruence|done].
Qed.

Lemma scanAll_skip_sep sep s :
  noOpen sep → scanAll idPattern (sep ++ s) 0 = scanAll idPattern s 0.
Proof.
  induction 1 as [|a sep Ha _ IH]; [done|]. cbn [app scanAll].
  by rewrite matchHere_idPattern_other.
Qed.

Lemma scanAll_skip re pre s :
  scanAll re (pre ++ s) (length pre) = scanAll re s 0.
Proof. induction pre as [|a pre IH]; [done|]. simpl. apply IH. Qed.

Lemma isBracket_false_notClose a : isBracket a = false → notCloseBracket a = true.
Proof.
  unfold isBracket, notCloseBracket, isCloseBracket.
  intros [_ ->]%orb_false_iff. done.
Qed.

Lemma matchHere_idPattern_id i s :
  plainId i →
  matchHere idPattern (bracketedId i ++ s) 0
  = Some {| index := 0; matched := bracketedId i; group1 := i |}.
Proof.
  intros [Hne Hall]. destruct i as [|a i]; [done|].
  inversion Hall as [|? ? Ha Hi]; subst.
  unfold matchHere, idPattern, bracketedId. cbn [atoms ignoreCase run app].
  rewrite litEq_refl. cbn [run byteClass].
  rewrite (isBracket_false_notClose _ Ha). cbn [drop]. rewrite drop_0.
  rewrite <- app_assoc.
  erewrite greedy_max;
    [|apply Forall_rowOf; eapply Forall_impl;
        [exact Hi|apply isBracket_false_notClose]
     |by apply byteClass_stops
     |autorewrite with text_length; cbn [length]; lia|].
  2:{ cbn [run app]. rewrite litEq_refl. reflexivity. }
  cbv beta iota zeta. f_equal. f_equal.
  - eapply (take_prefix _ _ s); [list_shape|list_length].
  - eapply (take_drop_mid _ ["["%char] _ ("]"%char :: s));
      [list_shape|list_length..].
Qed.

Lemma scanAll_enumeration items tail :
  Forall wellFormedItem items → noOpen tail →
  scanAll idPattern (enumeration items tail) 0
  = map (λ it, bracketedId it.2) items.
Proof.
  intros Hitems Htail. induction Hitems as [|[sep i] items [Hsep Hid] _ IH].
  - simpl. rewrite <- (app_nil_r tail), scanAll_skip_sep by done. reflexivity.
  - cbn [enumeration map snd]. simpl in Hsep, Hid.
    rewrite scanAll_skip_sep by done.
    unfold bracketedId at 1. cbn [app scanAll].
    fold (bracketedId i).
    change ("["%char :: (i ++ ["]"%char]) ++ enumeration items tail)
      with (bracketedId i ++ enumeration items tail).
    rewrite (matchHere_idPattern_id i) by done. cbn [matched].
    f_equal.
    replace (length (bracketedId i) - 1)%nat with (length (i ++ ["]"%char]))
      by (unfold bracketedId; cbn [length]; lia).
    rewrite scanAll_skip. exact IH.
Qed.

Lemma removeAll_bracket a s :
  isBracket a = true →
  removeAll bracketPattern (a :: s) 0 = removeAll bracketPattern s 0.
Proof.
  intros Ha. unfold bracketPattern.
  cbn [removeAll]. unfold matchHere. cbn [atoms ignoreCase run byteClass].
  rewrite Ha. reflexivity.
Qed.

Lemma removeAll_other a s :
  isBracket a = false →
  removeAll bracketPattern (a :: s) 0 = a :: removeAll bracketPattern s 0.
Proof.
  intros Ha. unfold bracketPattern.
  cbn [removeAll]. unfold matchHere. cbn [atoms ignoreCase run byteClass].
  rewrite Ha. reflexivity.
Qed.

Lemma removeAll_bracketedId i :
  Forall (λ a, isBracket a = false) i →
  removeAll bracketPattern (bracketedId i) 0 = i.
Proof.
  intros Hi. unfold bracketedId. rewrite removeAll_bracket by done.
  induction Hi as [|a i Ha _ IH]; cbn [app].
  - by rewrite removeAll_bracket.
  - rewrite removeAll_other by done. by rewrite IH.
Qed.

(** One link for each bracketed id of the captured text. *)
Lemma linksOfMatch_enumeration ty items tail :
  items ≠ [] → Forall wellFormedItem items → noOpen tail →
  linksOfMatch ty (enumeration items tail)
  = map (λ it, mkLink ty it.2) items.
Proof.
  intros Hne Hitems Htail. unfold linksOfMatch, matchAll.
  rewrite scanAll_enumeration by done.
  destruct items as [|it items]; [done|]. cbn [map].
  inversion Hitems as [|? ? [_ [_ Hit]] Hrest]; subst.
  rewrite removeAll_bracketedId by done. f_equal.
  clear Hne Hitems. induction Hrest as [|it' items [_ [_ Hit']] _ IH]; [done|].
  cbn [map]. rewrite removeAll_bracketedId by done. by rewrite IH.
Qed.

(** No closing bracket in the captured text: the trimmed text is the id. *)
Lemma linksOfMatch_plain ty text :
  ¬ In "]"%char text →
  linksOfMatch ty text
  = match trim text with
    | [] => []
    | i => [mkLink ty i]
    end.
Proof.
  intros Hno. unfold linksOfMatch, matchAll.
  rewrite (scanAll_needs idPattern "]"); [done|apply caseless_close|].
  apply occ_zero in Hno. rewrite Hno. simpl. lia.
Qed.

(** ** Trimming *)

Lemma oneOf_zero chars s :
  Forall (λ c, c ≠ []) chars →
  oneOf chars s = 0%nat ↔ Forall (λ c, startsWith c s = false) chars.
Proof.
  intros Hne. unfold oneOf.
  destruct (List.find _ chars) as [c|] eqn:E.
  - apply find_some in E as [Hin Hc]. split.
    + intros Hlen. eapply Forall_forall in Hne; [|by apply list_elem_of_In].
      by destruct c.
    + intros Hall. eapply Forall_forall in Hall; [|by apply list_elem_of_In].
      congruence.
  - split; [|done]. intros _. apply Forall_forall. intros c Hc%list_elem_of_In.
    by eapply find_none in E.
Qed.

Lemma whiteSpaceChars_nonempty : Forall (λ c : list ascii, c ≠ []) whiteSpaceChars.
Proof. repeat constructor; done. Qed.

(** A text that does not start with white space keeps its start when
    more text follows, and the other way round. *)
Lemma stops_whiteSpaceAt_app s rest :
  stops whiteSpaceAt (s ++ rest) → stops whiteSpaceAt s.
Proof.
  unfold stops, whiteSpaceAt.
  rewrite !oneOf_zero by apply whiteSpaceChars_nonempty.
  intros Hall. eapply Forall_impl; [exact Hall|]. intros c Hc. cbv beta in Hc.
  destruct (startsWith c s) eqn:E; [|done].
  by rewrite (startsWith_app _ _ rest E) in Hc.
Qed.

Lemma dropClass_nil t rounds : sane t → ∀ s,
  dropClass t rounds s = [] → s ≠ [] →
  ∃ pre c, s = pre ++ c ∧ c ≠ [] ∧ t c = length c.
Proof.
  intros Hsane. induction rounds as [|rounds IH]; intros s Hd Hs; [done|].
  cbn [dropClass] in Hd. destruct (t s) as [|len] eqn:Ht; [done|].
  destruct (drop (S len) s) as [|b s'] eqn:Ed.
  - exists [], s. split_and!; [done..|].
    pose proof (Hsane s) as Hle. rewrite Ht in Hle.
    apply (f_equal length) in Ed. rewrite length_drop in Ed.
    cbn [length] in Ed. lia.
  - destruct (IH (b :: s') Hd) as (pre & c & Heq & Hc & Htc); [done|].
    exists (take (S len) s ++ pre), c. split_and!; [|done..].
    by rewrite <- app_assoc, <- Heq, <- Ed, take_drop.
Qed.

Lemma oneOf_whole chars c :
  c ≠ [] → oneOf chars c = length c → c ∈ chars.
Proof.
  intros Hne. unfold oneOf.
  destruct (List.find _ chars) as [c'|] eqn:E; [|by destruct c].
  apply find_some in E as [Hin [r Hr]%startsWith_inv]. intros Hlen.
  rewrite Hr, length_app in Hlen. destruct r; [|simpl in Hlen; lia].
  rewrite app_nil_r in Hr. subst c'. by apply list_elem_of_In.
Qed.

(** What does not start with white space is not trimmed away. *)
Lemma trim_nonempty s : stops whiteSpaceAt s → s ≠ [] → trim s ≠ [].
Proof.
  intros Hstop Hs. unfold trim, trimStart.
  assert (dropClass whiteSpaceAt (length s) s = s) as ->.
  { destruct s as [|a s]; [done|]. cbn [length dropClass].
    unfold stops in Hstop. by rewrite Hstop. }
  unfold trimEnd. intros Hnil.
  assert (dropClass (oneOf (map (@rev ascii) whiteSpaceChars)) (length s) (rev s)
          = []) as Hd.
  { apply (f_equal (@rev ascii)) in Hnil. by rewrite rev_involutive in Hnil. }
  destruct (dropClass_nil _ _ (sane_oneOf _) _ Hd) as (pre & c & Heq & Hc & Htc).
  { intros Hr. apply (f_equal (@rev ascii)) in Hr.
    rewrite rev_involutive in Hr. done. }
  apply oneOf_whole in Htc; [|done].
  apply list_elem_of_fmap in Htc as (w & -> & Hw).
  apply (f_equal (@rev ascii)) in Heq.
  rewrite rev_involutive, rev_app_distr, rev_involutive in Heq.
  unfold stops in Hstop. rewrite Heq in Hstop.
  destruct (whiteSpaceAt_char w (rev pre) Hw) as [Hne Hlen].
  rewrite Hstop in Hlen. by destruct w.
Qed.

Lemma not_In_close i :
  ¬ In "]"%char i → Forall (λ c, notCloseBracket c = true) i.
Proof.
  intros Hno. apply Forall_forall. intros c Hc%list_elem_of_In.
  unfold notCloseBracket, isCloseBracket, code.
  destruct (N.eqb_spec (N_of_ascii c) 93) as [Heq|]; [|done].
  exfalso. apply Hno. replace "]"%char with c; [done|].
  rewrite <- (ascii_N_embedding c), Heq. reflexivity.
Qed.

(** ** Marker lines *)

Lemma markerFree_no_match (re : RegExp) label r pre s :
  ignoreCase re = true → atoms re = lits (markerOf label) ++ r →
  markerFree label pre s = true →
  ∀ j, (j < length pre)%nat → matchHere re (drop j (pre ++ s)) 0 = None.
Proof.
  intros Hic Hatoms Hfree j Hj. unfold markerFree in Hfree.
  rewrite forallb_forall in Hfree.
  specialize (Hfree j ltac:(apply in_seq; lia)).
  unfold matchHere. rewrite Hic, Hatoms. unfold lits.
  destruct (run _ _ _ _ _ _) as [res|] eqn:E; [|done].
  apply run_marker in E. unfold markerText in Hfree.
  by rewrite E in Hfree.
Qed.

Lemma restOfLine_in label ty :
  (label, ty) ∈ restOfLineMarkers → restOfLine label ty ∈ linkPatterns.
Proof.
  unfold restOfLineMarkers, linkPatterns. intros Hin.
  apply elem_of_cons in Hin as [[= -> ->]|Hin];
    [do 1 apply list_elem_of_further; apply list_elem_of_here|].
  apply elem_of_cons in Hin as [[= -> ->]|Hin];
    [do 2 apply list_elem_of_further; apply list_elem_of_here|].
  by apply elem_of_nil in Hin.
Qed.

Lemma bracketed_in label ty :
  (label, ty) ∈ bracketedMarkers → bracketed label ty ∈ linkPatterns.
Proof.
  unfold bracketedMarkers, linkPatterns. intros Hin.
  apply elem_of_cons in Hin as [[= -> ->]|Hin]; [apply list_elem_of_here|].
  apply elem_of_cons in Hin as [[= -> ->]|Hin];
    [do 3 apply list_elem_of_further; apply list_elem_of_here|].
  apply elem_of_cons in Hin as [[= -> ->]|Hin];
    [do 4 apply list_elem_of_further; apply list_elem_of_here|].
  apply elem_of_cons in Hin as [[= -> ->]|Hin];
    [do 5 apply list_elem_of_further; apply list_elem_of_here|].
  apply elem_of_cons in Hin as [[= -> ->]|Hin];
    [do 6 apply list_elem_of_further; apply list_elem_of_here|].
  apply elem_of_cons in Hin as [[= -> ->]|Hin];
    [do 7 apply list_elem_of_further; apply list_elem_of_here|].
  by apply elem_of_nil in Hin.
Qed.

Lemma linkPatterns_stars :
  Forall (λ q : RegExp * string, litCount "*" (atoms q.1) = 4%nat) linkPatterns.
Proof. repeat constructor. Qed.

Lemma linkPattern_takesACharacter q : q ∈ linkPatterns → takesACharacter q.1.
Proof.
  intros Hq. pose proof linkPatterns_take_a_character as Hall.
  by eapply Forall_forall in Hall.
Qed.

(** C2.  extractLinks returns: its loops end, within the calls of [exec]
    that the model allows them.  It runs the loops of the eight patterns
    one after the other, each over the whole body, and its links are
    theirs in that order.  For the loop of the pattern of a marker, the marker spelled in
    any mix of capitals and small letters, the white space and the line
    terminators being those of the language (a no-break space is white
    space):

    - a text in which the marker starts nowhere adds no link, wherever it
      stands in the body;
    - after Verifies or Validates and white space, the rest of the line
      is read, up to the next line terminator: when it enumerates
      bracketed ids, each after a separator without opening bracket, the
      loop yields one link of the marker's kind per id, in order; when it
      holds no closing bracket, it yields the single link whose target is
      the trimmed rest of the line; then the loop goes on after the line;
    - after Derives from, Implements, Mitigates, Analyzes, Leads to or
      Results in and white space, only a bracketed id that follows at once
      is read: the loop yields the one link to its trimmed content (none
      when that is blank), whatever else the line enumerates, and goes on
      after the closing bracket; when no opening bracket follows the
      white space, the marker yields no link and the loop goes on with
      the character after the first star of the marker. *)
Theorem C2_links_of_marker_lines :
  (∀ doc fuel,
     (String.length (Document.body doc) < fuel)%nat →
     extractLinksFuel fuel doc = Some (extractLinks doc))
  ∧ (∀ doc,
       extractLinks doc
       = concat (map (λ q, linksVia q (bodyText doc)) linkPatterns))
  ∧ (∀ label ty,
       (label, ty) ∈ restOfLineMarkers →
       let q := restOfLine label ty in
       q ∈ linkPatterns
       ∧ linksVia q [] = []
       ∧ (∀ pre s,
            markerFree label pre s = true →
            linksVia q (pre ++ s) = linksVia q s)
       ∧ ∀ marker ws a line rest,
           spells marker label → whiteSpace ws →
           stops whiteSpaceAt ((a :: line) ++ rest) →
           rowOf dotAt (a :: line) rest → stops dotAt rest →
           (∀ items tail,
              a :: line = enumeration items tail → items ≠ [] →
              Forall wellFormedItem items → noOpen tail →
              linksVia q (marker ++ ws ++ (a :: line) ++ rest)
              = map (λ it, mkLink ty it.2) items ++ linksVia q rest)
           ∧ (¬ In "]"%char (a :: line) →
              linksVia q (marker ++ ws ++ (a :: line) ++ rest)
              = mkLink ty (trim (a :: line)) :: linksVia q rest))
  ∧ (∀ label ty,
       (label, ty) ∈ bracketedMarkers →
       let q := bracketed label ty in
       q ∈ linkPatterns
       ∧ linksVia q [] = []
       ∧ (∀ pre s,
            markerFree label pre s = true →
            linksVia q (pre ++ s) = linksVia q s)
       ∧ (∀ marker ws i rest,
            spells marker label → whiteSpace ws →
            i ≠ [] → ¬ In "]"%char i →
            linksVia q (marker ++ ws ++ bracketedId i ++ rest)
            = match trim i with
              | [] => []
              | target => [mkLink ty target]
              end ++ linksVia q rest)
       ∧ (∀ marker ws rest,
            spells marker label → whiteSpace ws → noBracketNext rest →
            linksVia q (marker ++ ws ++ rest)
            = linksVia q (drop 1 (marker ++ ws ++ rest)))).
Proof.
  split_and!.
  - apply extractLinks_terminates.
  - apply extractLinks_linksVia.
  - intros label ty Hmarker q.
    pose proof (restOfLine_in label ty Hmarker) as Hq.
    pose proof (linkPattern_takesACharacter _ Hq) as Htakes.
    split_and!; [done| | |].
    + reflexivity.
    + intros pre s Hfree. apply linksVia_skip; [done|].
      by eapply (markerFree_no_match _ label).
    + intros marker ws a line rest Hm Hws Ha Hline Hstop.
      pose proof (restOfLine_matches label ty marker ws a line rest
                    Hm Hws Ha Hline Hstop) as Hmatch. cbv zeta in Hmatch.
      assert (linksVia q (marker ++ ws ++ (a :: line) ++ rest)
              = linksOfMatch ty (a :: line) ++ linksVia q rest) as ->.
      { replace (marker ++ ws ++ (a :: line) ++ rest)
          with ((marker ++ ws ++ a :: line) ++ rest) in * by list_shape.
        by rewrite (linksVia_match q _ _ _ Htakes Hmatch). }
      split.
      * intros items tail -> Hne Hitems Htail.
        by rewrite linksOfMatch_enumeration.
      * intros Hclose. rewrite linksOfMatch_plain by done.
        pose proof (trim_nonempty (a :: line)
                      (stops_whiteSpaceAt_app _ _ Ha) ltac:(done)).
        by destruct (trim (a :: line)).
  - intros label ty Hmarker q.
    pose proof (bracketed_in label ty Hmarker) as Hq.
    pose proof (linkPattern_takesACharacter _ Hq) as Htakes.
    split_and!; [done| | | |].
    + reflexivity.
    + intros pre s Hfree. apply linksVia_skip; [done|].
      by eapply (markerFree_no_match _ label).
    + intros marker ws i rest Hm Hws Hne Hclose.
      pose proof (bracketed_matches label ty marker ws i rest Hm Hws Hne
                    (not_In_close _ Hclose)) as Hmatch. cbv zeta in Hmatch.
      replace (marker ++ ws ++ bracketedId i ++ rest)
        with ((marker ++ ws ++ "["%char :: i ++ ["]"%char]) ++ rest)
        by (unfold bracketedId; list_shape).
      replace (marker ++ ws ++ "["%char :: i ++ "]"%char :: rest)
        with ((marker ++ ws ++ "["%char :: i ++ ["]"%char]) ++ rest)
        in Hmatch by list_shape.
      rewrite (linksVia_match q _ _ _ Htakes Hmatch) by done.
      cbn [group1]. by rewrite linksOfMatch_plain.
    + intros marker ws rest Hm Hws Hnext.
      pose proof (bracketed_needs_bracket label ty marker ws rest Hm Hws Hnext)
        as Hnone.
      destruct (marker ++ ws ++ rest) as [|b text] eqn:E.
      * done.
      * cbn [drop]. rewrite drop_0.
        apply (linksVia_skip q [b] text Htakes).
        intros [|j] Hj; [by rewrite drop_0|cbn [length] in Hj; lia].
Qed.

End LinkProperties.

(** A Mitigates line that enumerates two ids yields one link, and a
    Mitigates line without brackets yields none, where the trimmed rest of
    the line is SRS-001. *)
Lemma C2_counterexample :
  matchAll idPattern (list_ascii_of_string "[SRS-001], [SRS-002]")
  = Some [list_ascii_of_string "[SRS-001]"; list_ascii_of_string "[SRS-002]"]
  ∧ extractLinks (Samples.docOf "**Mitigates:** [SRS-001], [SRS-002]")
    = [ {| Link.type := "mitigates"; Link.targetId := "SRS-001" |} ]
  ∧ string_of_list_ascii (trim (list_ascii_of_string " SRS-001"))
    = "SRS-001"%string
  ∧ extractLinks (Samples.docOf "**Mitigates:** SRS-001") = [].
Proof. split_and!; vm_compute; reflexivity. Qed.

(** A no-break space between the marker and what follows is white space
    as a blank is. *)
Lemma extractLinks_no_break_space :
  extractLinks
    (Samples.docOf ("**Mitigates:**" +:+ MarkdownFixtures.nbsp +:+ "[SRS-001]"))
  = [ {| Link.type := "mitigates"; Link.targetId := "SRS-001" |} ]
  ∧ extractLinks
      (Samples.docOf ("**Verifies:**" +:+ MarkdownFixtures.nbsp +:+ "SRS-001"
                      +:+ MarkdownFixtures.nbsp))
    = [ {| Link.type := "verified_by"; Link.targetId := "SRS-001" |} ].
Proof. split; vm_compute; reflexivity. Qed.

(** The Mitigates line of the fixture RISK-SW-001, which stands after the
    heading and the Analyzes line and before the tables, and the Verifies
    line of the fixture TC-001: two bracketed ids, each followed by its
    link target in parentheses. *)
Lemma C2_witness :
  (let body := LinkSpec.bodyText Samples.docSw001 in
   body
   = take 90 body
     ++ LinkSpec.markerText "Mitigates" ++ list_ascii_of_string " "
     ++ LinkSpec.bracketedId (list_ascii_of_string "SRS-001")
     ++ drop 114 body
   ∧ LinkSpec.linksVia (bracketed "Mitigates" "mitigates") body
     = [ {| Link.type := "mitigates"; Link.targetId := "SRS-001" |} ]
   ∧ extractLinks Samples.docSw001
     = [ {| Link.type := "mitigates"; Link.targetId := "SRS-001" |};
         {| Link.type := "analyzes"; Link.targetId := "HAZ-SW-001" |} ])
  ∧ LinkSpec.linksVia (restOfLine "Verifies" "verified_by")
      (LinkSpec.bodyText Samples.docTc001)
    = [ {| Link.type := "verified_by"; Link.targetId := "SRS-001" |};
        {| Link.type := "verified_by"; Link.targetId := "SRS-002" |} ].
Proof.
  destruct C2_links_of_marker_lines as (_ & Hall & Hline & Hbracketed).
  split; [cbv zeta; split_and!|].
  - vm_compute. reflexivity.
  - destruct (Hbracketed "Mitigates"%string "mitigates"%string)
      as (_ & Hnil & Hskip & Hid & _);
      [do 2 apply list_elem_of_further; apply list_elem_of_here|].
    cbv zeta in Hnil, Hskip, Hid.
    replace (LinkSpec.bodyText Samples.docSw001)
      with (take 90 (LinkSpec.bodyText Samples.docSw001)
            ++ LinkSpec.markerText "Mitigates" ++ list_ascii_of_string " "
            ++ LinkSpec.bracketedId (list_ascii_of_string "SRS-001")
            ++ (drop 114 (LinkSpec.bodyText Samples.docSw001) ++ []))
      by (vm_compute; reflexivity).
    rewrite Hskip by (vm_compute; reflexivity).
    rewrite Hid;
      [|reflexivity|apply rowOf_whiteSpaceAt_nil, (isRowOf_sound _ 1); reflexivity
       |done|apply occ_zero; reflexivity].
    rewrite Hskip by (vm_compute; reflexivity).
    rewrite Hnil. vm_compute. reflexivity.
  - rewrite Hall. vm_compute. reflexivity.
  - destruct (Hline "Verifies"%string "verified_by"%string)
      as (_ & Hnil & _ & Hrest); [apply list_elem_of_here|].
    cbv zeta in Hnil, Hrest.
    destruct (Hrest (LinkSpec.markerText "Verifies") (list_ascii_of_string " ")
                "["%char
                (list_ascii_of_string
                   "SRS-001](../software-requirements/SRS-001.md), [SRS-002](../software-requirements/SRS-002.md)")
                [])
      as [Henum _].
    + reflexivity.
    + apply rowOf_whiteSpaceAt_nil, (isRowOf_sound _ 1). reflexivity.
    + vm_compute. reflexivity.
    + apply (isRowOf_sound _ 200). vm_compute. reflexivity.
    + reflexivity.
    + replace (LinkSpec.bodyText Samples.docTc001)
        with (LinkSpec.markerText "Verifies" ++ list_ascii_of_string " "
              ++ ("["%char :: list_ascii_of_string
                   "SRS-001](../software-requirements/SRS-001.md), [SRS-002](../software-requirements/SRS-002.md)")
              ++ [])
        by (vm_compute; reflexivity).
      rewrite (Henum
        [ ([], list_ascii_of_string "SRS-001");
          (list_ascii_of_string "(../software-requirements/SRS-001.md), ",
           list_ascii_of_string "SRS-002") ]
        (list_ascii_of_string "(../software-requirements/SRS-002.md)")).
      * rewrite Hnil. reflexivity.
      * vm_compute. reflexivity.
      * done.
      * repeat constructor; try (intros [=]); try done;
          apply Forall_forall; intros c Hc; apply (bool_decide_unpack _);
          revert c Hc; apply Forall_forall; apply (bool_decide_unpack _);
          vm_compute; reflexivity.
      * apply (bool_decide_unpack _). vm_compute. reflexivity.
Defined.

(** ** The document store and what [run] hands on *)

Section IndexProperties.
Import JsMap Main IndexSpec TraceabilitySpec.
Context {host : JsHost}.

Lemma parsedDocs_snoc files f :
  parsedDocs (files ++ [f])
  = (parsedDocs files ++ match parseDocument f.1.1 f.1.2 f.2 with
                         | Some doc => [doc] | None => [] end)%list.
Proof.
  unfold parsedDocs. by rewrite omap_app.
Qed.

Lemma buildDocumentIndex_snoc files f :
  buildDocumentIndex (files ++ [f]) = indexFile (buildDocumentIndex files) f.
Proof. unfold buildDocumentIndex. by rewrite foldl_app. Qed.

Lemma filter_snoc {A} (P : A → Prop) `{∀ x, Decision (P x)} l x :
  filter P (l ++ [x]) = (filter P l ++ if decide (P x) then [x] else [])%list.
Proof. rewrite filter_app, filter_cons, filter_nil. by destruct (decide (P x)). Qed.

Lemma last_snoc_if {A} (l : list A) x (b : bool) :
  last (l ++ if b then [x] else []) = if b then Some x else last l.
Proof. destruct b; [apply last_snoc | by rewrite app_nil_r]. Qed.

Lemma indexFile_parsed index f :
  indexFile index f
  = match parseDocument f.1.1 f.1.2 f.2 with
    | None => index
    | Some doc =>
        {| DocumentIndex.byId := <[Document.id doc := doc]> (DocumentIndex.byId index);
           DocumentIndex.byPath :=
             <[Document.filePath doc := doc]> (DocumentIndex.byPath index);
           DocumentIndex.byType :=
             <[Document.docType doc :=
                 (default [] (DocumentIndex.byType index !! Document.docType doc)
                  ++ [doc])%list]> (DocumentIndex.byType index) |}
    end.
Proof. by destruct f as [[filePath data] content]. Qed.

Lemma index_lookup files :
  (∀ i, DocumentIndex.byId (buildDocumentIndex files) !! i
        = last (filter (λ d, Document.id d = i) (parsedDocs files)))
  ∧ (∀ p, DocumentIndex.byPath (buildDocumentIndex files) !! p
          = last (filter (λ d, Document.filePath d = p) (parsedDocs files))).
Proof.
  induction files as [|f files [IHid IHpath]] using rev_ind; [done|].
  rewrite buildDocumentIndex_snoc, parsedDocs_snoc, indexFile_parsed.
  destruct (parseDocument f.1.1 f.1.2 f.2) as [doc|]; [|by rewrite app_nil_r].
  cbn [DocumentIndex.byId DocumentIndex.byPath]. split.
  - intros i. rewrite filter_snoc. destruct (decide (Document.id doc = i)) as [<-|Hne].
    + by rewrite lookup_insert_eq, last_snoc.
    + by rewrite lookup_insert_ne, app_nil_r.
  - intros p. rewrite filter_snoc.
    destruct (decide (Document.filePath doc = p)) as [<-|Hne].
    + by rewrite lookup_insert_eq, last_snoc.
    + by rewrite lookup_insert_ne, app_nil_r.
Qed.

Lemma byType_lookup files t :
  DocumentIndex.byType (buildDocumentIndex files) !! t
  = match filter (λ d, Document.docType d = t) (parsedDocs files) with
    | [] => None
    | ds => Some ds
    end.
Proof.
  induction files as [|f files IH] using rev_ind; [done|].
  rewrite buildDocumentIndex_snoc, parsedDocs_snoc, indexFile_parsed.
  destruct (parseDocument f.1.1 f.1.2 f.2) as [doc|]; [|by rewrite app_nil_r].
  cbn [DocumentIndex.byType]. rewrite filter_snoc.
  destruct (decide (Document.docType doc = t)) as [<-|Hne].
  - rewrite lookup_insert_eq, IH.
    destruct (filter _ (parsedDocs files)) as [|d ds]; [done|].
    cbn [default]. by destruct ds.
  - by rewrite lookup_insert_ne, app_nil_r.
Qed.


(** An id is a key of [byId] exactly when a file with an id has it. *)
Lemma byId_known files i :
  is_Some (DocumentIndex.byId (buildDocumentIndex files) !! i)
  ↔ i ∈ Document.id <$> parsedDocs files.
Proof.
  rewrite (proj1 (index_lookup files)), list_elem_of_fmap. split.
  - intros [d Hd]. apply last_Some_elem_of, list_elem_of_filter in Hd as [? ?].
    by exists d.
  - intros (d & -> & Hin).
    destruct (filter (λ d', Document.id d' = Document.id d) (parsedDocs files))
      as [|d0 ds] eqn:E using rev_ind.
    + exfalso. eapply (not_elem_of_nil d). rewrite <- E.
      by apply list_elem_of_filter.
    + rewrite last_snoc. by eexists.
Qed.

(** X1.  Insert and lookup in [byId] and [byPath]: the index holds under an
    id the document of the last file with that id, under a path the
    document of the last file with that path, and nothing under an id or a
    path that no file with an id has; a file without id is in neither. *)
Theorem X1_byId_and_byPath_hold_the_last_file files :
  (∀ i, DocumentIndex.byId (buildDocumentIndex files) !! i
        = last (filter (λ d, Document.id d = i) (parsedDocs files)))
  ∧ (∀ p, DocumentIndex.byPath (buildDocumentIndex files) !! p
          = last (filter (λ d, Document.filePath d = p) (parsedDocs files)))
  ∧ (∀ i, is_Some (DocumentIndex.byId (buildDocumentIndex files) !! i)
          ↔ i ∈ Document.id <$> parsedDocs files)
  ∧ (∀ earlier doc later doc',
       parsedDocs files = (earlier ++ doc :: later ++ [doc'])%list →
       Document.id doc' = Document.id doc →
       DocumentIndex.byId (buildDocumentIndex files) !! Document.id doc
       = Some doc').
Proof.
  destruct (index_lookup files) as [Hid Hpath].
  split_and!; [done|done|apply byId_known|].
  - intros earlier doc later doc' Hfiles Hsame. rewrite Hid, Hfiles.
    rewrite filter_app, filter_cons, filter_app, filter_cons, filter_nil.
    rewrite (decide_True (P := Document.id doc' = Document.id doc)) by done.
    rewrite (decide_True (P := Document.id doc = Document.id doc)) by done.
    rewrite app_comm_cons, (assoc_L (++)). apply last_snoc.
Qed.

(** X2.  The groups of [byType]: the group of a type is the list of the
    documents of that type in the order of the files, and there is no empty
    group.  A document stays in its group when a later file repeats its
    id. *)
Theorem X2_byType_groups_the_documents_in_file_order files :
  (∀ t, DocumentIndex.byType (buildDocumentIndex files) !! t
        = match filter (λ d, Document.docType d = t) (parsedDocs files) with
          | [] => None
          | ds => Some ds
          end)
  ∧ (∀ t, docsOfType (buildDocumentIndex files) t
          = filter (λ d, Document.docType d = t) (parsedDocs files))
  ∧ (∀ doc, doc ∈ parsedDocs files ↔
            doc ∈ docsOfType (buildDocumentIndex files) (Document.docType doc)).
Proof.
  assert (∀ t, docsOfType (buildDocumentIndex files) t
          = filter (λ d, Document.docType d = t) (parsedDocs files)) as Hgroup.
  { intros t. unfold docsOfType. rewrite byType_lookup.
    by destruct (filter _ _). }
  split_and!; [apply byType_lookup|done|].
  intros doc. rewrite Hgroup, list_elem_of_filter. tauto.
Qed.

Lemma mapKeys_mapSet {V} (m : JsMap V) k v :
  mapKeys (mapSet m k v)
  = if decide (k ∈ mapKeys m) then mapKeys m else (mapKeys m ++ [k])%list.
Proof.
  unfold mapKeys. induction m as [|[k' v'] m IH]; [done|]. cbn [mapSet].
  destruct (String.eqb_spec k' k) as [->|Hne].
  - cbn [map fst]. rewrite decide_True; [done|]. apply list_elem_of_here.
  - cbn [map fst] in *. rewrite IH.
    destruct (decide (k ∈ map fst m)) as [Hin|Hout].
    + rewrite decide_True; [done|]. by apply list_elem_of_further.
    + rewrite decide_False; [done|]. intros [?|?]%elem_of_cons; congruence.
Qed.

Lemma mapSet_new {V} (m : JsMap V) k v :
  k ∉ mapKeys m → mapSet m k v = (m ++ [(k, v)])%list.
Proof.
  unfold mapKeys. induction m as [|[k' v'] m IH]; [done|]. cbn [mapSet map fst].
  intros Hout. destruct (String.eqb_spec k' k) as [->|Hne].
  - exfalso. apply Hout, list_elem_of_here.
  - cbn [app]. f_equal. apply IH. intros Hin. by apply Hout, list_elem_of_further.
Qed.

Lemma mapGet_lookup {V} (m : JsMap V) k :
  mapGet m k = (list_to_map m : gmap string V) !! k.
Proof.
  induction m as [|[k' v'] m IH]; [done|]. cbn [mapGet list_to_map foldr].
  destruct (String.eqb_spec k' k) as [->|Hne].
  - by rewrite lookup_insert_eq.
  - by rewrite lookup_insert_ne.
Qed.

Lemma list_to_map_mapSet {V} (m : JsMap V) k v :
  (list_to_map (mapSet m k v) : gmap string V) = <[k := v]> (list_to_map m).
Proof.
  induction m as [|[k' v'] m IH]; [done|]. cbn [mapSet].
  destruct (String.eqb_spec k' k) as [->|Hne]; cbn [list_to_map foldr].
  - by rewrite insert_insert_eq.
  - fold (list_to_map (M := gmap string V) (mapSet m k v)). rewrite IH.
    by rewrite insert_insert_ne.
Qed.

Lemma NoDup_mapKeys_mapSet {V} (m : JsMap V) k v :
  NoDup (mapKeys m) → NoDup (mapKeys (mapSet m k v)).
Proof.
  intros Hnd. rewrite mapKeys_mapSet. case_decide; [done|].
  apply NoDup_app. split_and!; [done| |apply NoDup_singleton].
  intros x Hx ->%list_elem_of_singleton. done.
Qed.

Lemma firstOccurrences_snoc l k :
  firstOccurrences (l ++ [k])
  = if decide (k ∈ firstOccurrences l) then firstOccurrences l
    else (firstOccurrences l ++ [k])%list.
Proof.
  unfold firstOccurrences. rewrite reverse_snoc. cbn [remove_dups].
  destruct (decide_rel elem_of k (reverse l)) as [Hin|Hout].
  - rewrite decide_True; [done|].
    by rewrite elem_of_reverse, elem_of_remove_dups.
  - rewrite decide_False; [by rewrite reverse_cons|].
    by rewrite elem_of_reverse, elem_of_remove_dups.
Qed.

Lemma firstOccurrences_NoDup l : NoDup l → firstOccurrences l = l.
Proof.
  induction l as [|k l IH] using rev_ind; [done|].
  intros [Hnd [Hout _]]%NoDup_app. rewrite firstOccurrences_snoc, IH by done.
  rewrite decide_False; [done|]. intros Hin. by apply (Hout k), list_elem_of_singleton.
Qed.

Lemma byIdEntries_snoc files f :
  byIdEntries (files ++ [f])
  = match parseDocument f.1.1 f.1.2 f.2 with
    | None => byIdEntries files
    | Some doc => mapSet (byIdEntries files) (Document.id doc) doc
    end.
Proof.
  unfold byIdEntries. rewrite foldl_app. by destruct f as [[filePath data] content].
Qed.

(** The entries of [byId]: every document sits under its own id, no key
    comes twice, the keys are the ids of the files in the order of their
    first occurrence. *)
Lemma byIdEntries_inv files :
  Forall (λ kv, Document.id kv.2 = kv.1) (byIdEntries files)
  ∧ NoDup (mapKeys (byIdEntries files))
  ∧ mapKeys (byIdEntries files)
    = firstOccurrences (Document.id <$> parsedDocs files)
  ∧ (list_to_map (byIdEntries files) : gmap string Document)
    = DocumentIndex.byId (buildDocumentIndex files).
Proof.
  induction files as [|f files (IHown & IHnd & IHkeys & IHmap)] using rev_ind.
  { split_and!; [constructor|constructor|done|done]. }
  rewrite byIdEntries_snoc, buildDocumentIndex_snoc, parsedDocs_snoc,
    indexFile_parsed.
  destruct (parseDocument f.1.1 f.1.2 f.2) as [doc|].
  2:{ by rewrite app_nil_r. }
  split_and!.
  - clear -IHown. induction (byIdEntries files) as [|[k' v'] m IH]; cbn [mapSet].
    + by repeat constructor.
    + apply Forall_cons in IHown as [Hhd Htl].
      destruct (String.eqb_spec k' (Document.id doc)) as [->|Hne].
      * by constructor.
      * constructor; [done|by apply IH].
  - by apply NoDup_mapKeys_mapSet.
  - rewrite mapKeys_mapSet, fmap_app. change (Document.id <$> [doc]) with [Document.id doc].
    by rewrite firstOccurrences_snoc, IHkeys.
  - cbn [DocumentIndex.byId]. by rewrite list_to_map_mapSet, IHmap.
Qed.

Lemma allDocs_ids files : Document.id <$> allDocs files = mapKeys (byIdEntries files).
Proof.
  unfold allDocs, mapValues, mapKeys.
  destruct (byIdEntries_inv files) as [Hown _].
  induction Hown as [|[k d] m Hkd _ IH]; [done|].
  cbn in *. by rewrite Hkd, <- IH.
Qed.

(** The values of [byId]: the documents that sit under their own id. *)
Lemma allDocs_elem_of files d :
  d ∈ allDocs files
  ↔ DocumentIndex.byId (buildDocumentIndex files) !! Document.id d = Some d.
Proof.
  destruct (byIdEntries_inv files) as (Hown & Hnd & Hkeys & Hmap).
  rewrite <- Hmap. unfold allDocs, mapValues. split.
  - intros [[k d'] [-> Hin]]%list_elem_of_fmap.
    pose proof (proj1 (Forall_forall _ _) Hown _ Hin) as Hid. cbn in *.
    rewrite Hid. by apply elem_of_list_to_map_1.
  - intros Hin%elem_of_list_to_map_2.
    apply list_elem_of_fmap. by exists (Document.id d, d).
Qed.

(** X3.  The documents that [run] hands to the validators,
    [Array.from(index.byId.values())], have pairwise distinct ids; their
    ids are the ids of the files that have one, each once, in the order of
    first occurrence; and a document is among them exactly when [byId]
    holds it under its id, so a file whose id a later file repeats is not
    among them. *)
Theorem X3_allDocs_are_the_values_of_byId files :
  NoDup (Document.id <$> allDocs files)
  ∧ Document.id <$> allDocs files
    = firstOccurrences (Document.id <$> parsedDocs files)
  ∧ (∀ d, d ∈ allDocs files
          ↔ DocumentIndex.byId (buildDocumentIndex files) !! Document.id d
            = Some d).
Proof.
  destruct (byIdEntries_inv files) as (Hown & Hnd & Hkeys & Hmap).
  rewrite allDocs_ids. split_and!; [done|done|apply allDocs_elem_of].
Qed.

Lemma allDocs_distinct files :
  NoDup (Document.id <$> parsedDocs files) → allDocs files = parsedDocs files.
Proof.
  unfold allDocs. induction files as [|f files IH] using rev_ind; [done|].
  rewrite parsedDocs_snoc, byIdEntries_snoc.
  destruct (parseDocument f.1.1 f.1.2 f.2) as [doc|]; [|by rewrite app_nil_r].
  rewrite fmap_app. intros [Hnd [Hout _]]%NoDup_app.
  rewrite mapSet_new.
  - unfold mapValues in *. rewrite map_app. by rewrite IH.
  - destruct (byIdEntries_inv files) as (_ & _ & Hkeys & _).
    rewrite Hkeys, firstOccurrences_NoDup by done.
    intros Hin. apply (Hout _ Hin). apply list_elem_of_here.
Qed.

(** X4.  When the files that have an id have pairwise distinct ids, the
    validators get the documents of all of them, in the order of the
    files, and the snapshot is consistent: every document that [byId] or a
    group of [byType] holds is one of them, under its own id. *)
Theorem X4_distinct_ids_give_a_consistent_snapshot files :
  NoDup (Document.id <$> parsedDocs files) →
  allDocs files = parsedDocs files
  ∧ consistent (allDocs files) (buildDocumentIndex files).
Proof.
  intros Hnd. rewrite allDocs_distinct by done. split; [done|].
  split_and!; [done| |].
  - intros i d Hid. rewrite (proj1 (index_lookup files)) in Hid.
    apply last_Some_elem_of in Hid. by apply list_elem_of_filter in Hid as [? ?].
  - intros t ds Hds. rewrite byType_lookup in Hds.
    destruct (filter _ _) as [|d' ds'] eqn:E; [done|].
    injection Hds as <-. rewrite <- E. apply Forall_forall.
    by intros d [_ ?]%list_elem_of_filter.
Qed.

End IndexProperties.

(** The twelve files of the device fixture have distinct ids. *)
Lemma X4_witness :
  Main.allDocs (host := Samples.asciiHost) Samples.deviceFiles
  = IndexSpec.parsedDocs (host := Samples.asciiHost) Samples.deviceFiles
  ∧ TraceabilitySpec.consistent
      (Main.allDocs (host := Samples.asciiHost) Samples.deviceFiles)
      (buildDocumentIndex (host := Samples.asciiHost) Samples.deviceFiles).
Proof.
  apply (X4_distinct_ids_give_a_consistent_snapshot (host := Samples.asciiHost)).
  apply (bool_decide_unpack _). vm_compute. reflexivity.
Defined.

(** ** The link validator *)

Section LinkValidatorProperties.
Import JsMap Main IndexSpec Links ValidatorSpec.
Context {host : JsHost}.
Local Open Scope string_scope.

Lemma foldl_checkLink index doc links : ∀ warnings,
  foldl (checkLink index doc) warnings links
  = (warnings
     ++ (brokenReference doc
           <$> filter (λ l, DocumentIndex.byId index !! Link.targetId l = None)
                 links))%list.
Proof.
  induction links as [|l links IH]; intros warnings.
  - by rewrite app_nil_r.
  - cbn [foldl]. rewrite IH, filter_cons. unfold checkLink.
    destruct (DocumentIndex.byId index !! Link.targetId l) eqn:E.
    + by rewrite decide_False.
    + rewrite decide_True by done. by rewrite <- (assoc_L (++)).
Qed.

Lemma validateLinks_flat documents index :
  validateLinks documents index
  = documents ≫= λ doc, brokenReference doc <$> brokenLinks index doc.
Proof.
  unfold validateLinks.
  assert (∀ warnings,
    foldl (λ warnings doc, foldl (checkLink index doc) warnings (extractLinks doc))
      warnings documents
    = (warnings ++ (documents ≫= λ doc, brokenReference doc <$> brokenLinks index doc))%list)
    as Hgen; [|apply Hgen].
  induction documents as [|doc documents IH]; intros warnings.
  - by rewrite app_nil_r.
  - cbn [foldl]. rewrite IH, foldl_checkLink, bind_cons.
    by rewrite <- (assoc_L (++)).
Qed.

(** X5.  [validateLinks] returns, in the order of the documents and of
    their links, one warning per outbound link whose target id is no key of
    [byId]; the warning is of rule links/broken-reference and severity
    warning and is attached to the file of the linking document.  So it
    returns no warning exactly when every link of every document
    resolves. *)
Theorem X5_one_warning_per_unresolved_link documents index :
  validateLinks documents index
  = (documents ≫= λ doc, brokenReference doc <$> brokenLinks index doc)
  ∧ (validateLinks documents index = []
     ↔ ∀ doc l, doc ∈ documents → l ∈ extractLinks doc →
                is_Some (DocumentIndex.byId index !! Link.targetId l))
  ∧ (∀ w, w ∈ validateLinks documents index →
          ValidationWarning.rule w = "links/broken-reference"
          ∧ ValidationWarning.severity w = warning
          ∧ ∃ doc, doc ∈ documents
                   ∧ ValidationWarning.file w = Document.filePath doc).
Proof.
  rewrite validateLinks_flat. split_and!; [done| |].
  - split.
    + intros Hnil doc l Hdoc Hl.
      destruct (DocumentIndex.byId index !! Link.targetId l) eqn:E; [done|].
      exfalso. eapply (not_elem_of_nil (brokenReference doc l)).
      rewrite <- Hnil. apply list_elem_of_bind. exists doc. split; [|done].
      apply list_elem_of_fmap. exists l. split; [done|].
      by apply list_elem_of_filter.
    + intros Hall. induction documents as [|doc documents IH]; [done|].
      rewrite bind_cons, IH.
      2:{ intros d l Hd. apply Hall. by apply list_elem_of_further. }
      rewrite app_nil_r. unfold brokenLinks.
      destruct (filter _ (extractLinks doc)) as [|l ls] eqn:E; [done|].
      assert (l ∈ filter (λ l, DocumentIndex.byId index !! Link.targetId l = None)
                (extractLinks doc)) as Hl by (rewrite E; apply list_elem_of_here).
      apply list_elem_of_filter in Hl as [Hnone Hl].
      destruct (Hall doc l (list_elem_of_here _ _) Hl) as [? Hsome]. congruence.
  - intros w (doc & (l & -> & Hl)%list_elem_of_fmap & Hdoc)%list_elem_of_bind.
    split_and!; [done|done|]. by exists doc.
Qed.

(** X6.  Against the index built from the files, a link is reported
    exactly when no file with an id has its target as id: a file resolves a
    link also when a later file repeats its id, and a file without id
    resolves none. *)
Theorem X6_links_resolve_against_the_ids_of_the_files files documents :
  validateLinks documents (buildDocumentIndex files)
  = documents ≫= λ doc,
      brokenReference doc
        <$> filter (λ l, Link.targetId l ∉ Document.id <$> parsedDocs files)
              (extractLinks doc).
Proof.
  rewrite validateLinks_flat. apply list_bind_ext; [|done]. intros doc.
  unfold brokenLinks. f_equal. apply list_filter_iff. intros l.
  rewrite <- byId_known, eq_None_not_Some. done.
Qed.

End LinkValidatorProperties.

(** ** The front matter validator *)

Section FrontmatterProperties.
Import JsMap Main IndexSpec Frontmatter ValidatorSpec.
Context {host : JsHost} {object : JsObject}.
Local Open Scope string_scope.

Lemma mapGet_tabulate {V} (g : string → V) keys k :
  mapGet (fmap (M := list) (λ i, (i, g i)) keys) k
  = if decide (k ∈ keys) then Some (g k) else None.
Proof.
  induction keys as [|k' keys IH]; [done|]. cbn [fmap list_fmap mapGet].
  fold (fmap (M := list) (λ i, (i, g i)) keys).
  destruct (String.eqb_spec k' k) as [->|Hne].
  - rewrite decide_True; [done|apply list_elem_of_here].
  - rewrite IH. destruct (decide (k ∈ keys)) as [Hin|Hout].
    + rewrite decide_True; [done|by apply list_elem_of_further].
    + rewrite decide_False; [done|]. intros [?|?]%elem_of_cons; congruence.
Qed.

Lemma mapSet_tabulate {V} (g : string → V) keys k v :
  NoDup keys → k ∈ keys →
  mapSet (fmap (M := list) (λ i, (i, g i)) keys) k v
  = fmap (M := list) (λ i, (i, if decide (i = k) then v else g i)) keys.
Proof.
  induction keys as [|k' keys IH]; [by intros _ ?%elem_of_nil|].
  intros [Hout Hnd]%NoDup_cons Hin. cbn [fmap list_fmap mapSet].
  fold (fmap (M := list) (λ i, (i, g i)) keys).
  fold (fmap (M := list) (λ i, (i, if decide (i = k) then v else g i)) keys).
  destruct (String.eqb_spec k' k) as [->|Hne].
  - rewrite decide_True by done. f_equal.
    apply list_fmap_ext. intros n i Hi.
    rewrite decide_False; [done|]. intros ->.
    by apply list_elem_of_lookup_2 in Hi.
  - rewrite decide_False by done. f_equal. apply IH; [done|].
    apply elem_of_cons in Hin as [?|?]; congruence.
Qed.

Lemma filesOf_snoc documents doc i :
  filesOf (documents ++ [doc]) i
  = (filesOf documents i
     ++ if decide (Document.id doc = i) then [Document.filePath doc] else [])%list.
Proof.
  unfold filesOf. rewrite filter_app, filter_cons, filter_nil, fmap_app.
  by destruct (decide (Document.id doc = i)).
Qed.

Lemma filesOf_unknown documents i :
  i ∉ Document.id <$> documents → filesOf documents i = [].
Proof.
  intros Hout. unfold filesOf.
  destruct (filter _ documents) as [|d ds] eqn:E; [done|]. exfalso.
  assert (d ∈ filter (λ d, Document.id d = i) documents) as Hd
    by (rewrite E; apply list_elem_of_here).
  apply list_elem_of_filter in Hd as [<- Hd]. by apply Hout, list_elem_of_fmap_2.
Qed.

Lemma firstOccurrences_elem_of l k : k ∈ firstOccurrences l ↔ k ∈ l.
Proof.
  unfold firstOccurrences.
  by rewrite elem_of_reverse, elem_of_remove_dups, elem_of_reverse.
Qed.

Lemma firstOccurrences_NoDup_always l : NoDup (firstOccurrences l).
Proof.
  unfold firstOccurrences. rewrite reverse_Permutation. apply NoDup_remove_dups.
Qed.

Lemma firstOccurrences_snoc' l k :
  firstOccurrences (l ++ [k])
  = if decide (k ∈ l) then firstOccurrences l
    else (firstOccurrences l ++ [k])%list.
Proof.
  unfold firstOccurrences. rewrite reverse_snoc. cbn [remove_dups].
  destruct (decide_rel elem_of k (reverse l)) as [Hin|Hout].
  - rewrite decide_True; [done|]. by apply elem_of_reverse.
  - rewrite decide_False; [by rewrite reverse_cons|]. by rewrite <- elem_of_reverse.
Qed.

(** [idCounts] after the first loop: the ids in the order of their first
    occurrence, each with the paths of its documents. *)
Lemma idCounts_spec documents :
  foldl countId [] documents
  = fmap (M := list) (λ i, (i, filesOf documents i))
      (firstOccurrences (Document.id <$> documents)).
Proof.
  induction documents as [|doc documents IH] using rev_ind; [done|].
  rewrite foldl_app. cbn [foldl]. rewrite IH. unfold countId.
  rewrite mapGet_tabulate, fmap_app.
  change (Document.id <$> [doc]) with [Document.id doc].
  rewrite firstOccurrences_snoc'.
  destruct (decide (Document.id doc ∈ Document.id <$> documents)) as [Hin|Hout].
  - rewrite decide_True by (by rewrite firstOccurrences_elem_of). cbn [default].
    rewrite mapSet_tabulate;
      [|apply firstOccurrences_NoDup_always|by rewrite firstOccurrences_elem_of].
    apply list_fmap_ext. intros n i _. rewrite filesOf_snoc.
    destruct (decide (i = Document.id doc)) as [->|Hne].
    + by rewrite decide_True.
    + rewrite decide_False by done. by rewrite app_nil_r.
  - rewrite decide_False by (by rewrite firstOccurrences_elem_of). cbn [default].
    rewrite mapSet_new.
    2:{ unfold mapKeys. rewrite <- list_fmap_compose.
        rewrite (list_fmap_ext _ id _ (λ _ _ _, eq_refl)), list_fmap_id.
        by rewrite firstOccurrences_elem_of. }
    rewrite fmap_app. cbn [fmap list_fmap]. f_equal.
    + apply list_fmap_ext. intros n i Hi%list_elem_of_lookup_2.
      rewrite firstOccurrences_elem_of in Hi. rewrite filesOf_snoc.
      rewrite decide_False; [by rewrite app_nil_r|]. intros Heq. subst i. by apply Hout.
    + rewrite filesOf_snoc, decide_True by done.
      by rewrite (filesOf_unknown _ _ Hout).
Qed.

Lemma foldl_push {A B} (f : A → B) (l : list A) : ∀ (acc : list B),
  foldl (λ acc a, (acc ++ [f a])%list) acc l = (acc ++ (f <$> l))%list.
Proof.
  induction l as [|a l IH]; intros acc; [by rewrite app_nil_r|].
  cbn [foldl]. rewrite IH. by rewrite <- (assoc_L (++)).
Qed.

Lemma foldl_push_if {A B} (p : A → bool) (f : A → B) (l : list A) :
  ∀ (acc : list B),
  foldl (λ acc a, if p a then (acc ++ [f a])%list else acc) acc l
  = (acc ++ (f <$> filter (λ a, p a = true) l))%list.
Proof.
  induction l as [|a l IH]; intros acc; [by rewrite app_nil_r|].
  cbn [foldl]. rewrite IH, filter_cons. destruct (p a).
  - rewrite decide_True by done. by rewrite <- (assoc_L (++)).
  - by rewrite decide_False.
Qed.

Lemma foldl_reportDuplicates documents keys : ∀ warnings,
  foldl reportDuplicates warnings (fmap (M := list) (λ i, (i, filesOf documents i)) keys)
  = (warnings ++ (keys ≫= duplicatesOf documents))%list.
Proof.
  induction keys as [|k keys IH]; intros warnings; [by rewrite app_nil_r|].
  cbn [fmap list_fmap foldl].
  fold (fmap (M := list) (λ i, (i, filesOf documents i)) keys).
  rewrite IH, bind_cons, (assoc_L (++)). f_equal.
  unfold reportDuplicates, duplicatesOf.
  destruct (1 <? length (filesOf documents k))%nat.
  - by rewrite foldl_push.
  - by rewrite app_nil_r.
Qed.

Lemma foldl_checkFields config documents : ∀ warnings,
  foldl (checkFields config) warnings documents
  = (warnings ++ (documents ≫= fieldsOf config))%list.
Proof.
  induction documents as [|doc documents IH]; intros warnings;
    [by rewrite app_nil_r|].
  cbn [foldl]. rewrite IH, bind_cons. unfold checkFields, fieldsOf.
  rewrite !foldl_push_if. by rewrite <- !(assoc_L (++)).
Qed.

Lemma validateFrontmatter_parts documents index config :
  validateFrontmatter documents index config
  = ((firstOccurrences (Document.id <$> documents) ≫= duplicatesOf documents)
     ++ (documents ≫= fieldsOf config))%list.
Proof.
  unfold validateFrontmatter.
  by rewrite idCounts_spec, foldl_checkFields, foldl_reportDuplicates.
Qed.

Lemma filesOf_length_NoDup documents i :
  NoDup (Document.id <$> documents) → (length (filesOf documents i) ≤ 1)%nat.
Proof.
  unfold filesOf. rewrite length_fmap.
  induction documents as [|d documents IH]; [cbn; lia|].
  cbn [fmap list_fmap]. intros [Hout Hnd]%NoDup_cons. rewrite filter_cons.
  destruct (decide (Document.id d = i)) as [<-|Hne]; [|by apply IH].
  cbn [length]. fold (fmap (M := list) Document.id documents) in Hout.
  pose proof (filesOf_unknown _ _ Hout) as Hnil. unfold filesOf in Hnil.
  apply fmap_nil_inv in Hnil. rewrite Hnil. cbn. lia.
Qed.

Lemma NoDup_filesOf_length documents :
  (∀ i, (length (filesOf documents i) ≤ 1)%nat) →
  NoDup (Document.id <$> documents).
Proof.
  unfold filesOf. induction documents as [|d documents IH]; [constructor|].
  intros Hall. cbn [fmap list_fmap]. apply NoDup_cons. split.
  - intros (d' & Heq & Hd')%list_elem_of_fmap.
    specialize (Hall (Document.id d)). rewrite length_fmap, filter_cons in Hall.
    rewrite decide_True in Hall by done. cbn [length] in Hall.
    assert (d' ∈ filter (λ x, Document.id x = Document.id d) documents) as Hin
      by (by apply list_elem_of_filter).
    destruct (filter _ documents); [by apply elem_of_nil in Hin|]. cbn in Hall. lia.
  - apply IH. intros i. specialize (Hall i).
    rewrite !length_fmap in *. rewrite filter_cons in Hall.
    destruct (decide (Document.id d = i)); cbn [length] in Hall; lia.
Qed.

Lemma duplicates_nil documents :
  firstOccurrences (Document.id <$> documents) ≫= duplicatesOf documents = []
  ↔ NoDup (Document.id <$> documents).
Proof.
  split.
  - intros Hnil. apply NoDup_filesOf_length. intros i.
    destruct (decide (i ∈ Document.id <$> documents)) as [Hin|Hout].
    2:{ rewrite filesOf_unknown by done. cbn. lia. }
    destruct (1 <? length (filesOf documents i))%nat eqn:E;
      [|apply Nat.ltb_ge in E; lia].
    exfalso. apply Nat.ltb_lt in E.
    destruct (filesOf documents i) as [|file files] eqn:Efiles; [cbn in E; lia|].
    eapply (not_elem_of_nil (duplicateId i (file :: files) file)).
    rewrite <- Hnil. apply list_elem_of_bind. exists i.
    split; [|by rewrite firstOccurrences_elem_of].
    unfold duplicatesOf. rewrite Efiles.
    destruct (1 <? length (file :: files))%nat eqn:E'; [|apply Nat.ltb_ge in E'; lia].
    apply list_elem_of_fmap_2, list_elem_of_here.
  - intros Hnd. induction (firstOccurrences _) as [|k keys IH]; [done|].
    rewrite bind_cons, IH, app_nil_r. unfold duplicatesOf.
    pose proof (filesOf_length_NoDup documents k Hnd).
    destruct (1 <? length (filesOf documents k))%nat eqn:E; [|done].
    apply Nat.ltb_lt in E. lia.
Qed.

Lemma fields_nil config documents :
  documents ≫= fieldsOf config = []
  ↔ ∀ doc field, doc ∈ documents →
      field ∈ (Config.required config ++ Config.recommended config)%list →
      isMissing (Document.frontmatter doc) field = false.
Proof.
  split.
  - intros Hnil doc field Hdoc Hfield.
    destruct (isMissing (Document.frontmatter doc) field) eqn:E; [|done].
    exfalso. apply elem_of_app in Hfield as [Hfield|Hfield].
    + eapply (not_elem_of_nil (missingRequired doc field)). rewrite <- Hnil.
      apply list_elem_of_bind. exists doc. split; [|done].
      apply elem_of_app. left. apply list_elem_of_fmap_2.
      by apply list_elem_of_filter.
    + eapply (not_elem_of_nil (missingRecommended doc field)). rewrite <- Hnil.
      apply list_elem_of_bind. exists doc. split; [|done].
      apply elem_of_app. right. apply list_elem_of_fmap_2.
      by apply list_elem_of_filter.
  - intros Hall. induction documents as [|doc documents IH]; [done|].
    rewrite bind_cons, IH, app_nil_r.
    2:{ intros d f Hd. apply Hall. by apply list_elem_of_further. }
    unfold fieldsOf.
    assert (∀ fields, (∀ f, f ∈ fields →
               isMissing (Document.frontmatter doc) f = false) →
             filter (λ f, isMissing (Document.frontmatter doc) f = true) fields = [])
      as Hnone.
    { intros fields Hf. induction fields as [|f fields IHf]; [done|].
      rewrite filter_cons, decide_False.
      - apply IHf. intros f' Hf'. by apply Hf, list_elem_of_further.
      - rewrite Hf; [done|apply list_elem_of_here]. }
    rewrite !Hnone; [done| |].
    + intros f Hf. apply Hall; [apply list_elem_of_here|].
      apply elem_of_app. by right.
    + intros f Hf. apply Hall; [apply list_elem_of_here|].
      apply elem_of_app. by left.
Qed.

(** X7.  [validateFrontmatter] returns first the duplicate-id warnings, id
    by id in the order in which the ids first occur and, for an id that two
    or more documents have, one per document in their order; then, document
    by document, one warning per missing required field and one per missing
    recommended field.  So it returns no warning exactly when the ids are
    pairwise distinct and every document has every required and every
    recommended field, a field that the front matter or every object
    has. *)
Theorem X7_warnings_of_the_front_matter documents index config :
  validateFrontmatter documents index config
  = ((firstOccurrences (Document.id <$> documents) ≫= duplicatesOf documents)
     ++ (documents ≫= fieldsOf config))%list
  ∧ (validateFrontmatter documents index config = []
     ↔ NoDup (Document.id <$> documents)
       ∧ ∀ doc field, doc ∈ documents →
           field ∈ (Config.required config ++ Config.recommended config)%list →
           isMissing (Document.frontmatter doc) field = false).
Proof.
  rewrite validateFrontmatter_parts. split; [done|].
  rewrite <- duplicates_nil, <- fields_nil. split.
  - by intros [? ?]%app_eq_nil.
  - by intros [-> ->].
Qed.

Lemma fieldsOf_not_duplicate config documents :
  List.filter isDuplicateId (documents ≫= fieldsOf config) = [].
Proof.
  induction documents as [|doc documents IH]; [done|].
  rewrite bind_cons, List.filter_app, IH, app_nil_r. unfold fieldsOf.
  rewrite List.filter_app.
  assert (∀ fields, List.filter isDuplicateId (missingRequired doc <$> fields) = [])
    as ->  by (by induction fields).
  assert (∀ fields, List.filter isDuplicateId (missingRecommended doc <$> fields) = [])
    as ->  by (by induction fields).
  done.
Qed.

(** X8.  On the documents that [run] hands over, the values of [byId],
    [validateFrontmatter] never returns a duplicate-id warning, whatever
    ids the files repeat. *)
Theorem X8_no_duplicate_id_warning_on_the_values_of_byId files index config :
  List.filter isDuplicateId
    (validateFrontmatter (allDocs files) index config) = [].
Proof.
  rewrite validateFrontmatter_parts, List.filter_app, fieldsOf_not_duplicate.
  rewrite (proj2 (duplicates_nil (allDocs files))); [done|].
  rewrite allDocs_ids. apply byIdEntries_inv.
Qed.

End FrontmatterProperties.

(** ** Findings of the traceability engine *)

Section FindingProperties.
Import JsMap Main IndexSpec Links ValidatorSpec TraceabilitySpec ReportSpec FindingSpec.
Context {host : JsHost}.
Local Open Scope string_scope.

Lemma ruleMap_values link rule :
  ruleMap !! link = Some rule →
  rule ∈ [ "traceability/requirement-derivation"; "traceability/test-coverage";
           "traceability/risk-mitigation"; "traceability/design-coverage" ].
Proof.
  unfold ruleMap. intros Hin%elem_of_list_to_map_2.
  repeat (apply elem_of_cons in Hin as [[= -> ->]|Hin];
          [by repeat (first [apply list_elem_of_here|apply list_elem_of_further])|]).
  by apply elem_of_nil in Hin.
Qed.

Lemma missingLinkWarning_rule chain doc :
  (isTraceabilityRule (ValidationWarning.rule (missingLinkWarning chain doc))
   = true
   ∨ (TraceabilityChain.link chain ∈ objectPrototype
      ∧ ValidationWarning.rule (missingLinkWarning chain doc)
        = Inherited (TraceabilityChain.link chain)))
  ∧ isHazardRule (missingLinkWarning chain doc) = false.
Proof.
  unfold isHazardRule, missingLinkWarning, tableGet.
  cbn [ValidationWarning.rule].
  destruct (ruleMap !! TraceabilityChain.link chain) as [rule|] eqn:E.
  - apply ruleMap_values in E. cbn [default].
    repeat (apply elem_of_cons in E as [->|E]; [split; [by left|done]|]).
    by apply elem_of_nil in E.
  - case_bool_decide as Hin; cbn [default]; (split; [|done]);
      [by right|by left].
Qed.

Lemma checkSource_paired all index docLinks chain warnings gaps coveredCount doc :
  chain ∈ all → Forall2 (paired all) warnings gaps →
  let '(warnings', gaps', _) :=
    checkSource index docLinks chain (warnings, gaps, coveredCount) doc in
  Forall2 (paired all) warnings' gaps'.
Proof.
  intros Hin Hp. rewrite checkSource_isCovered.
  destruct (isCovered index docLinks chain doc); [done|].
  apply Forall2_app; [done|]. constructor; [|constructor].
  split_and!; [|done|done].
  destruct (proj1 (missingLinkWarning_rule chain doc)) as [Hrule|[Hp1 Hp2]];
    [by left|right; by exists chain].
Qed.

Lemma foldl_checkSource_paired all index docLinks chain docs :
  chain ∈ all →
  ∀ warnings gaps coveredCount,
  Forall2 (paired all) warnings gaps →
  Forall2 (paired all)
    (foldl (checkSource index docLinks chain) (warnings, gaps, coveredCount) docs).1.1
    (foldl (checkSource index docLinks chain) (warnings, gaps, coveredCount) docs).1.2.
Proof.
  intros Hin.
  induction docs as [|doc docs IH]; intros warnings gaps coveredCount Hp; [done|].
  cbn [foldl].
  pose proof (checkSource_paired all index docLinks chain _ _ coveredCount doc
                Hin Hp) as H1.
  destruct (checkSource _ _ _ _ _) as [[w' g'] c']. by apply IH.
Qed.

Lemma checkChain_paired all index docLinks r chain :
  chain ∈ all →
  Forall2 (paired all) (warnings r) (gaps r) →
  Forall2 (paired all) (warnings (checkChain index docLinks r chain))
    (gaps (checkChain index docLinks r chain)).
Proof.
  intros Hin Hp. unfold checkChain.
  pose proof (foldl_checkSource_paired all index docLinks chain
    (default [] (DocumentIndex.byType index
                 !! Text (TraceabilityChain.source chain)))
    Hin _ _ 0%Z Hp) as H1.
  by destruct (foldl _ _ _) as [[w' g'] c'].
Qed.

Lemma checkRisk_paired all index docLinks warnings gaps risk :
  Forall2 (paired all) warnings gaps →
  Forall2 (paired all) (checkRisk index docLinks (warnings, gaps) risk).1
    (checkRisk index docLinks (warnings, gaps) risk).2.
Proof.
  intros Hp. unfold checkRisk.
  repeat (case_match; try done);
    cbn [fst snd]; (apply Forall2_app; [done|]);
    (constructor; [|constructor]); by split_and!; [left|..].
Qed.

Lemma validateHazardChains_paired all documents index docLinks warnings gaps :
  Forall2 (paired all) warnings gaps →
  Forall2 (paired all)
    (validateHazardChains documents index docLinks warnings gaps).1
    (validateHazardChains documents index docLinks warnings gaps).2.
Proof.
  unfold validateHazardChains.
  generalize (default [] (DocumentIndex.byType index !! Text "risk")).
  intros risks. revert warnings gaps.
  induction risks as [|risk risks IH]; intros warnings gaps Hp; [done|].
  cbn [foldl]. pose proof (checkRisk_paired all index docLinks _ _ risk Hp) as H1.
  destruct (checkRisk _ _ _ _) as [w' g']. by apply IH.
Qed.

Lemma foldl_checkChain_paired all index docLinks chains : ∀ r,
  Forall (λ chain, chain ∈ all) chains →
  Forall2 (paired all) (warnings r) (gaps r) →
  Forall2 (paired all) (warnings (foldl (checkChain index docLinks) r chains))
    (gaps (foldl (checkChain index docLinks) r chains)).
Proof.
  induction chains as [|chain chains IH]; intros r Hall Hp; [done|].
  inversion Hall as [|? ? Hin Hrest]; subst.
  cbn [foldl]. apply IH; [done|]. by apply checkChain_paired.
Qed.

Lemma validateTraceability_paired documents index config :
  Forall2 (paired (Config.chains config))
    (warnings (validateTraceability documents index config))
    (gaps (validateTraceability documents index config)).
Proof.
  unfold validateTraceability. destruct (Config.type config); [constructor|].
  pose proof (validateHazardChains_paired (Config.chains config) documents index
    (buildDocLinks documents)
    _ _ (foldl_checkChain_paired (Config.chains config) index
           (buildDocLinks documents) (Config.chains config)
           {| warnings := []; coverage := []; gaps := [] |}
           ltac:(by apply Forall_forall)
           (Forall2_nil_2 _ _ (paired (Config.chains config))))) as H1.
  by destruct (validateHazardChains _ _ _ _ _) as [w' g'].
Qed.

(** X9.  [validateTraceability] pushes its warnings and gap entries in
    pairs: the two lists have the same length, and at every position both
    have severity warning and the rule of the warning is a text that
    starts with traceability/ or, for a configured chain whose link is
    named like a member that every object inherits (constructor, toString,
    ...), that member, which [ruleMap] gives for it. *)
Theorem X9_warnings_and_gaps_go_in_pairs documents index config :
  Forall2 (paired (Config.chains config))
    (warnings (validateTraceability documents index config))
    (gaps (validateTraceability documents index config))
  ∧ length (warnings (validateTraceability documents index config))
    = length (gaps (validateTraceability documents index config)).
Proof.
  pose proof (validateTraceability_paired documents index config) as Hp.
  split; [done|]. by eapply Forall2_length.
Qed.

Lemma missingLinkWarnings_snoc warnings w :
  missingLinkWarnings (warnings ++ [w])
  = (missingLinkWarnings warnings ++ if isHazardRule w then [] else [w])%list.
Proof.
  unfold missingLinkWarnings. rewrite List.filter_app. cbn [List.filter].
  by destruct (isHazardRule w).
Qed.

Lemma foldl_checkSource_uncovered index docLinks chain docs :
  ∀ warnings gaps coveredCount,
  let after :=
    foldl (checkSource index docLinks chain) (warnings, gaps, coveredCount) docs in
  (Z.of_nat (length (missingLinkWarnings after.1.1))
   = Z.of_nat (length (missingLinkWarnings warnings))
     + (Z.of_nat (length docs) - (after.2 - coveredCount)))%Z
  ∧ (coveredCount ≤ after.2 ≤ coveredCount + Z.of_nat (length docs))%Z.
Proof.
  induction docs as [|doc docs IH]; intros warnings gaps coveredCount.
  - cbn [foldl fst snd length]. lia.
  - cbn [foldl]. rewrite checkSource_isCovered.
    destruct (isCovered index docLinks chain doc).
    + specialize (IH warnings gaps (coveredCount + 1)%Z). cbv zeta in *.
      cbn [length]. lia.
    + specialize (IH (warnings ++ [missingLinkWarning chain doc])%list
                     (gaps ++ [missingLinkGap chain doc])%list coveredCount).
      cbv zeta in *. rewrite missingLinkWarnings_snoc in IH.
      rewrite (proj2 (missingLinkWarning_rule chain doc)) in IH.
      rewrite length_app in IH. cbn [length] in *. lia.
Qed.

Lemma sumUncovered_snoc coverage entry :
  sumUncovered (coverage ++ [entry]) = (sumUncovered coverage + uncovered entry)%Z.
Proof.
  unfold sumUncovered. induction coverage as [|e coverage IH]; cbn [app foldr].
  - lia.
  - rewrite IH. lia.
Qed.

Lemma checkChain_entry index docLinks r chain :
  ∃ entry,
    coverage (checkChain index docLinks r chain) = (coverage r ++ [entry])%list
    ∧ entryOfChain index chain entry
    ∧ Z.of_nat (length (missingLinkWarnings
                          (warnings (checkChain index docLinks r chain))))
      = (Z.of_nat (length (missingLinkWarnings (warnings r)))
         + uncovered entry)%Z.
Proof.
  unfold checkChain.
  pose proof (foldl_checkSource_uncovered index docLinks chain
    (default [] (DocumentIndex.byType index
                 !! Text (TraceabilityChain.source chain)))
    (warnings r) (gaps r) 0%Z) as Hfold. cbv zeta in Hfold.
  destruct (foldl _ _ _) as [[warnings' gaps'] coveredCount].
  cbn [fst snd] in Hfold. destruct Hfold as [Hlen Hcount].
  eexists. cbn [coverage warnings]. split; [reflexivity|].
  unfold entryOfChain, uncovered.
  cbn [TraceabilityCoverage.sourceType TraceabilityCoverage.targetType
       TraceabilityCoverage.totalSources TraceabilityCoverage.coveredSources].
  split_and!; [done|done|done|lia|lia|lia].
Qed.

Lemma foldl_checkChain_entries index docLinks chains : ∀ r done,
  Forall2 (entryOfChain index) done (coverage r) →
  Z.of_nat (length (missingLinkWarnings (warnings r))) = sumUncovered (coverage r) →
  let after := foldl (checkChain index docLinks) r chains in
  Forall2 (entryOfChain index) (done ++ chains) (coverage after)
  ∧ Z.of_nat (length (missingLinkWarnings (warnings after)))
    = sumUncovered (coverage after).
Proof.
  induction chains as [|chain chains IH]; intros r done Hentries Hsum.
  - cbn [foldl]. by rewrite app_nil_r.
  - cbn [foldl].
    destruct (checkChain_entry index docLinks r chain) as (entry & Hcov & He & Hlen).
    specialize (IH (checkChain index docLinks r chain) (done ++ [chain])%list).
    rewrite <- (assoc_L (++)) in IH. apply IH.
    + rewrite Hcov. apply Forall2_app; [done|]. constructor; [done|constructor].
    + rewrite Hlen, Hcov, sumUncovered_snoc. lia.
Qed.

Lemma checkRisk_hazard index docLinks warnings gaps risk :
  missingLinkWarnings (checkRisk index docLinks (warnings, gaps) risk).1
  = missingLinkWarnings warnings.
Proof.
  unfold checkRisk.
  repeat (case_match; try done);
    cbn [fst]; by rewrite missingLinkWarnings_snoc, app_nil_r.
Qed.

Lemma validateHazardChains_hazard documents index docLinks warnings gaps :
  missingLinkWarnings
    (validateHazardChains documents index docLinks warnings gaps).1
  = missingLinkWarnings warnings.
Proof.
  unfold validateHazardChains.
  generalize (default [] (DocumentIndex.byType index !! Text "risk")).
  intros risks. revert warnings gaps.
  induction risks as [|risk risks IH]; intros warnings gaps; [done|].
  cbn [foldl]. pose proof (checkRisk_hazard index docLinks warnings gaps risk) as H1.
  destruct (checkRisk _ _ _ _) as [w' g']. by rewrite IH.
Qed.

(** X10.  For a qms configuration [validateTraceability] returns three
    empty lists.  For a device configuration the coverage has one entry per
    configured chain, in their order, with the types of the chain, the size
    of the group of the source type as totalSources and a coveredSources
    between 0 and totalSources; and the warnings other than those of the
    hazard chains are as many as the entries count source documents that
    are not covered. *)
Theorem X10_coverage_entries_and_missing_links documents index config :
  let r := validateTraceability documents index config in
  (Config.type config = qms
   → r = {| warnings := []; coverage := []; gaps := [] |})
  ∧ (Config.type config = device →
     Forall2 (entryOfChain index) (Config.chains config) (coverage r)
     ∧ Z.of_nat (length (missingLinkWarnings (warnings r)))
       = sumUncovered (coverage r)).
Proof.
  cbv zeta. unfold validateTraceability.
  split; intros ->; [done|].
  destruct (foldl_checkChain_entries index (buildDocLinks documents)
    (Config.chains config) {| warnings := []; coverage := []; gaps := [] |} [])
    as [Hentries Hsum]; [constructor|done|].
  pose proof (validateHazardChains_hazard documents index (buildDocLinks documents)
    (warnings (foldl (checkChain index (buildDocLinks documents))
                 {| warnings := []; coverage := []; gaps := [] |}
                 (Config.chains config)))
    (gaps (foldl (checkChain index (buildDocLinks documents))
                 {| warnings := []; coverage := []; gaps := [] |}
                 (Config.chains config)))) as Hhaz.
  destruct (validateHazardChains _ _ _ _ _) as [w' g'].
  cbn [coverage warnings fst] in *. split; [done|]. by rewrite Hhaz.
Qed.

Lemma filter_all {A} (p : A → bool) l :
  Forall (λ a, p a = true) l → List.filter p l = l.
Proof.
  induction 1 as [|a l Ha _ IH]; [done|]. cbn [List.filter]. by rewrite Ha, IH.
Qed.

Lemma commentWarnings_app changedFiles l1 l2 :
  commentWarnings changedFiles (l1 ++ l2)
  = (kept1 ← commentWarnings changedFiles l1;
     kept2 ← commentWarnings changedFiles l2;
     Ok (kept1 ++ kept2)%list).
Proof.
  induction l1 as [|w l1 IH]; cbn [app commentWarnings mbind result_bind].
  - by destruct (commentWarnings changedFiles l2).
  - destruct (shownInComment changedFiles w) as [shown|]; [|done].
    cbn [mbind result_bind]. rewrite IH.
    destruct (commentWarnings changedFiles l1) as [kept1|]; [|done].
    cbn [mbind result_bind].
    destruct (commentWarnings changedFiles l2) as [kept2|]; [|done].
    cbn [mbind result_bind]. by destruct shown.
Qed.

Lemma commentWarnings_all changedFiles l :
  Forall (λ w, shownInComment changedFiles w = Ok true) l →
  commentWarnings changedFiles l = Ok l.
Proof.
  induction 1 as [|w l Hw _ IH]; [done|].
  cbn [commentWarnings]. by rewrite Hw, IH.
Qed.

(** X11.  When no configured chain has a link named like a member that
    every object inherits, the filter of [runPrMode] keeps every warning
    of [validateTraceability], whatever files the pull request changed,
    and throws for them no more than for the warnings before them. *)
Theorem X11_comment_keeps_traceability_warnings changedFiles others
    documents index config :
  Forall (λ chain, TraceabilityChain.link chain ∉ objectPrototype)
    (Config.chains config) →
  commentWarnings changedFiles
    (others ++ warnings (validateTraceability documents index config))
  = (kept ← commentWarnings changedFiles others;
     Ok (kept ++ warnings (validateTraceability documents index config))%list).
Proof.
  intros Hlinks. rewrite commentWarnings_app.
  rewrite (commentWarnings_all _ (warnings _)); [done|].
  pose proof (validateTraceability_paired documents index config) as Hp.
  induction Hp as [|w g ws gs [Hrule _] _ IH]; constructor; [|done].
  unfold shownInComment. case_bool_decide; [done|].
  destruct Hrule as [Hrule|(chain & Hin & Hproto & _)].
  - destruct (ValidationWarning.rule w) as [rule|]; [|done].
    cbn [isTraceabilityRule] in Hrule. by rewrite Hrule.
  - eapply Forall_forall in Hlinks; [|exact Hin]. done.
Qed.

(** X12.  Of the warnings of [validateLinks] the filter of [runPrMode]
    keeps those of the documents whose file the pull request changed: what
    it keeps is what [validateLinks] returns for these documents alone. *)
Theorem X12_comment_shows_broken_links_of_changed_files changedFiles
    documents index :
  commentWarnings changedFiles (validateLinks documents index)
  = Ok (validateLinks
          (filter (λ doc, Document.filePath doc ∈ changedFiles) documents)
          index).
Proof.
  rewrite !validateLinks_flat.
  induction documents as [|doc documents IH]; [done|].
  rewrite bind_cons, commentWarnings_app, IH, filter_cons.
  assert (∀ links, commentWarnings changedFiles (brokenReference doc <$> links)
    = Ok (if decide (Document.filePath doc ∈ changedFiles)
          then brokenReference doc <$> links else [])) as ->.
  { induction links as [|l links IHl].
    - by case_decide.
    - cbn [fmap list_fmap commentWarnings].
      fold (fmap (M := list) (brokenReference doc) links).
      rewrite IHl. unfold shownInComment. cbn [ValidationWarning.file
        ValidationWarning.rule brokenReference]. cbn [String.prefix String.eqb].
      destruct (decide (Document.filePath doc ∈ changedFiles)).
      + by rewrite bool_decide_eq_true_2.
      + by rewrite bool_decide_eq_false_2. }
  cbn [mbind result_bind].
  destruct (decide (Document.filePath doc ∈ changedFiles)); [by rewrite bind_cons|done].
Qed.

End FindingProperties.

(** ** The kinds of the links *)

Section LinkKinds.
Import LinkSpec.
Local Open Scope string_scope.

Lemma linksOfMatch_kind ty text :
  Forall (λ l, Link.type l = ty) (linksOfMatch ty text).
Proof.
  unfold linksOfMatch. destruct (matchAll idPattern text) as [idMatches|].
  - apply Forall_forall. by intros l (idMatch & -> & _)%list_elem_of_fmap.
  - destruct (trim text); by repeat constructor.
Qed.

Lemma whileExec_kind fuel pattern ty text : ∀ lastIndex links links' lastIndex',
  whileExec fuel pattern ty text lastIndex links = Some (links', lastIndex') →
  ∃ group, links' = (links ++ group)%list ∧ Forall (λ l, Link.type l = ty) group.
Proof.
  induction fuel as [|fuel IH]; intros lastIndex links links' lastIndex'; [done|].
  cbn [whileExec]. destruct (exec pattern text lastIndex) as [[m|] j].
  - intros (group & -> & Hgroup)%IH.
    exists (linksOfMatch ty (group1 m) ++ group)%list.
    split; [by rewrite (assoc_L (++))|].
    apply Forall_app. split; [apply linksOfMatch_kind|done].
  - intros [= <- <-]. exists []. by rewrite app_nil_r.
Qed.

Lemma forPatterns_kinds fuel patterns text : ∀ links links',
  forPatterns fuel patterns text links = Some links' →
  ∃ groups,
    links' = (links ++ concat groups)%list
    ∧ Forall2 (λ (q : RegExp * string) group,
                 Forall (λ l, Link.type l = q.2) group) patterns groups.
Proof.
  induction patterns as [|[pattern ty] patterns IH]; intros links links'.
  - intros [= <-]. exists []. by rewrite app_nil_r.
  - cbn [forPatterns].
    destruct (whileExec fuel pattern ty text 0 links) as [[links1 j]|] eqn:E;
      [|done].
    apply whileExec_kind in E as (group & -> & Hgroup).
    intros (groups & -> & Hgroups)%IH. exists (group :: groups).
    split; [by rewrite <- (assoc_L (++))|]. by constructor.
Qed.

(** X13.  The links of a document come grouped by kind in the order of
    the table of patterns (derives_from, verified_by, validated_by,
    implements, mitigates, analyzes, leads_to, results_in), not in the
    order of the body; every link has one of these eight kinds; and a body
    with fewer than four asterisks has no link. *)
Theorem X13_links_come_grouped_by_kind doc :
  (∃ groups,
     extractLinks doc = concat groups
     ∧ Forall2 (λ (q : RegExp * string) group,
                  Forall (λ l, Link.type l = q.2) group) linkPatterns groups)
  ∧ Forall (λ l, Link.type l ∈ linkPatterns.*2) (extractLinks doc)
  ∧ ((occ "*" (bodyText doc) < 4)%nat → extractLinks doc = []).
Proof.
  pose proof (extractLinks_terminates doc (S (String.length (Document.body doc)))
                (Nat.lt_succ_diag_r _)) as Hrun.
  assert (∃ groups,
     extractLinks doc = concat groups
     ∧ Forall2 (λ (q : RegExp * string) group,
                  Forall (λ l, Link.type l = q.2) group) linkPatterns groups)
    as Hgroups.
  { unfold extractLinksFuel in Hrun. by apply forPatterns_kinds in Hrun. }
  split_and!; [done| |].
  - destruct Hgroups as (groups & -> & Hgroups).
    induction Hgroups as [|q group patterns groups Hgroup _ IH]; [constructor|].
    cbn [concat]. apply Forall_app. split.
    + eapply Forall_impl; [exact Hgroup|]. intros l Hl. cbn [fmap list_fmap].
      rewrite Hl. apply list_elem_of_here.
    + eapply Forall_impl; [exact IH|]. intros l Hl. cbn [fmap list_fmap].
      by apply list_elem_of_further.
  - intros Hocc. rewrite extractLinks_linksVia.
    pose proof linkPatterns_stars as Hstars. clear Hrun Hgroups.
    induction Hstars as [|q patterns Hq _ IH]; [done|].
    cbn [map concat]. rewrite IH, app_nil_r.
    apply (linksVia_needs _ "*"%char); [apply caseless_star|lia].
Qed.

End LinkKinds.

(** A body with one asterisk. *)
Lemma X13_witness :
  (LinkSpec.occ "*" (LinkSpec.bodyText (Samples.docOf "See SRS-001 * and [SRS-002]"))
   < 4)%nat
  ∧ extractLinks (Samples.docOf "See SRS-001 * and [SRS-002]") = [].
Proof.
  assert ((LinkSpec.occ "*"
             (LinkSpec.bodyText (Samples.docOf "See SRS-001 * and [SRS-002]"))
           < 4)%nat) as Hocc by (vm_compute; lia).
  split; [exact Hocc|].
  exact (proj2 (proj2 (X13_links_come_grouped_by_kind
                         (Samples.docOf "See SRS-001 * and [SRS-002]"))) Hocc).
Defined.

(** ** The properties above at the fixtures *)

(** The old SRS-001 is the one [byId] holds. *)
Lemma X1_witness :
  DocumentIndex.byId (buildDocumentIndex (host := Samples.asciiHost)
                        Fixtures.repeatedFiles) !! Document.id Fixtures.srs001
  = Some Fixtures.srs001Old.
Proof.
  apply (proj2 (proj2 (proj2 (X1_byId_and_byPath_hold_the_last_file
           (host := Samples.asciiHost) Fixtures.repeatedFiles)))
           [] Fixtures.srs001 [Fixtures.srs002] Fixtures.srs001Old).
  - vm_compute. reflexivity.
  - reflexivity.
Defined.

(** Both links of TC-001 resolve in the device fixture. *)
Lemma X5_witness :
  Links.validateLinks [Samples.docTc001] Samples.deviceIndex = []
  ∧ is_Some (DocumentIndex.byId Samples.deviceIndex !! "SRS-002"%string).
Proof.
  assert (Links.validateLinks [Samples.docTc001] Samples.deviceIndex = [])
    as Hnone by (vm_compute; reflexivity).
  split; [exact Hnone|].
  apply (proj1 (proj1 (proj2 (X5_one_warning_per_unresolved_link
           [Samples.docTc001] Samples.deviceIndex))) Hnone Samples.docTc001
           {| Link.type := "verified_by"; Link.targetId := "SRS-002" |}).
  - apply list_elem_of_here.
  - replace (extractLinks Samples.docTc001)
      with [ {| Link.type := "verified_by"; Link.targetId := "SRS-001" |};
             {| Link.type := "verified_by"; Link.targetId := "SRS-002" |} ]
      by (vm_compute; reflexivity).
    apply list_elem_of_further, list_elem_of_here.
Defined.

(** With only the id required, the device fixture has no warning. *)
Lemma X7_witness :
  NoDup (Document.id <$> Samples.deviceDocs).
Proof.
  apply (proj1 (proj2 (X7_warnings_of_the_front_matter
           (object := Fixtures.plainObject) Samples.deviceDocs
           Samples.deviceIndex Fixtures.idOnly))).
  vm_compute. reflexivity.
Defined.

(** The five chains of the device fixture, and a pull request that
    changed no file. *)
Lemma X11_witness :
  Forall (λ chain, TraceabilityChain.link chain ∉ objectPrototype)
    (Config.chains (ConfigDefaults.defaultConfig device))
  ∧ Main.commentWarnings []
      ([] ++ warnings (validateTraceability (host := Samples.asciiHost)
                         Samples.deviceDocs Samples.deviceIndex
                         (ConfigDefaults.defaultConfig device)))
    = Ok ([] ++ warnings (validateTraceability (host := Samples.asciiHost)
                            Samples.deviceDocs Samples.deviceIndex
                            (ConfigDefaults.defaultConfig device)))%list.
Proof.
  assert (Forall (λ chain, TraceabilityChain.link chain ∉ objectPrototype)
            (Config.chains (ConfigDefaults.defaultConfig device))) as Hlinks
    by (apply Forall_forall; intros chain Hin; apply (bool_decide_unpack _);
        revert chain Hin; apply Forall_forall; apply (bool_decide_unpack _);
        vm_compute; reflexivity).
  split; [exact Hlinks|].
  exact (X11_comment_keeps_traceability_warnings (host := Samples.asciiHost)
           [] [] Samples.deviceDocs Samples.deviceIndex
           (ConfigDefaults.defaultConfig device) Hlinks).
Defined.

(** The five chains of the device fixture. *)
Lemma X10_witness :
  Forall2 (FindingSpec.entryOfChain Samples.deviceIndex)
    ConfigDefaults.DEFAULT_DEVICE_CHAINS
    (coverage (validateTraceability (host := Samples.asciiHost)
                 Samples.deviceDocs Samples.deviceIndex
                 (ConfigDefaults.defaultConfig device))).
Proof.
  apply (proj2 (X10_coverage_entries_and_missing_links
           (host := Samples.asciiHost) Samples.deviceDocs Samples.deviceIndex
           (ConfigDefaults.defaultConfig device))).
  reflexivity.
Defined.

(** ** The acceptability table *)

Section TierProperties.
Import RiskSpec TierSpec.

Lemma onScale_cases p s :
  onScale p s →
  (p = 1 ∨ p = 2 ∨ p = 3 ∨ p = 4 ∨ p = 5)%Z
  ∧ (s = 1 ∨ s = 2 ∨ s = 3 ∨ s = 4 ∨ s = 5)%Z.
Proof. intros [Hp Hs]. lia. Qed.

(** X14.  On the scale 1..5 the tier never gets milder when the residual
    probability or the residual severity grows, [getAcceptability] never
    throws there, and the table is symmetric: probability and severity can
    be exchanged. *)
Theorem X14_tiers_grow_with_probability_and_severity p s p' s' :
  onScale p s → onScale p' s' → (p ≤ p')%Z → (s ≤ s')%Z →
  (rankAt p s ≤ rankAt p' s' < 3)%nat
  ∧ getAcceptability (ofZ p) (ofZ s) = getAcceptability (ofZ s) (ofZ p).
Proof.
  intros [Hp Hs]%onScale_cases [Hp' Hs']%onScale_cases Hle Hle'.
  destruct Hp as [-> | [-> | [-> | [-> | ->]]]];
    destruct Hs as [-> | [-> | [-> | [-> | ->]]]];
    destruct Hp' as [-> | [-> | [-> | [-> | ->]]]]; try lia;
    destruct Hs' as [-> | [-> | [-> | [-> | ->]]]]; try lia;
    (split; [vm_compute; lia|reflexivity]).
Qed.

End TierProperties.

(** From (2, 4) to (3, 5): from review_required to unacceptable. *)
Lemma X14_witness :
  (TierSpec.rankAt 2 4 ≤ TierSpec.rankAt 3 5 < 3)%nat
  ∧ getAcceptability (ofZ 2) (ofZ 4) = getAcceptability (ofZ 4) (ofZ 2).
Proof.
  apply X14_tiers_grow_with_probability_and_severity;
    first [lia | (split; lia)].
Defined.

(** ** The changelog *)

Section ChangelogProperties.
Import Changelog ChangelogSpec.
Context {shell : Shell}.
Local Open Scope string_scope.

Lemma documentIdsOf_idsAt index files :
  documentIdsOf index files = idsAt index files.
Proof.
  unfold documentIdsOf, idsAt.
  assert (∀ acc,
    foldl (λ documentIds file,
             match DocumentIndex.byPath index !! file with
             | Some doc => (documentIds ++ [Document.id doc])%list
             | None => documentIds
             end) acc files
    = (acc ++ omap (λ file, Document.id <$> DocumentIndex.byPath index !! file)
                files)%list) as Hgen; [|apply Hgen].
  induction files as [|file files IH]; intros acc; [by rewrite app_nil_r|].
  cbn [foldl omap list_omap]. rewrite IH.
  destruct (DocumentIndex.byPath index !! file); cbn [fmap option_fmap option_map].
  - by rewrite <- (assoc_L (++)).
  - done.
Qed.

Lemma nonEmptyLines_empty : nonEmptyLines EmptyString = [].
Proof. reflexivity. Qed.

(** One turn of the loop: the commit adds its entry, if it has one. *)
Lemma addCommit_entry index repoRoot entries commit :
  addCommit index repoRoot entries commit
  = files ← filesOfCommit repoRoot (beforeBar commit);
    Some (entries ++ option_list (entryOfCommit index commit files))%list.
Proof.
  unfold addCommit, filesOfCommit, beforeBar.
  destruct (execSync (gitDiffTree (List.hd EmptyString (splitOn "|" commit)))
              repoRoot) as [out|]; [|done].
  cbn [fmap option_fmap option_map mbind option_bind].
  destruct (String.eqb_spec (trimmed out) EmptyString) as [->|Hne].
  - by rewrite nonEmptyLines_empty, app_nil_r.
  - rewrite documentIdsOf_idsAt. unfold entryOfCommit, afterBar.
    destruct (idsAt index (nonEmptyLines (trimmed out))) as [|i ids].
    + by rewrite app_nil_r.
    + done.
Qed.

Lemma forCommits_entries index repoRoot commits : ∀ entries,
  forCommits index repoRoot entries commits
  = files ← mapM (λ commit, filesOfCommit repoRoot (beforeBar commit)) commits;
    Some (entries
          ++ omap (λ cf : string * list string, entryOfCommit index cf.1 cf.2)
               (zip commits files))%list.
Proof.
  induction commits as [|commit commits IH]; intros entries.
  - cbn. by rewrite app_nil_r.
  - cbn [forCommits mapM]. rewrite addCommit_entry.
    destruct (filesOfCommit repoRoot (beforeBar commit)) as [fs|]; [|done].
    cbn [mbind option_bind]. rewrite IH.
    destruct (mapM _ commits) as [files|]; [|done].
    cbn [mbind option_bind mret option_ret zip zip_with omap list_omap fst snd].
    f_equal. rewrite <- (assoc_L (++)). f_equal.
    by destruct (entryOfCommit index commit fs).
Qed.

Lemma entryOfCommit_ids index commit files entry :
  entryOfCommit index commit files = Some entry →
  ChangelogEntry.commitSha entry = beforeBar commit
  ∧ ChangelogEntry.commitMessage entry = afterBar commit
  ∧ ChangelogEntry.documentIds entry = idsAt index files
  ∧ ChangelogEntry.documentIds entry ≠ [].
Proof.
  unfold entryOfCommit. destruct (idsAt index files) as [|i ids]; [done|].
  by intros [= <-].
Qed.

(** X15.  [buildChangelog] asks git for the log and then, line by line,
    for the files of the commit named before the first bar; if one of
    these commands fails it throws.  Otherwise it returns, in the order of
    the log, one entry for every line whose files hold at least one
    document of [byPath]: its documentIds are the ids of these documents in
    the order of the files and are never empty, its commitSha is the text
    before the first bar and its commitMessage the text after it.  A
    commit whose files hold no document has no entry. *)
Theorem X15_changelog_entries_follow_the_log index baseRef headRef repoRoot :
  buildChangelog index baseRef headRef repoRoot
  = (logOutput ← execSync (gitLog baseRef headRef) repoRoot;
     let commits := nonEmptyLines (trimmed logOutput) in
     files ← mapM (λ commit, filesOfCommit repoRoot (beforeBar commit)) commits;
     Some (omap (λ cf : string * list string, entryOfCommit index cf.1 cf.2)
             (zip commits files)))
  ∧ (∀ entries, buildChangelog index baseRef headRef repoRoot = Some entries →
       Forall (λ entry, ChangelogEntry.documentIds entry ≠ []) entries).
Proof.
  assert (buildChangelog index baseRef headRef repoRoot
          = (logOutput ← execSync (gitLog baseRef headRef) repoRoot;
             let commits := nonEmptyLines (trimmed logOutput) in
             files ← mapM (λ commit, filesOfCommit repoRoot (beforeBar commit))
                       commits;
             Some (omap (λ cf : string * list string,
                           entryOfCommit index cf.1 cf.2)
                     (zip commits files)))) as Heq.
  { unfold buildChangelog.
    destruct (execSync (gitLog baseRef headRef) repoRoot) as [logOutput|]; [|done].
    cbn [fmap option_fmap option_map mbind option_bind].
    destruct (String.eqb_spec (trimmed logOutput) EmptyString) as [->|Hne].
    - done.
    - by rewrite forCommits_entries. }
  split; [done|]. rewrite Heq. intros entries Hentries.
  destruct (execSync (gitLog baseRef headRef) repoRoot) as [logOutput|]; [|done].
  cbn [mbind option_bind] in Hentries. cbv zeta in Hentries.
  destruct (mapM _ _) as [files|]; [|done].
  cbn [mbind option_bind] in Hentries. injection Hentries as <-.
  apply Forall_forall. intros entry ([commit fs] & _ & Hentry)%list_elem_of_omap.
  cbn [fst snd] in Hentry. by apply entryOfCommit_ids in Hentry as (_ & _ & _ & ?).
Qed.

Lemma splitOn_before_sep sep before after :
  ¬ In sep (list_ascii_of_string before) →
  splitOn sep (before +:+ String sep after) = before :: splitOn sep after.
Proof.
  induction before as [|a before IH]; intros Hnot.
  - simpl. by rewrite Ascii.eqb_refl.
  - cbn [list_ascii_of_string In] in Hnot. simpl.
    destruct (Ascii.eqb_spec a sep) as [->|Hne]; [tauto|].
    rewrite IH by tauto. done.
Qed.

(** X16.  A log line is cut at its first bar only: for a line that is a
    hash without bar, a bar and a subject, the entry has the hash as
    commitSha and the whole subject as commitMessage, whatever bars the
    subject holds. *)
Theorem X16_subject_with_bars_is_kept index repoRoot entries sha subject out :
  ¬ In "|"%char (list_ascii_of_string sha) →
  execSync (gitDiffTree sha) repoRoot = Some out →
  idsAt index (nonEmptyLines (trimmed out)) ≠ [] →
  addCommit index repoRoot entries (sha +:+ "|" +:+ subject)
  = Some (entries
          ++ [ {| ChangelogEntry.commitSha := sha;
                  ChangelogEntry.commitMessage := subject;
                  ChangelogEntry.documentIds :=
                    idsAt index (nonEmptyLines (trimmed out)) |} ])%list.
Proof.
  intros Hsha Hout Hids. rewrite addCommit_entry.
  unfold filesOfCommit, entryOfCommit, beforeBar, afterBar.
  change ("|" +:+ subject) with (String "|" subject).
  rewrite splitOn_before_sep by done. cbn [List.hd List.tl].
  rewrite Hout. cbn [fmap option_fmap option_map mbind option_bind].
  change "|" with (String "|" EmptyString). rewrite join_splitOn.
  by destruct (idsAt index (nonEmptyLines (trimmed out))).
Qed.

End ChangelogProperties.

(** Of the two commits the one on SRS-001 has an entry. *)
Lemma X15_witness :
  Changelog.buildChangelog (shell := GitFixtures.git) Samples.deviceIndex
    "v1.0.0" "HEAD" "/repo" = Some [GitFixtures.fixCommit]
  ∧ Forall (λ entry, Changelog.ChangelogEntry.documentIds entry ≠ [])
      [GitFixtures.fixCommit].
Proof.
  assert (Changelog.buildChangelog (shell := GitFixtures.git)
            Samples.deviceIndex "v1.0.0" "HEAD" "/repo"
          = Some [GitFixtures.fixCommit]) as Hrun by (vm_compute; reflexivity).
  split; [exact Hrun|].
  exact (proj2 (X15_changelog_entries_follow_the_log (shell := GitFixtures.git)
                  Samples.deviceIndex "v1.0.0" "HEAD" "/repo") _ Hrun).
Defined.

(** The subject of the first commit keeps its bar. *)
Lemma X16_witness :
  Changelog.addCommit (shell := GitFixtures.git) Samples.deviceIndex "/repo" []
    "3f2a91c|Fix | in parser"
  = Some [GitFixtures.fixCommit].
Proof.
  apply (X16_subject_with_bars_is_kept (shell := GitFixtures.git)
           Samples.deviceIndex "/repo" [] "3f2a91c" "Fix | in parser"
           ("software-requirements/SRS-001.md" +:+ Samples.nl
            +:+ "notes.md" +:+ Samples.nl)%string).
  - vm_compute. intuition discriminate.
  - reflexivity.
  - vm_compute. discriminate.
Defined.

(** ** The rendered grids *)

Section LayoutProperties.
Import RiskMatrixMarkdown LayoutSpec LinkSpec.
Local Open Scope string_scope.

Lemma count_app c s1 s2 : count c (s1 +:+ s2) = (count c s1 + count c s2)%nat.
Proof. unfold count. by rewrite list_ascii_of_string_app, occ_app. Qed.

Lemma count_join c sep parts :
  count c (join sep parts)
  = (sum_list (count c <$> parts) + pred (length parts) * count c sep)%nat.
Proof.
  induction parts as [|w [|w' parts] IH];
    [done|cbn [join fmap list_fmap sum_list sum_list_with length pred id]; lia|].
  change (join sep (w :: w' :: parts)) with (w +:+ sep +:+ join sep (w' :: parts)).
  rewrite !count_app, IH.
  cbn [fmap list_fmap sum_list sum_list_with length pred id]. lia.
Qed.

Lemma count_pretty_N_go c x : ∀ s,
  (∀ d, pretty_N_char d ≠ c) →
  count c (pretty_N_go x s) = count c s.
Proof.
  induction (N.lt_wf_0 x) as [x _ IH]; intros s Hc.
  assert (x = 0 ∨ 0 < x)%N as [->|Hpos] by lia.
  - by rewrite pretty_N_go_0.
  - rewrite pretty_N_go_step by done. rewrite IH; [|by apply N.div_lt|done].
    unfold count. cbn [list_ascii_of_string occ].
    destruct (Ascii.eqb_spec (pretty_N_char (x `mod` 10)) c) as [Heq|Hne]; [|done].
    by destruct (Hc _ Heq).
Qed.

Lemma count_String_ c n :
  (∀ d, pretty_N_char d ≠ c) → (0 < n)%Z → count c (String_ n) = 0%nat.
Proof.
  intros Hc Hpos. destruct n as [|n|n]; [lia| |lia].
  unfold String_, pretty, pretty_Z, pretty, pretty_positive, pretty, pretty_N.
  rewrite decide_False by done. by rewrite count_pretty_N_go.
Qed.

Lemma no_digit c :
  (c = "|" ∨ c = ascii_of_nat 10)%char → ∀ d, pretty_N_char d ≠ c.
Proof.
  intros [->| ->] d; unfold pretty_N_char; by repeat case_match.
Qed.

Lemma count_renderCount c n :
  (c = "|" ∨ c = ascii_of_nat 10)%char → count c (renderCount n) = 0%nat.
Proof.
  intros Hc. unfold renderCount. destruct (0 <? n)%Z eqn:E.
  - apply count_String_; [by apply no_digit|]. by apply Z.ltb_lt.
  - by destruct Hc as [->| ->].
Qed.

Lemma count_probLabel c p :
  (c = "|" ∨ c = ascii_of_nat 10)%char → count c (probLabel p) = 0%nat.
Proof.
  intros [->| ->]; by destruct p as [|[|[|[|[|p]]]]].
Qed.

Lemma count_cells c row :
  (c = "|" ∨ c = ascii_of_nat 10)%char →
  sum_list (count c <$> map renderCount row) = 0%nat.
Proof.
  intros Hc. induction row as [|n row IH]; [done|].
  cbn [map fmap list_fmap sum_list sum_list_with id].
  rewrite count_renderCount by done. exact IH.
Qed.

Lemma count_bar_renderRow p row :
  count "|" (renderRow p row) = (max 1 (length row) + 2)%nat.
Proof.
  unfold renderRow. rewrite !count_app, count_join, count_cells by (by left).
  rewrite count_probLabel by (by left). rewrite length_map.
  change (count "|" "| ") with 1%nat. change (count "|" " | ") with 1%nat.
  change (count "|" " |") with 1%nat. destruct row; cbn [length pred]; lia.
Qed.

Lemma count_newline_renderRow p row :
  count (ascii_of_nat 10) (renderRow p row) = 0%nat.
Proof.
  unfold renderRow. rewrite !count_app, count_join, count_cells by (by right).
  rewrite count_probLabel by (by right).
  change (count (ascii_of_nat 10) "| ") with 0%nat.
  change (count (ascii_of_nat 10) " | ") with 0%nat.
  change (count (ascii_of_nat 10) " |") with 0%nat. lia.
Qed.

Lemma count_zero_not_In c s : count c s = 0%nat → ¬ In c (list_ascii_of_string s).
Proof.
  unfold count. induction (list_ascii_of_string s) as [|a l IH]; [by intros _ []|].
  cbn [occ In]. destruct (Ascii.eqb_spec a c) as [->|Hne]; [lia|].
  intros Hz [?|Hin]; [done|]. by apply IH.
Qed.

Lemma splitOn_no_sep sep w :
  ¬ In sep (list_ascii_of_string w) → splitOn sep w = [w].
Proof.
  induction w as [|a w IH]; [done|]. cbn [list_ascii_of_string In]. intros Hnot.
  simpl. destruct (Ascii.eqb_spec a sep) as [->|Hne]; [tauto|].
  rewrite IH by tauto. done.
Qed.

Lemma splitOn_join sep parts :
  parts ≠ [] →
  Forall (λ w, count sep w = 0%nat) parts →
  splitOn sep (join (String sep EmptyString) parts) = parts.
Proof.
  intros Hne Hall. induction Hall as [|w parts Hw Hall IH]; [done|].
  destruct parts as [|w' parts].
  - cbn [join]. by apply splitOn_no_sep, count_zero_not_In.
  - change (join (String sep EmptyString) (w :: w' :: parts))
      with (w +:+ String sep (join (String sep EmptyString) (w' :: parts))).
    rewrite splitOn_before_sep by (by apply count_zero_not_In).
    by rewrite IH.
Qed.

Lemma renderRows_lines grid n : ∀ lines,
  (n ≤ length grid)%nat →
  renderRows grid n lines
  = Ok (lines ++ reverse (imap renderRow (take n grid)))%list.
Proof.
  induction n as [|p IH]; intros lines Hn.
  - cbn [renderRows]. by rewrite take_0, app_nil_r.
  - cbn [renderRows].
    destruct (lookup_lt_is_Some_2 grid p ltac:(lia)) as [row Hrow].
    rewrite Hrow, IH by lia. rewrite (take_S_r _ _ _ Hrow), imap_app.
    cbn [imap]. rewrite length_take_le by lia. rewrite Nat.add_0_r.
    by rewrite reverse_snoc, <- (assoc_L (++)).
Qed.

(** X17.  [renderGrid] never throws.  Its text has two header lines
    and then one line per row of the grid, none of which holds a line
    break, the last row (the highest probability) first: row [p] is line
    [2 + k] where [k + p + 1] is the number of rows. *)
Theorem X17_renderGrid_lines grid :
  renderGrid grid
  = Ok (join newline (headerLine :: separatorLine :: rowLines grid))
  ∧ linesOf (join newline (headerLine :: separatorLine :: rowLines grid))
    = headerLine :: separatorLine :: rowLines grid
  ∧ (∀ k p row, grid !! p = Some row → (k + p + 1 = length grid)%nat →
       (headerLine :: separatorLine :: rowLines grid) !! (2 + k)%nat
       = Some (renderRow p row)).
Proof.
  split_and!.
  - unfold renderGrid. rewrite renderRows_lines, firstn_all by done. done.
  - unfold linesOf, newline. apply splitOn_join; [done|].
    repeat (constructor; [done|]).
    unfold rowLines. apply Forall_reverse, Forall_forall.
    intros line (p & row & -> & _)%elem_of_lookup_imap.
    apply count_newline_renderRow.
  - intros k p row Hrow Hk.
    change ((headerLine :: separatorLine :: rowLines grid) !! (2 + k)%nat)
      with (rowLines grid !! k).
    unfold rowLines. rewrite reverse_lookup; rewrite length_imap; [|lia].
    replace (length grid - S k)%nat with p by lia.
    by rewrite list_lookup_imap, Hrow.
Qed.

(** X18.  The line of a row has one bar more than it has cells, and one
    more for the label (three bars when the row is empty), where the
    header has seven: a row has the columns of the header exactly when it
    has five cells.  From the sixth row on the label is the word
    undefined. *)
Theorem X18_columns_of_a_row p row :
  count "|" (renderRow p row) = (max 1 (length row) + 2)%nat
  ∧ (count "|" (renderRow p row) = count "|" headerLine ↔ length row = 5%nat)
  ∧ (5 ≤ p → probLabel p = "undefined")%nat.
Proof.
  rewrite count_bar_renderRow. change (count "|" headerLine) with 7%nat.
  split_and!; [done|lia|].
  intros Hp. do 5 (destruct p as [|p]; [lia|]). done.
Qed.

Lemma rowLines_columns n grid line :
  RiskSpec.square n grid → line ∈ rowLines grid →
  count "|" line = (max 1 n + 2)%nat.
Proof.
  intros [_ Hrows]. unfold rowLines. rewrite elem_of_reverse.
  intros (p & row & -> & Hrow)%elem_of_lookup_imap.
  rewrite count_bar_renderRow.
  by rewrite (proj1 (Forall_forall _ _) Hrows row (list_elem_of_lookup_2 _ _ _ Hrow)).
Qed.

(** X19.  Both grids of a matrix that [buildRiskMatrix] returns render
    without a throw, in as many row lines as the grid size.  With the grid
    size 5, the default, every row line has the columns of the header;
    with any other positive grid size none has. *)
Theorem X19_rendered_grids_of_a_built_matrix {host : JsHost} index gridSize m :
  buildRiskMatrix index gridSize = Ok (Some m) →
  (∀ grid, grid = RiskMatrix.inherent m ∨ grid = RiskMatrix.residual m →
     renderGrid grid
     = Ok (join newline (headerLine :: separatorLine :: rowLines grid))
     ∧ length (rowLines grid) = Z.to_nat gridSize
     ∧ (gridSize = 5%Z →
        Forall (λ line, count "|" line = count "|" headerLine) (rowLines grid))
     ∧ ((0 < gridSize)%Z → gridSize ≠ 5%Z →
        Forall (λ line, count "|" line ≠ count "|" headerLine) (rowLines grid))).
Proof.
  intros Hm grid Hgrid.
  assert (RiskSpec.square (Z.to_nat gridSize) grid) as Hsq.
  { destruct (buildRiskMatrix_square _ _ _ Hm) as [Hi Hr].
    by destruct Hgrid as [->| ->]. }
  split_and!.
  - unfold renderGrid. rewrite renderRows_lines, firstn_all by done. done.
  - unfold rowLines. rewrite length_reverse, length_imap. apply Hsq.
  - intros ->. apply Forall_forall. intros line Hline.
    by rewrite (rowLines_columns _ _ _ Hsq Hline).
  - intros Hpos Hne. apply Forall_forall. intros line Hline.
    rewrite (rowLines_columns _ _ _ Hsq Hline).
    change (count "|" headerLine) with 7%nat. lia.
Qed.

End LayoutProperties.

(** The inherent grid of the matrix of the risk fixture. *)
Lemma X19_witness :
  RiskMatrixMarkdown.renderGrid (RiskMatrix.inherent Samples.riskMatrix)
  = Ok (join RiskMatrixMarkdown.newline
          (RiskMatrixMarkdown.headerLine :: RiskMatrixMarkdown.separatorLine
           :: LayoutSpec.rowLines (RiskMatrix.inherent Samples.riskMatrix)))
  ∧ length (LayoutSpec.rowLines (RiskMatrix.inherent Samples.riskMatrix))
    = Z.to_nat 5.
Proof.
  assert (buildRiskMatrix (host := Samples.asciiHost) Samples.riskIndex 5
          = Ok (Some Samples.riskMatrix)) as Hbuilt by (vm_compute; reflexivity).
  destruct (X19_rendered_grids_of_a_built_matrix (host := Samples.asciiHost)
              Samples.riskIndex 5 Samples.riskMatrix Hbuilt
              (RiskMatrix.inherent Samples.riskMatrix) (or_introl eq_refl))
    as (Hrender & Hlen & _).
  by split.
Defined.

(** ** One finding per risk document *)

Section HazardFindingProperties.
Import TraceabilitySpec HazardSpec.
Local Open Scope string_scope.

Lemma checkRisk_finding index docLinks warnings gaps risk :
  checkRisk index docLinks (warnings, gaps) risk
  = match analyzedHazard docLinks risk ≫= findingOfHazard index docLinks with
    | Some (w, g) => ((warnings ++ [w])%list, (gaps ++ [g])%list)
    | None => (warnings, gaps)
    end.
Proof.
  unfold checkRisk, analyzedHazard, findingOfHazard.
  destruct (find (hasType "analyzes") (linksFor docLinks (Document.id risk)))
    as [analyzesLink|]; [|done].
  cbn [fmap option_fmap option_map mbind option_bind].
  destruct (DocumentIndex.byId index !! Link.targetId analyzesLink)
    as [hazardDoc|]; [|done].
  cbn [mbind option_bind].
  destruct (find (hasType "leads_to") (linksFor docLinks (Link.targetId analyzesLink)))
    as [leadsTo|]; [|done].
  destruct (DocumentIndex.byId index !! Link.targetId leadsTo)
    as [situationDoc|]; [|done].
  cbn [mbind option_bind].
  by destruct (find (hasType "results_in") (linksFor docLinks (Link.targetId leadsTo))).
Qed.

Lemma foldl_checkRisk index docLinks risks : ∀ warnings gaps,
  foldl (checkRisk index docLinks) (warnings, gaps) risks
  = ((warnings ++ (hazardFindings index docLinks risks).*1)%list,
     (gaps ++ (hazardFindings index docLinks risks).*2)%list).
Proof.
  induction risks as [|risk risks IH]; intros warnings gaps.
  - cbn. by rewrite !app_nil_r.
  - cbn [foldl]. rewrite checkRisk_finding. unfold hazardFindings.
    cbn [omap list_omap].
    destruct (analyzedHazard docLinks risk ≫= findingOfHazard index docLinks)
      as [[w g]|].
    + rewrite IH. cbn [fmap list_fmap fst snd]. by rewrite <- !(assoc_L (++)).
    + by rewrite IH.
Qed.

(** X20.  [validateHazardChains] goes through the risk documents, not
    through the hazards: it appends, in the order of the risk documents,
    the finding of the hazard that the first analyzes link of each names,
    if that hazard has one.  The finding depends on the hazard alone, so
    two risk documents that analyze the same hazard yield the same warning
    and the same gap entry twice. *)
Theorem X20_one_hazard_finding_per_risk_document documents index docLinks
    warnings gaps :
  validateHazardChains documents index docLinks warnings gaps
  = ((warnings
      ++ (hazardFindings index docLinks (docsOfType index "risk")).*1)%list,
     (gaps
      ++ (hazardFindings index docLinks (docsOfType index "risk")).*2)%list)
  ∧ (∀ risk risk' hazardId finding,
       docsOfType index "risk" = [risk; risk'] →
       analyzedHazard docLinks risk = Some hazardId →
       analyzedHazard docLinks risk' = Some hazardId →
       findingOfHazard index docLinks hazardId = Some finding →
       validateHazardChains documents index docLinks warnings gaps
       = ((warnings ++ [finding.1; finding.1])%list,
          (gaps ++ [finding.2; finding.2])%list)).
Proof.
  assert (validateHazardChains documents index docLinks warnings gaps
    = ((warnings
        ++ (hazardFindings index docLinks (docsOfType index "risk")).*1)%list,
       (gaps
        ++ (hazardFindings index docLinks (docsOfType index "risk")).*2)%list))
    as Heq by apply foldl_checkRisk.
  split; [done|].
  intros risk risk' hazardId finding Hrisks Hr Hr' Hfinding.
  rewrite Heq, Hrisks. unfold hazardFindings. cbn [omap list_omap].
  rewrite Hr, Hr'. cbn [mbind option_bind]. by rewrite Hfinding.
Qed.

End HazardFindingProperties.

(** The hazard without situation is reported once for each of the two
    risks. *)
Lemma X20_witness :
  validateHazardChains HazardFixtures.docs HazardFixtures.index
    HazardFixtures.docLinks [] []
  = ([HazardFixtures.noSituation.1; HazardFixtures.noSituation.1],
     [HazardFixtures.noSituation.2; HazardFixtures.noSituation.2]).
Proof.
  apply (proj2 (X20_one_hazard_finding_per_risk_document HazardFixtures.docs
                  HazardFixtures.index HazardFixtures.docLinks [] [])
           HazardFixtures.risk001 HazardFixtures.risk002 "HAZ-001"%string
           HazardFixtures.noSituation).
  - vm_compute. reflexivity.
  - vm_compute. reflexivity.
  - vm_compute. reflexivity.
  - vm_compute. reflexivity.
Defined.

(** ** The markdown validator *)

Section MarkdownProperties.
Import LinkSpec Markdown HeadingSpec.
Context {js : JsString}.
Local Open Scope string_scope.

Lemma caseless_hash : caseless "#".
Proof.
  intros [] [[] [] [] [] [] [] [] []] Ha; vm_compute in Ha;
    first [discriminate | reflexivity].
Qed.

Lemma litCount_headingWith hashes :
  litCount "#" (atoms (headingWith hashes)) = hashes.
Proof.
  unfold headingWith. cbn [atoms].
  induction hashes as [|hashes IH]; [done|]. cbn [replicate app litCount].
  by rewrite IH.
Qed.

Lemma headingMatch_needs_hash line :
  occ "#" line = 0%nat → headingMatch line = None.
Proof.
  intros Hocc.
  assert (∀ hashes, (1 ≤ hashes)%nat →
            matchHere (headingWith hashes) line 0 = None) as Hnone.
  { intros hashes Hh. apply (matchHere_needs _ "#"); [apply caseless_hash|].
    rewrite litCount_headingWith. lia. }
  unfold headingMatch. cbn [omap list_omap].
  by rewrite !Hnone by lia.
Qed.

Lemma headingMatch_level line level heading :
  headingMatch line = Some (level, heading) → (1 ≤ level ≤ 6)%nat.
Proof.
  unfold headingMatch. intros Hhead.
  assert ((level, heading) ∈
    omap (λ hashes, (λ m, (hashes, group1 m))
                      <$> matchHere (headingWith hashes) line 0)
      [6; 5; 4; 3; 2; 1]%nat) as Hin.
  { destruct (omap _ _) as [|x l]; [done|]. injection Hhead as ->.
    apply list_elem_of_here. }
  apply list_elem_of_omap in Hin as (hashes & Hh & Hm).
  destruct (matchHere (headingWith hashes) line 0); [|done].
  injection Hm as <- _.
  repeat (apply elem_of_cons in Hh as [->|Hh]; [lia|]).
  by apply elem_of_nil in Hh.
Qed.

Lemma occ_splitOn c sep s line :
  line ∈ splitOn sep s →
  (occ c (list_ascii_of_string line) ≤ occ c (list_ascii_of_string s))%nat.
Proof.
  revert line. induction s as [|a s IH]; intros line.
  - by intros ->%list_elem_of_singleton.
  - cbn [splitOn]. destruct (Ascii.eqb_spec a sep) as [->|Hne].
    + intros [->|Hin]%elem_of_cons; cbn [list_ascii_of_string occ]; [lia|].
      specialize (IH _ Hin). lia.
    + pose proof (splitOn_nonempty sep s) as Hnonempty.
      destruct (splitOn sep s) as [|w ws]; [done|].
      intros [->|Hin]%elem_of_cons; cbn [list_ascii_of_string occ].
      * specialize (IH w (list_elem_of_here _ _)). lia.
      * specialize (IH line (list_elem_of_further _ _ _ Hin)). lia.
Qed.

Lemma checkLine_no_heading doc st line :
  headingMatch (list_ascii_of_string line) = None → checkLine doc st line = st.
Proof. unfold checkLine. by intros ->. Qed.

Lemma foldl_checkLine_no_heading doc lines : ∀ st,
  Forall (λ line, headingMatch (list_ascii_of_string line) = None) lines →
  foldl (checkLine doc) st lines = st.
Proof.
  induction lines as [|line lines IH]; intros st Hall; [done|].
  apply Forall_cons in Hall as [Hline Hall]. cbn [foldl].
  rewrite checkLine_no_heading by done. by apply IH.
Qed.

Lemma validateMarkdown_snoc documents doc :
  validateMarkdown (documents ++ [doc])
  = checkDocument (validateMarkdown documents) doc.
Proof. unfold validateMarkdown. by rewrite foldl_app. Qed.

(** What a document adds does not depend on what is there already. *)
Lemma checkLine_warnings doc line : ∀ st before,
  warnings (checkLine doc
              {| warnings := before ++ warnings st;
                 lastHeadingLevel := lastHeadingLevel st;
                 foundH1 := foundH1 st |} line)
  = (before ++ warnings (checkLine doc st line))%list
  ∧ lastHeadingLevel (checkLine doc
              {| warnings := before ++ warnings st;
                 lastHeadingLevel := lastHeadingLevel st;
                 foundH1 := foundH1 st |} line)
    = lastHeadingLevel (checkLine doc st line)
  ∧ foundH1 (checkLine doc
              {| warnings := before ++ warnings st;
                 lastHeadingLevel := lastHeadingLevel st;
                 foundH1 := foundH1 st |} line)
    = foundH1 (checkLine doc st line).
Proof.
  intros st before. unfold checkLine.
  destruct (headingMatch (list_ascii_of_string line)) as [[level heading]|];
    [|done].
  cbv zeta. cbn [warnings lastHeadingLevel foundH1].
  destruct (level =? 1)%nat; cbn [warnings lastHeadingLevel foundH1];
    repeat match goal with
           | |- context [if ?b then _ else _] =>
               destruct b; cbn [warnings lastHeadingLevel foundH1]
           end;
    by rewrite ?(assoc_L (++)).
Qed.

Lemma foldl_checkLine_warnings doc lines : ∀ st before,
  let shifted :=
    foldl (checkLine doc)
      {| warnings := before ++ warnings st;
         lastHeadingLevel := lastHeadingLevel st;
         foundH1 := foundH1 st |} lines in
  let plain := foldl (checkLine doc) st lines in
  warnings shifted = (before ++ warnings plain)%list
  ∧ lastHeadingLevel shifted = lastHeadingLevel plain
  ∧ foundH1 shifted = foundH1 plain.
Proof.
  induction lines as [|line lines IH]; intros st before; [done|].
  cbn [foldl]. cbv zeta.
  destruct (checkLine_warnings doc line st before) as (Hw & Hl & Hf).
  specialize (IH (checkLine doc st line) before). cbv zeta in IH.
  rewrite <- Hw, <- Hl, <- Hf in IH.
  by destruct (checkLine doc {| warnings := before ++ warnings st;
                                lastHeadingLevel := lastHeadingLevel st;
                                foundH1 := foundH1 st |} line).
Qed.

Lemma checkDocument_app doc before :
  checkDocument before doc = (before ++ checkDocument [] doc)%list.
Proof.
  unfold checkDocument.
  pose proof (foldl_checkLine_warnings doc
    (splitOn (ascii_of_nat 10) (Document.body doc))
    {| warnings := []; lastHeadingLevel := 0; foundH1 := false |} before) as H.
  cbv zeta in H. cbn [warnings lastHeadingLevel foundH1] in H.
  rewrite app_nil_r in H. destruct H as (Hw & _ & Hf).
  rewrite Hw, Hf. destruct (_ && _); [by rewrite (assoc_L (++))|done].
Qed.

Lemma validateMarkdown_bind documents :
  validateMarkdown documents = documents ≫= λ doc, validateMarkdown [doc].
Proof.
  induction documents as [|doc documents IH] using rev_ind; [done|].
  rewrite validateMarkdown_snoc, checkDocument_app, IH, bind_app, bind_cons.
  change ([] ≫= λ doc, validateMarkdown [doc]) with (@nil ValidationWarning).
  by rewrite app_nil_r.
Qed.

(** The step of the loop at a heading line. *)
Lemma checkLine_heading doc st line level heading :
  headingMatch (list_ascii_of_string line) = Some (level, heading) →
  ∃ titleWarnings,
    warnings (checkLine doc st line)
    = (warnings st ++ titleWarnings
       ++ if (0 <? lastHeadingLevel st)%nat && (lastHeadingLevel st + 1 <? level)%nat
          then [skippedLevel doc (lastHeadingLevel st) level] else [])%list
    ∧ Forall (λ w, isSkippedLevel w = false ∧ isNoH1 w = false) titleWarnings
    ∧ lastHeadingLevel (checkLine doc st line) = level
    ∧ foundH1 (checkLine doc st line) = foundH1 st || (level =? 1)%nat.
Proof.
  intros Hm. unfold checkLine. rewrite Hm. cbv zeta.
  destruct (level =? 1)%nat; cbn [warnings lastHeadingLevel foundH1].
  - destruct (includes _ _); [|destruct (length _ <? _)%nat].
    + exists []. rewrite orb_true_r.
      by destruct (_ && _); rewrite ?app_nil_r.
    + exists [titleMismatch doc (string_of_list_ascii (trim heading))].
      rewrite orb_true_r.
      destruct (_ && _); rewrite ?app_nil_r, <- ?(assoc_L (++));
        by repeat constructor.
    + exists []. rewrite orb_true_r.
      by destruct (_ && _); rewrite ?app_nil_r.
  - exists []. rewrite orb_false_r.
    by destruct (_ && _); rewrite ?app_nil_r.
Qed.

Lemma filter_titleWarnings (p : ValidationWarning → bool) ws :
  Forall (λ w, p w = false) ws → List.filter p ws = [].
Proof.
  induction 1 as [|w ws Hw _ IH]; [done|]. cbn [List.filter]. by rewrite Hw.
Qed.

Lemma levelsOf_cons line lines :
  fst <$> omap (λ line, headingMatch (list_ascii_of_string line)) (line :: lines)
  = match headingMatch (list_ascii_of_string line) with
    | Some (level, _) =>
        level :: (fst <$> omap (λ line, headingMatch (list_ascii_of_string line)) lines)
    | None => fst <$> omap (λ line, headingMatch (list_ascii_of_string line)) lines
    end.
Proof.
  cbn [omap list_omap].
  by destruct (headingMatch (list_ascii_of_string line)) as [[level heading]|].
Qed.

Lemma foldl_checkLine_headings doc lines : ∀ st,
  let after := foldl (checkLine doc) st lines in
  let levels :=
    fst <$> omap (λ line, headingMatch (list_ascii_of_string line)) lines in
  List.filter isSkippedLevel (warnings after)
  = (List.filter isSkippedLevel (warnings st)
     ++ ((λ step, skippedLevel doc step.1 step.2)
           <$> List.filter stepJump (zip (lastHeadingLevel st :: levels) levels)))%list
  ∧ List.filter isNoH1 (warnings after) = List.filter isNoH1 (warnings st)
  ∧ foundH1 after = foundH1 st || existsb (λ level, level =? 1)%nat levels.
Proof.
  induction lines as [|line lines IH]; intros st; cbv zeta.
  - cbn. by rewrite app_nil_r, orb_false_r.
  - cbn [foldl]. rewrite levelsOf_cons.
    destruct (headingMatch (list_ascii_of_string line)) as [[level heading]|] eqn:E.
    + destruct (checkLine_heading doc st line level heading E)
        as (titleWarnings & Hw & Htitle & Hlast & Hfound).
      specialize (IH (checkLine doc st line)). cbv zeta in IH.
      destruct IH as (IHskip & IHno & IHfound).
      rewrite IHskip, IHno, IHfound, Hw, Hlast, Hfound.
      rewrite !List.filter_app.
      rewrite (filter_titleWarnings isSkippedLevel titleWarnings)
        by (eapply Forall_impl; [exact Htitle|by intros ? [? ?]]).
      rewrite (filter_titleWarnings isNoH1 titleWarnings)
        by (eapply Forall_impl; [exact Htitle|by intros ? [? ?]]).
      cbn [zip zip_with List.filter existsb app]. unfold stepJump at 2.
      cbn [fst snd].
      destruct ((0 <? lastHeadingLevel st)%nat && (lastHeadingLevel st + 1 <? level)%nat).
      * cbn [List.filter fmap list_fmap app].
        split_and!; [by rewrite <- (assoc_L (++))|by rewrite app_nil_r|].
        by rewrite orb_assoc.
      * cbn [List.filter fmap list_fmap app].
        split_and!; [by rewrite app_nil_r|by rewrite app_nil_r|].
        by rewrite orb_assoc.
    + rewrite checkLine_no_heading by done. apply IH.
Qed.

Lemma levels_range doc : Forall (λ level, (1 ≤ level ≤ 6)%nat) (levels doc).
Proof.
  unfold levels. apply Forall_forall.
  intros level ([l heading] & -> & Hin)%list_elem_of_fmap.
  apply list_elem_of_omap in Hin as (line & _ & Hm).
  by apply headingMatch_level in Hm.
Qed.

Lemma stepJump_levels levels :
  Forall (λ level, (1 ≤ level)%nat) levels →
  List.filter stepJump (zip (0%nat :: levels) levels) = jumps levels.
Proof.
  unfold jumps. destruct levels as [|l levels]; [done|].
  intros Hall.
  change (zip (0%nat :: l :: levels) (l :: levels))
    with ((0%nat, l) :: zip (l :: levels) levels).
  cbn [List.filter tail]. unfold stepJump at 1. cbn [fst Nat.ltb Nat.leb andb].
  apply List.filter_ext_in. intros [a b] Hin%list_elem_of_In.
  apply elem_of_zip_l in Hin.
  pose proof (proj1 (Forall_forall _ _) Hall a Hin) as Ha. cbv beta in Ha.
  unfold stepJump. cbn [fst snd].
  destruct (Nat.ltb_spec 0 a); [done|lia].
Qed.

(** X21.  A document whose body has no hash has no heading: the only
    warning [validateMarkdown] can give for it is that it has no H1
    heading, and it gives that one exactly when the body is not blank.  An
    empty or blank body gets no warning. *)
Theorem X21_no_hash_no_heading doc :
  occ "#" (list_ascii_of_string (Document.body doc)) = 0%nat →
  validateMarkdown [doc] = if notBlank doc then [noH1 doc] else [].
Proof.
  intros Hocc. unfold validateMarkdown. cbn [foldl]. unfold checkDocument.
  rewrite foldl_checkLine_no_heading.
  - cbn [warnings foundH1 negb andb]. unfold notBlank. by destruct (_ <? _)%nat.
  - apply Forall_forall. intros line Hline. apply headingMatch_needs_hash.
    pose proof (occ_splitOn "#" _ _ _ Hline). lia.
Qed.

(** X22.  [validateMarkdown] checks the documents one by one, in order.
    For a document, whose heading lines have levels between 1 and 6, it
    gives one skipped-level warning per step from a heading to the next
    that goes down by more than one level, in order, and none for the
    first heading however deep it is; and it gives the warning for a
    missing H1 exactly when no heading has level 1 and the body is not
    blank. *)
Theorem X22_skipped_levels_and_missing_h1 documents doc :
  validateMarkdown documents = (documents ≫= λ doc, validateMarkdown [doc])
  ∧ List.filter isSkippedLevel (validateMarkdown [doc])
    = ((λ step, skippedLevel doc step.1 step.2) <$> jumps (levels doc))
  ∧ List.filter isNoH1 (validateMarkdown [doc])
    = (if negb (existsb (λ level, level =? 1)%nat (levels doc)) && notBlank doc
       then [noH1 doc] else [])
  ∧ Forall (λ level, (1 ≤ level ≤ 6)%nat) (levels doc).
Proof.
  split_and!; [apply validateMarkdown_bind| | |apply levels_range].
  - unfold validateMarkdown. cbn [foldl]. unfold checkDocument.
    pose proof (foldl_checkLine_headings doc (bodyLines doc)
      {| warnings := []; lastHeadingLevel := 0; foundH1 := false |}) as H.
    cbv zeta in H. cbn [warnings lastHeadingLevel foundH1 List.filter app] in H.
    destruct H as (Hskip & _ & _). fold (bodyLines doc). fold (levels doc) in Hskip.
    rewrite stepJump_levels in Hskip.
    2:{ eapply Forall_impl; [apply levels_range|]. intros ? ?. cbn in *. lia. }
    destruct (_ && _); [|done].
    rewrite List.filter_app, Hskip. cbn [List.filter]. by rewrite app_nil_r.
  - unfold validateMarkdown. cbn [foldl]. unfold checkDocument.
    pose proof (foldl_checkLine_headings doc (bodyLines doc)
      {| warnings := []; lastHeadingLevel := 0; foundH1 := false |}) as H.
    cbv zeta in H. cbn [warnings lastHeadingLevel foundH1 List.filter app orb] in H.
    destruct H as (_ & Hno & Hfound). fold (bodyLines doc).
    fold (levels doc) in Hfound. rewrite Hfound. fold (notBlank doc).
    destruct (_ && _); [|done].
    rewrite List.filter_app, Hno. done.
Qed.

End MarkdownProperties.

(** The note has text and no heading. *)
Lemma X21_witness :
  Markdown.validateMarkdown (js := MarkdownFixtures.asciiString)
    [MarkdownFixtures.note]
  = [Markdown.noH1 MarkdownFixtures.note].
Proof.
  apply (X21_no_hash_no_heading (js := MarkdownFixtures.asciiString)
           MarkdownFixtures.note).
  vm_compute. reflexivity.
Defined.

(** A no-break space is white space: a body made of one is blank, and a
    hash followed by one starts a heading. *)
Lemma validateMarkdown_no_break_space :
  Markdown.validateMarkdown (js := MarkdownFixtures.asciiString)
    [MarkdownFixtures.blankNote] = []
  ∧ HeadingSpec.levels MarkdownFixtures.deepNote = [1; 3]%nat
  ∧ Markdown.validateMarkdown (js := MarkdownFixtures.asciiString)
      [MarkdownFixtures.deepNote]
    = [Markdown.skippedLevel MarkdownFixtures.deepNote 1 3].
Proof. split_and!; vm_compute; reflexivity. Qed.

(** ** The type of the configuration file and the type of the run *)

Section RunProperties.
Import ConfigDefaults ConfigFile Main Run.
Context {host : JsHost} {files : ConfigFiles}.
Local Open Scope string_scope.

(** X23.  The traceability engine follows the type that the configuration
    file gives, the default chains and the risk matrix follow the type of
    the run.  When the file says device and lists no chains, a qms run
    checks the hazard chains, with no chain of its own (the coverage is
    empty), and builds no risk matrix; when the file says qms, a device
    run gets no warning, coverage entry or gap entry at all and still
    builds its risk matrix. *)
Theorem X23_the_file_gives_the_type_of_the_traceability_check
    markdownFiles configPath parsed :
  existsSync configPath = true →
  readYaml configPath = Some (Some parsed) →
  (ParsedConfig.type parsed = Some device →
   ParsedConfig.chains parsed = None →
   ∃ r, traceabilityOfRun markdownFiles configPath qms = Some r
        ∧ coverage r = []
        ∧ (warnings r, gaps r)
          = validateHazardChains (allDocs markdownFiles)
              (buildDocumentIndex markdownFiles)
              (buildDocLinks (allDocs markdownFiles)) [] []
        ∧ riskMatrixOfRun markdownFiles qms = Ok None)
  ∧ (ParsedConfig.type parsed = Some qms →
     traceabilityOfRun markdownFiles configPath device
     = Some {| warnings := []; coverage := []; gaps := [] |}
     ∧ riskMatrixOfRun markdownFiles device
       = buildRiskMatrix (buildDocumentIndex markdownFiles) 5).
Proof.
  intros Hexists Hread. unfold traceabilityOfRun, loadConfig.
  rewrite Hexists, Hread. cbn [negb mbind option_bind]. split.
  - intros Htype Hchains. rewrite Htype, Hchains. cbn [default].
    unfold validateTraceability.
    cbn [Config.type Config.chains defaultConfig DEFAULT_QMS_CHAINS foldl
         warnings gaps coverage].
    destruct (validateHazardChains _ _ _ _ _) as [warnings' gaps'] eqn:E.
    eexists. split; [reflexivity|]. cbn [warnings gaps coverage].
    by split_and!.
  - intros Htype. rewrite Htype. by cbn.
Qed.

End RunProperties.

(** The device fixture, run as qms, with a file that says device. *)
Lemma X23_witness :
  ∃ r, Run.traceabilityOfRun (host := Samples.asciiHost)
         (files := ConfigFixtures.disk) Samples.deviceFiles ".qmsrc.yml" qms
       = Some r
       ∧ coverage r = []
       ∧ (warnings r, gaps r)
         = validateHazardChains
             (Main.allDocs (host := Samples.asciiHost) Samples.deviceFiles)
             (buildDocumentIndex (host := Samples.asciiHost) Samples.deviceFiles)
             (buildDocLinks
                (Main.allDocs (host := Samples.asciiHost) Samples.deviceFiles))
             [] []
       ∧ Run.riskMatrixOfRun (host := Samples.asciiHost) Samples.deviceFiles qms
         = Ok None.
Proof.
  apply (proj1 (X23_the_file_gives_the_type_of_the_traceability_check
                  (host := Samples.asciiHost) (files := ConfigFixtures.disk)
                  Samples.deviceFiles ".qmsrc.yml" ConfigFixtures.onlyType
                  eq_refl eq_refl));
    reflexivity.
Defined.

(** ** Repeated ids and changed files *)

Section ShadowProperties.
Import JsMap Main IndexSpec TraceabilitySpec Changelog.
Context {host : JsHost}.
Local Open Scope string_scope.

Lemma byId_last_id files i last :
  DocumentIndex.byId (buildDocumentIndex files) !! i = Some last →
  Document.id last = i ∧ last ∈ parsedDocs files.
Proof.
  rewrite (proj1 (index_lookup files)). intros Hlast%last_Some_elem_of.
  by apply list_elem_of_filter in Hlast.
Qed.

(** X25.  For a document of the files, the traceability engine reads the
    links that [docLinks] holds under its id: those of the last file with
    that id, which is the document that [byId] holds.  So a document whose
    id a later file repeats stays in its type group and is judged by the
    links of that later file. *)
Theorem X25_a_repeated_id_is_judged_by_the_last_file files doc :
  doc ∈ parsedDocs files →
  doc ∈ docsOfType (buildDocumentIndex files) (Document.docType doc)
  ∧ ∃ last,
      DocumentIndex.byId (buildDocumentIndex files) !! Document.id doc = Some last
      ∧ Document.id last = Document.id doc
      ∧ linksFor (buildDocLinks (allDocs files)) (Document.id doc)
        = extractLinks last
      ∧ ∀ index chain,
          isCovered index (buildDocLinks (allDocs files)) chain doc
          = isCovered index (buildDocLinks (allDocs files)) chain last.
Proof.
  intros Hdoc. split.
  { unfold docsOfType. rewrite byType_lookup.
    destruct (filter _ _) as [|d ds] eqn:E.
    - exfalso. eapply (not_elem_of_nil doc). rewrite <- E.
      by apply list_elem_of_filter.
    - cbn [default]. rewrite <- E. by apply list_elem_of_filter. }
  destruct (proj2 (byId_known files (Document.id doc))) as [last Hlast].
  { by apply list_elem_of_fmap_2. }
  destruct (byId_last_id _ _ _ Hlast) as [Hid Hin].
  exists last. split_and!; [done|done| |].
  - rewrite <- Hid. apply linksFor_own.
    + rewrite allDocs_ids. apply byIdEntries_inv.
    + apply allDocs_elem_of. by rewrite Hid.
  - intros index chain. unfold isCovered, hasCoveringTarget. by rewrite Hid.
Qed.

Context {shell : Shell}.

(** X24.  The changed documents of a run are documents of the files, each
    under a path that git named and that ends in .md; and when git fails
    there is none, without a throw. *)
Theorem X24_changed_documents files baseRef headRef docsPath repoRoot :
  Forall
    (λ doc, doc ∈ parsedDocs files
            ∧ Document.filePath doc
              ∈ getChangedFiles baseRef headRef docsPath repoRoot
            ∧ endsWith ".md" (Document.filePath doc) = true)
    (changedDocs (buildDocumentIndex files)
       (getChangedFiles baseRef headRef docsPath repoRoot))
  ∧ (execSync ("git diff --name-only " +:+ baseRef +:+ "..." +:+ headRef
               +:+ " -- " +:+ dquote +:+ docsPath +:+ dquote) repoRoot = None →
     changedDocs (buildDocumentIndex files)
       (getChangedFiles baseRef headRef docsPath repoRoot) = []).
Proof.
  split.
  - apply Forall_forall. unfold changedDocs.
    intros doc (file & Hfile & Hdoc)%list_elem_of_omap.
    rewrite (proj2 (index_lookup files)) in Hdoc.
    apply last_Some_elem_of, list_elem_of_filter in Hdoc as [<- Hdoc].
    split_and!; [done|done|].
    unfold getChangedFiles in Hfile.
    destruct (execSync _ _) as [out|]; [|by apply elem_of_nil in Hfile].
    destruct (String.eqb _ _); [by apply elem_of_nil in Hfile|].
    apply list_elem_of_In, List.filter_In in Hfile. tauto.
  - intros Hfail. unfold getChangedFiles. by rewrite Hfail.
Qed.

End ShadowProperties.

(** The first SRS-001 of the fixture is judged by the links of the old
    one. *)
Lemma X25_witness :
  linksFor (buildDocLinks (Main.allDocs (host := Samples.asciiHost)
                             Fixtures.repeatedFiles))
    (Document.id Fixtures.srs001)
  = extractLinks Fixtures.srs001Old.
Proof.
  destruct (X25_a_repeated_id_is_judged_by_the_last_file
              (host := Samples.asciiHost) Fixtures.repeatedFiles Fixtures.srs001)
    as (_ & last & Hlast & _ & Hlinks & _).
  - apply list_elem_of_here.
  - rewrite Hlinks. f_equal.
    assert (DocumentIndex.byId (buildDocumentIndex (host := Samples.asciiHost)
                                  Fixtures.repeatedFiles)
            !! Document.id Fixtures.srs001 = Some Fixtures.srs001Old) as Hold
      by (vm_compute; reflexivity).
    congruence.
Defined.

(** ** Files without id and the count of documents *)

Section SkipProperties.
Import JsMap Main IndexSpec.
Context {host : JsHost}.
Local Open Scope string_scope.

Lemma parseDocument_without_id filePath data content :
  data !! "id" = None ∨ data !! "id" = Some FmNull
  ∨ data !! "id" = Some (FmStr EmptyString)
  ∨ data !! "id" = Some (FmBool false) ∨ data !! "id" = Some (FmNum 0) →
  parseDocument filePath data content = None.
Proof.
  unfold parseDocument, stringField.
  by intros [-> | [-> | [-> | [-> | ->]]]].
Qed.

(** X26.  A file whose front matter has no id (the key is absent, or its
    value is null, the empty string, false or 0) is no document: it
    is in no map of the index, the validators do not get it, and the index
    and the documents are those of the other files. *)
Theorem X26_a_file_without_id_is_skipped before filePath data content after :
  data !! "id" = None ∨ data !! "id" = Some FmNull
  ∨ data !! "id" = Some (FmStr EmptyString)
  ∨ data !! "id" = Some (FmBool false) ∨ data !! "id" = Some (FmNum 0) →
  parseDocument filePath data content = None
  ∧ buildDocumentIndex (before ++ (filePath, data, content) :: after)
    = buildDocumentIndex (before ++ after)
  ∧ allDocs (before ++ (filePath, data, content) :: after)
    = allDocs (before ++ after)
  ∧ DocumentIndex.byPath
      (buildDocumentIndex (before ++ (filePath, data, content) :: after))
    !! filePath
    = DocumentIndex.byPath (buildDocumentIndex (before ++ after)) !! filePath.
Proof.
  intros Hid. pose proof (parseDocument_without_id filePath data content Hid) as Hnone.
  assert (buildDocumentIndex (before ++ (filePath, data, content) :: after)
          = buildDocumentIndex (before ++ after)) as Hindex.
  { unfold buildDocumentIndex. rewrite !foldl_app. cbn [foldl].
    unfold indexFile at 2. by rewrite Hnone. }
  split_and!; [done|done| |by rewrite Hindex].
  unfold allDocs, byIdEntries. rewrite !foldl_app. cbn [foldl]. by rewrite Hnone.
Qed.

(** X27.  The documents count of a run, the size of [byId], is the number
    of documents that the validators get: the number of distinct ids of
    the files.  It is at most the number of files that have an id and
    equals it exactly when no id is repeated. *)
Theorem X27_documents_count files :
  size (DocumentIndex.byId (buildDocumentIndex files)) = length (allDocs files)
  ∧ length (allDocs files)
    = length (firstOccurrences (Document.id <$> parsedDocs files))
  ∧ (length (allDocs files) ≤ length (parsedDocs files))%nat
  ∧ (length (allDocs files) = length (parsedDocs files)
     ↔ NoDup (Document.id <$> parsedDocs files)).
Proof.
  destruct (byIdEntries_inv files) as (Hown & Hnd & Hkeys & Hmap).
  assert (length (allDocs files)
          = length (firstOccurrences (Document.id <$> parsedDocs files))) as Hlen.
  { rewrite <- Hkeys. unfold allDocs, mapValues, mapKeys. by rewrite !length_map. }
  assert (∀ l : list string,
            (length (firstOccurrences l) ≤ length l)%nat
            ∧ (length (firstOccurrences l) = length l ↔ NoDup l)) as Hfirst.
  { induction l as [|k l [IHle IHiff]] using rev_ind.
    - split; [done|]. split; [constructor|done].
    - rewrite firstOccurrences_snoc, length_app. cbn [length].
      destruct (decide (k ∈ firstOccurrences l)) as [Hin|Hout].
      + split; [lia|]. split; [lia|].
        intros (_ & Hfresh & _)%NoDup_app. exfalso.
        apply (Hfresh k); [|apply list_elem_of_here].
        unfold firstOccurrences in Hin.
        by rewrite elem_of_reverse, elem_of_remove_dups, elem_of_reverse in Hin.
      + rewrite length_app. cbn [length]. split; [lia|]. split.
        * intros Heq. apply NoDup_app. split_and!.
          -- apply IHiff. lia.
          -- intros x Hx ->%list_elem_of_singleton. apply Hout.
             unfold firstOccurrences.
             by rewrite elem_of_reverse, elem_of_remove_dups, elem_of_reverse.
          -- apply NoDup_singleton.
        * intros (Hl & _ & _)%NoDup_app. apply IHiff in Hl. lia. }
  split_and!.
  - rewrite <- Hmap, map_size_list_to_map by done.
    unfold allDocs, mapValues. by rewrite length_map.
  - done.
  - rewrite Hlen. etrans; [apply Hfirst|]. by rewrite length_fmap.
  - rewrite Hlen, <- (proj2 (Hfirst _)). by rewrite length_fmap.
Qed.

End SkipProperties.

(** A file with an empty id between the files of the fixture. *)
Lemma X26_witness :
  buildDocumentIndex (host := Samples.asciiHost)
    (take 1 Fixtures.repeatedFiles
     ++ ("notes/todo.md"%string, list_to_map [("id"%string, FmStr EmptyString)],
         "# To do"%string)
        :: drop 1 Fixtures.repeatedFiles)
  = buildDocumentIndex (host := Samples.asciiHost)
      (take 1 Fixtures.repeatedFiles ++ drop 1 Fixtures.repeatedFiles).
Proof.
  apply (X26_a_file_without_id_is_skipped (host := Samples.asciiHost)
           (take 1 Fixtures.repeatedFiles) "notes/todo.md"
           (list_to_map [("id"%string, FmStr EmptyString)]) "# To do"
           (drop 1 Fixtures.repeatedFiles)).
  right. right. left. reflexivity.
Defined.

(** ** The rows of the body tables *)

Section RowProperties.
Import LinkSpec RowSpec.
Local Open Scope string_scope.

Lemma caseless_bar : caseless "|".
Proof.
  intros [] [[] [] [] [] [] [] [] []] Ha; vm_compute in Ha;
    first [discriminate | reflexivity].
Qed.

Lemma digit_no_whiteSpace d s : isDigit d = true → stops whiteSpaceAt (d :: s).
Proof.
  destruct d as [[] [] [] [] [] [] [] []]; vm_compute;
    first [reflexivity | discriminate].
Qed.

Lemma whiteSpaceAt_bar s : stops whiteSpaceAt ("|"%char :: s).
Proof. reflexivity. Qed.

Lemma matchHere_no_bar label a s i :
  a ≠ "|"%char → matchHere (tableRow label) (a :: s) i = None.
Proof.
  intros Hne. unfold matchHere, tableRow. cbn [atoms ignoreCase app run].
  destruct (litEq true "|" a) eqn:E; [|done].
  by apply caseless_bar in E.
Qed.

Lemma search_no_bar label pre s : ∀ i,
  ¬ In "|"%char pre → s ≠ [] →
  search (tableRow label) (pre ++ s) i
  = search (tableRow label) s (i + length pre).
Proof.
  induction pre as [|a pre IH]; intros i Hnot Hs.
  - cbn [app length]. by rewrite Nat.add_0_r.
  - cbn [In] in Hnot. cbn [app search].
    rewrite matchHere_no_bar by (intros ->; tauto).
    rewrite IH by tauto. cbn [length]. f_equal. lia.
Qed.

Lemma tableRow_run label ws1 ws2 ws3 d rest :
  whiteSpace ws1 → whiteSpace ws2 → whiteSpace ws3 →
  stops whiteSpaceAt (afterWhiteSpace label ws2 ws3 (d :: rest)) →
  isDigit d = true →
  let start := (1 + length ws1 + String.length label + length ws2 + 1
                + length ws3)%nat in
  run true (atoms (tableRow (lits label))) 0 0 0
    (rowText ws1 label ws2 ws3 (d :: rest))
  = Some (start, S start, S start).
Proof.
  intros H1 H2 H3 Hstop Hd start. unfold tableRow, rowText.
  unfold afterWhiteSpace in Hstop.
  cbn [atoms app run]. rewrite litEq_refl.
  erewrite greedy_max;
    [reflexivity|by apply whiteSpace_rowOf|exact Hstop|done|].
  rewrite run_lits. cbn [run].
  erewrite greedy_max;
    [reflexivity|by apply whiteSpace_rowOf|apply whiteSpaceAt_bar|done|].
  cbn [run]. rewrite litEq_refl.
  erewrite greedy_max;
    [reflexivity|by apply whiteSpace_rowOf|by apply digit_no_whiteSpace|done|].
  cbn [run byteClass]. rewrite Hd. cbn [run]. subst start. do 3 f_equal; lia.
Qed.

(** X28.  A row of a body table gives one digit.  When no bar comes
    before the row of a label, [body.match] finds that row, and the value
    parsed from it is the digit that follows the second bar and its white
    space: what comes after that digit, further digits too, is not read (a
    cell that holds 10 gives 1). *)
Theorem X28_a_table_row_gives_its_first_digit label pre ws1 ws2 ws3 d rest :
  ¬ In "|"%char pre →
  whiteSpace ws1 → whiteSpace ws2 → whiteSpace ws3 →
  stops whiteSpaceAt (afterWhiteSpace label ws2 ws3 (d :: rest)) →
  isDigit d = true →
  rowValue (tableRow (lits label))
    (pre ++ rowText ws1 label ws2 ws3 (d :: rest))
  = Some (digitValue d).
Proof.
  intros Hpre H1 H2 H3 Hstop Hd. unfold rowValue, matchFirst.
  rewrite search_no_bar by done.
  assert (∃ t, rowText ws1 label ws2 ws3 (d :: rest) = "|"%char :: t) as [t Ht]
    by (by eexists).
  rewrite Ht. cbn [search]. rewrite <- Ht. unfold matchHere.
  rewrite tableRow_run by done. cbv zeta. cbn [fmap option_fmap option_map group1].
  f_equal.
  replace (S (1 + length ws1 + String.length label + length ws2 + 1 + length ws3)
           - (1 + length ws1 + String.length label + length ws2 + 1 + length ws3))%nat
    with 1%nat by lia.
  erewrite (take_drop_mid _
              ("|"%char :: ws1 ++ list_ascii_of_string label ++ ws2
               ++ "|"%char :: ws3) [d] rest);
    [|unfold rowText; list_shape| |done].
  2:{ repeat (progress cbn [length] || rewrite length_app
              || rewrite length_list_ascii_of_string). lia. }
  unfold parseInt10, digitValue. by rewrite Hd.
Qed.

End RowProperties.

(** A severity of 10 is read as 1. *)
Lemma X28_witness :
  rowValue severityRow (list_ascii_of_string "| Severity | 10 |") = Some 1%Z.
Proof.
  apply (X28_a_table_row_gives_its_first_digit "Severity" []
           (list_ascii_of_string " ") (list_ascii_of_string " ")
           (list_ascii_of_string " ") "1"%char (list_ascii_of_string "0 |")).
  - intros [].
  - apply rowOf_whiteSpaceAt_nil, (isRowOf_sound _ 1). reflexivity.
  - apply rowOf_whiteSpaceAt_nil, (isRowOf_sound _ 1). reflexivity.
  - apply rowOf_whiteSpaceAt_nil, (isRowOf_sound _ 1). reflexivity.
  - reflexivity.
  - reflexivity.
Defined.
